(** * FastForestLib: the image weak learner and the level trainer

    A shallow embedding of [image_weak_learner.h] and of the training of a
    tree level in [level_forest_trainer.h], followed by the properties
    established about them.

    Conventions of the embedding.
    - [pixel_type], [offset_type] and [label_type] are [std::int16_t]: such
      values are carried as [Z], and every place where the source stores a
      wider value into one of these types goes through [to_int16].
    - [scalar_type] is the floating type of [ait.h]. Scalars are carried as
      exact rationals ([Q]); a scalar that is known to hold an integer (a
      pixel value or a pixel difference) is carried as [Z] and injected at
      the comparison with a threshold. Where the source multiplies
      [double] values the product is rounded as binary64 rounds it.
    - [size_type] values (sizes, indices of vectors) are [nat]. Where the
      level trainer compares such a value with the signed [tree_depth] or
      [minimum_num_of_samples], the [int] goes through [int_to_size_type].
    - A random engine is any type with the two distributions the source
      draws from; a call returns the drawn value and the next engine state. *)

From Stdlib Require Import ZArith QArith Qround Qabs Lia Lqa List Permutation Sorted.
From stdpp Require Import base option list gmap sorting.

Local Open Scope Z_scope.

(** ** Machine integers and scalars *)

(** Value stored when an integer is assigned to a [std::int16_t]. *)
Definition to_int16 (z : Z) : Z := (z + 32768) mod 65536 - 32768.

Definition int16_min : Z := -32768.
Definition int16_max : Z := 32767.

Definition in_int16 (z : Z) : Prop := int16_min <= z <= int16_max.

Definition scalar_type : Type := Q.

(** [a < b] on scalars, as a boolean. *)
Definition scalar_ltb (a b : scalar_type) : bool := negb (Qle_bool b a).

(** [std::round]: nearest integer, halfway cases away from zero. *)
Definition round (q : Q) : Z :=
  if Qle_bool 0 q then Qfloor (q + (1 # 2))%Q else - Qfloor (- q + (1 # 2))%Q.

(** [2^e], for an exponent of either sign. *)
Definition pow2 (e : Z) : Q :=
  if 0 <=? e then inject_Z (2 ^ e) else 1 # Z.to_pos (2 ^ (- e)).

(** The nearest integer, a halfway case going to the even one. *)
Definition round_half_even (q : Q) : Z :=
  let f := Qfloor q in
  match (q - inject_Z f ?= 1 # 2)%Q with
  | Lt => f
  | Gt => f + 1
  | Eq => if Z.even f then f else f + 1
  end.

(** The exponent of the last place of the binary64 values around a
    positive [q]: 52 below the exponent of [q], and [-1074] throughout the
    subnormal range. *)
Definition binary64_exponent (q : Q) : Z :=
  let k0 := Z.log2 (Qnum q) - Z.log2 (Zpos (Qden q)) in
  let k := if Qle_bool (pow2 k0) q then k0 else k0 - 1 in
  Z.max (k - 52) (-1074).

(** The value of [double] nearest to [q], a halfway case going to the
    even significand: the rounding of every arithmetic operation on
    [double]. A result beyond the largest finite value, which the source
    has as an infinity, is outside the values carried here. *)
Definition round_to_binary64 (q : Q) : Q :=
  if Qeq_bool q 0 then 0%Q
  else
    let e := binary64_exponent (Qabs q) in
    let m := round_half_even (Qabs q / pow2 e) in
    Qred (inject_Z (if Qle_bool 0 q then m else - m) * pow2 e).

(** The conversion of an integer to [double]. *)
Definition double_of_integer (z : Z) : Q := round_to_binary64 (inject_Z z).

(** [a * b] on two values of [double]. *)
Definition double_product (a b : Q) : Q := round_to_binary64 (a * b).

(** A signed [int] compared with a [size_type] is first converted to the
    unsigned type, where a negative value wraps around; [size_type] is
    taken as 64 bits wide. *)
Definition int_to_size_type (z : Z) : Z := if z <? 0 then z + 2 ^ 64 else z.

(** [std::numeric_limits<scalar_type>]: [max()] is the largest finite value
    and, for a floating type, [min()] is the smallest positive normal
    value. [ait.h] fixes the type; the two constants are parameters. *)
Class ScalarLimits := {
  numeric_limits_max : scalar_type;
  numeric_limits_min : scalar_type
}.

(** What the theorems need to know about a floating [scalar_type]: [min()]
    is positive and below one, [max()] bounds every pixel difference. *)
Definition floating_limits (L : ScalarLimits) : Prop :=
  (0 < numeric_limits_min)%Q /\ (numeric_limits_min < 1)%Q /\
  (inject_Z 65535 < numeric_limits_max)%Q.

(** IEEE binary64: [max() = 2^1024 - 2^971], [min() = 2^-1022]. *)
Definition double_limits : ScalarLimits := {|
  numeric_limits_max := inject_Z (2 ^ 1024 - 2 ^ 971);
  numeric_limits_min := 1 # (2 ^ 1022)
|}.

(** ** Outcomes of a call

    A call of the source either returns, throws a C++ exception, stops the
    process at a failed [assert], or runs into behaviour the language
    leaves undefined (indexing a [std::vector] out of range). *)
Inductive exception : Type :=
  | invalid_argument
  | out_of_range
  | runtime_error.

Inductive outcome (A : Type) : Type :=
  | Returns (a : A)
  | Throws (e : exception)
  | Aborts
  | Undefined.
Arguments Returns {A} a.
Arguments Throws {A} e.
Arguments Aborts {A}.
Arguments Undefined {A}.

#[global] Instance outcome_ret : MRet outcome := fun A a => Returns a.

#[global] Instance outcome_bind : MBind outcome := fun A B k m =>
  match m with
  | Returns a => k a
  | Throws e => Throws e
  | Aborts => Aborts
  | Undefined => Undefined
  end.

(** [assert(c)]: checked unless the build defines [NDEBUG]. *)
Definition assert (ndebug : bool) (c : bool) : outcome unit :=
  if ndebug || c then Returns tt else Aborts.

(** ** Images and samples *)

(** An [Eigen::Matrix]: its two dimensions and its coefficients. *)
Record Matrix := {
  rows : nat;
  cols : nat;
  coeff : Z -> Z -> Z
}.

Record Image := {
  data_matrix_ : Matrix;
  label_matrix_ : Matrix
}.

Definition width (image : Image) : nat := rows (data_matrix_ image).
Definition height (image : Image) : nat := cols (data_matrix_ image).

(** [check_equal_dimensions], the condition under which the constructor of
    [Image] does not throw. *)
Definition check_equal_dimensions (data label : Matrix) : bool :=
  (rows data =? rows label)%nat && (cols data =? cols label)%nat.

Record ImageSample := {
  image_ptr_ : Image;
  x_ : Z;
  y_ : Z
}.

(** The constructor takes its coordinates as [offset_type]. *)
Definition make_sample (image : Image) (x y : Z) : ImageSample :=
  {| image_ptr_ := image; x_ := to_int16 x; y_ := to_int16 y |}.

Definition get_label (sample : ImageSample) : Z :=
  coeff (label_matrix_ (image_ptr_ sample)) (x_ sample) (y_ sample).

Definition get_image (sample : ImageSample) : Image := image_ptr_ sample.
Definition get_x (sample : ImageSample) : Z := x_ sample.
Definition get_y (sample : ImageSample) : Z := y_ sample.

(** The pixel of the data grid at a position, for positions inside it. *)
Definition pixel (image : Image) (x y : Z) : Z :=
  coeff (data_matrix_ image) x y.

(** The zero-padded pixel the spec calls [P]. *)
Definition P (image : Image) (x y : Z) : Z :=
  if (0 <=? x) && (x <? Z.of_nat (width image)) &&
     (0 <=? y) && (y <? Z.of_nat (height image))
  then pixel image x y else 0.

(** Every stored pixel is a [pixel_type] value. *)
Definition pixels_in_range (image : Image) : Prop :=
  forall x y, in_int16 (coeff (data_matrix_ image) x y).

(** ** Features, thresholds, split points *)

Inductive Direction : Type := LEFT | RIGHT.

Module ImageFeature.

Record t := {
  offset_x1 : Z;
  offset_y1 : Z;
  offset_x2 : Z;
  offset_y2 : Z
}.

(** The local [pixel_value] is a [TPixel]. *)
Definition compute_pixel_value (sample : ImageSample) (offset_x offset_y : Z) : Z :=
  let image := get_image sample in
  let x := get_x sample in
  let y := get_y sample in
  if (x + offset_x <? 0) || (x + offset_x >=? Z.of_nat (width image))
     || (y + offset_y <? 0) || (y + offset_y >=? Z.of_nat (height image))
  then to_int16 0
  else to_int16 (coeff (data_matrix_ image) (x + offset_x) (y + offset_y)).

(** Both pixels are [TPixel] locals; their difference is computed in
    [int] and returned as a scalar. *)
Definition compute_pixel_difference (feature : t) (sample : ImageSample) : Z :=
  let pixel1_value :=
    to_int16 (compute_pixel_value sample (offset_x1 feature) (offset_y1 feature)) in
  let pixel2_value :=
    to_int16 (compute_pixel_value sample (offset_x2 feature) (offset_y2 feature)) in
  pixel1_value - pixel2_value.

End ImageFeature.

Module ImageThreshold.

Record t := { threshold : scalar_type }.

Definition left_direction (th : t) (value : Z) : bool :=
  scalar_ltb (inject_Z value) (threshold th).

End ImageThreshold.

Module ImageSplitPoint.

Record t := {
  offset_x1_ : Z;
  offset_y1_ : Z;
  offset_x2_ : Z;
  offset_y2_ : Z;
  threshold_ : scalar_type
}.

(** [ImageSplitPoint(const ImageFeature&, const ImageThreshold&)] *)
Definition make (feature : ImageFeature.t) (th : ImageThreshold.t) : t :=
  {| offset_x1_ := ImageFeature.offset_x1 feature;
     offset_y1_ := ImageFeature.offset_y1 feature;
     offset_x2_ := ImageFeature.offset_x2 feature;
     offset_y2_ := ImageFeature.offset_y2 feature;
     threshold_ := ImageThreshold.threshold th |}.

Definition compute_pixel_value (sample : ImageSample) (offset_x offset_y : Z) : Z :=
  let image := get_image sample in
  let x := get_x sample in
  let y := get_y sample in
  if (x + offset_x <? 0) || (x + offset_x >=? Z.of_nat (width image))
     || (y + offset_y <? 0) || (y + offset_y >=? Z.of_nat (height image))
  then to_int16 0
  else to_int16 (coeff (data_matrix_ image) (x + offset_x) (y + offset_y)).

Definition compute_pixel_difference (sp : t) (sample : ImageSample) : Z :=
  let pixel1_value := to_int16 (compute_pixel_value sample (offset_x1_ sp) (offset_y1_ sp)) in
  let pixel2_value := to_int16 (compute_pixel_value sample (offset_x2_ sp) (offset_y2_ sp)) in
  pixel1_value - pixel2_value.

(** [Direction evaluate(PixelT value) const] *)
Definition evaluate_value (sp : t) (value : Z) : Direction :=
  if scalar_ltb (inject_Z value) (threshold_ sp) then LEFT else RIGHT.

(** [Direction evaluate(const ImageSample<PixelT>& sample) const]: the
    difference is stored in the [PixelT] local [pixel_difference] before
    it is compared. The stored value is [to_int16] of the difference
    whenever the difference is a [PixelT] value; outside that range the
    language leaves the conversion open, and the model takes the usual
    wrap-around. *)
Definition evaluate (sp : t) (sample : ImageSample) : Direction :=
  let pixel_difference := to_int16 (compute_pixel_difference sp sample) in
  evaluate_value sp pixel_difference.

End ImageSplitPoint.

(** ** Candidate sets *)

Module ImageSplitPointCandidates.

Record t := {
  candidates_ : list (ImageFeature.t * list ImageThreshold.t);
  total_size_ : nat
}.

Definition empty : t := {| candidates_ := []; total_size_ := 0 |}.

Definition add_feature_and_thresholds (c : t) (feature : ImageFeature.t)
    (thresholds : list ImageThreshold.t) : t :=
  {| candidates_ := candidates_ c ++ [(feature, thresholds)];
     total_size_ := (total_size_ c + length thresholds)%nat |}.

Definition size (c : t) : nat := length (candidates_ c).
Definition total_size (c : t) : nat := total_size_ c.

(** The inner loop of [get_split_point] over one feature's thresholds:
    the split point when the counter [i] meets [index], else the counter
    after the loop. *)
Fixpoint scan_thresholds (feature : ImageFeature.t) (thresholds : list ImageThreshold.t)
    (i index : nat) : ImageSplitPoint.t + nat :=
  match thresholds with
  | [] => inr i
  | th :: rest =>
      if (i =? index)%nat then inl (ImageSplitPoint.make feature th)
      else scan_thresholds feature rest (S i) index
  end.

(** The outer loop, and the [throw] that follows it. *)
Fixpoint scan_candidates (cands : list (ImageFeature.t * list ImageThreshold.t))
    (i index : nat) : outcome ImageSplitPoint.t :=
  match cands with
  | [] => Throws invalid_argument
  | (feature, thresholds) :: rest =>
      match scan_thresholds feature thresholds i index with
      | inl sp => Returns sp
      | inr i' => scan_candidates rest i' index
      end
  end.

Definition get_split_point (ndebug : bool) (c : t) (index : nat) : outcome ImageSplitPoint.t :=
  _ ← assert ndebug (index <? total_size c)%nat;
  scan_candidates (candidates_ c) 0 index.

End ImageSplitPointCandidates.

(** ** Statistics

    [histogram_statistics.h] and [weak_learner.h] are not part of the
    sources at hand. The weak learner is a template over the statistics
    type, so the embedding is generic in it as well: a statistics type is
    anything with the operations the weak learner calls. *)
Class Statistics (S : Type) := {
  create : S;
  accumulate : ImageSample -> S -> S;
  lazy_accumulate : ImageSample -> S -> S;
  finish_lazy_accumulation : S -> S;
  num_of_samples : S -> nat
}.

(** Modelled from the spec: the histogram statistics of
    [histogram_statistics.h], "a class-label histogram + sample count"
    whose [lazy_accumulate] batches the counter update that
    [finish_lazy_accumulation] flushes. The histogram has one bin per
    class; the lazy form bumps the bin only and the flush recomputes the
    count from the bins. *)
Record HistogramStatistics := {
  histogram_ : list nat;
  num_of_samples_ : nat
}.

Definition histogram_create (num_of_classes : nat) : HistogramStatistics :=
  {| histogram_ := replicate num_of_classes 0%nat; num_of_samples_ := 0 |}.

Definition histogram_lazy_accumulate (sample : ImageSample) (s : HistogramStatistics)
    : HistogramStatistics :=
  {| histogram_ := alter S (Z.to_nat (get_label sample)) (histogram_ s);
     num_of_samples_ := num_of_samples_ s |}.

Definition histogram_finish_lazy_accumulation (s : HistogramStatistics) : HistogramStatistics :=
  {| histogram_ := histogram_ s; num_of_samples_ := sum_list (histogram_ s) |}.

Definition histogram_accumulate (sample : ImageSample) (s : HistogramStatistics)
    : HistogramStatistics :=
  {| histogram_ := alter S (Z.to_nat (get_label sample)) (histogram_ s);
     num_of_samples_ := S (num_of_samples_ s) |}.

Definition histogram_statistics (num_of_classes : nat) : Statistics HistogramStatistics := {|
  create := histogram_create num_of_classes;
  accumulate := histogram_accumulate;
  lazy_accumulate := histogram_lazy_accumulate;
  finish_lazy_accumulation := histogram_finish_lazy_accumulation;
  num_of_samples := num_of_samples_
|}.

(** Modelled from the spec: [SplitStatistics] of [weak_learner.h], "two
    parallel arrays of Statistics (left[K], right[K])", built from the
    statistics factory with [K] fresh entries each. The accessors return a
    reference into the array that the caller then updates; an index past
    the end is not checked. *)
Record SplitStatistics (S : Type) := {
  left_statistics_collection_ : list S;
  right_statistics_collection_ : list S
}.
Arguments left_statistics_collection_ {S} _.
Arguments right_statistics_collection_ {S} _.

Section SplitStatisticsOps.
Context {S : Type} {statistics : Statistics S}.

Definition make_split_statistics (num_of_split_points : nat) : SplitStatistics S :=
  {| left_statistics_collection_ := replicate num_of_split_points create;
     right_statistics_collection_ := replicate num_of_split_points create |}.

Definition update_left_statistics (index : nat) (f : S -> S) (ss : SplitStatistics S)
    : SplitStatistics S :=
  {| left_statistics_collection_ := alter f index (left_statistics_collection_ ss);
     right_statistics_collection_ := right_statistics_collection_ ss |}.

Definition update_right_statistics (index : nat) (f : S -> S) (ss : SplitStatistics S)
    : SplitStatistics S :=
  {| left_statistics_collection_ := left_statistics_collection_ ss;
     right_statistics_collection_ := alter f index (right_statistics_collection_ ss) |}.

Definition get_left_statistics (index : nat) (ss : SplitStatistics S) : option S :=
  left_statistics_collection_ ss !! index.

Definition get_right_statistics (index : nat) (ss : SplitStatistics S) : option S :=
  right_statistics_collection_ ss !! index.

End SplitStatisticsOps.

(** ** Random engines *)

(** [uniform_int_distribution<T>(a, b)(engine)] and
    [uniform_real_distribution<T>(a, b)(engine)]: the drawn value and the
    engine after the draw. *)
Class RandomEngine (G : Type) := {
  uniform_int_distribution : Z -> Z -> G -> Z * G;
  uniform_real_distribution : scalar_type -> scalar_type -> G -> scalar_type * G
}.

(** The contract of the two distributions: a draw lies between the bounds
    it was given. *)
Definition draws_within_bounds (G : Type) {engine : RandomEngine G} : Prop :=
  (forall a b g, a <= b -> a <= fst (uniform_int_distribution a b g) <= b) /\
  (forall a b g, (a <= b)%Q ->
     (a <= fst (uniform_real_distribution a b g) <= b)%Q).

(** ** The weak learner *)

Record ImageSampleParameters := {
  bagging_fraction : scalar_type;
  samples_per_image_fraction : scalar_type;
  background_label : Z
}.

Record ImageWeakLearnerParameters := {
  num_of_features : Z;
  num_of_thresholds : Z;
  feature_offset_x_range_low : Z;
  feature_offset_x_range_high : Z;
  feature_offset_y_range_low : Z;
  feature_offset_y_range_high : Z;
  threshold_range_low : scalar_type;
  threshold_range_high : scalar_type;
  adaptive_threshold_range : bool;
  binary_images : bool
}.

Module ImageWeakLearner.

Import ImageSplitPointCandidates.

Section Sampling.
Context {L : ScalarLimits} {G : Type} {engine : RandomEngine G}.

(** One step of the loop of [compute_adaptive_threshold_range]. *)
Definition adaptive_step (feature : ImageFeature.t)
    (range : scalar_type * scalar_type) (sample : ImageSample) : scalar_type * scalar_type :=
  let value := inject_Z (ImageFeature.compute_pixel_difference feature sample) in
  let min_value := if scalar_ltb value (fst range) then value else fst range in
  let max_value := if scalar_ltb (snd range) value then value else snd range in
  (min_value, max_value).

(** The result is the pair written through [threshold_range_low] and
    [threshold_range_high]. *)
Definition compute_adaptive_threshold_range (samples : list ImageSample)
    (feature : ImageFeature.t) : scalar_type * scalar_type :=
  let range := fold_left (adaptive_step feature) samples
                 (numeric_limits_max, numeric_limits_min) in
  if Qle_bool (snd range) (fst range) then (0%Q, 0%Q) else range.

(** The pool [offsets_x] (or [offsets_y]): [-o] and [+o] for every [o] from
    [low] to [high]. *)
Definition offsets_pool (low high : Z) : list Z :=
  flat_map (fun o => [to_int16 (- o); to_int16 o]) (seqZ low (high - low + 1)).

(** [offsets[distribution(rnd_engine)]] with the distribution over
    [0 .. offsets.size() - 1]. *)
Definition draw_offset (offsets : list Z) (g : G) : Z * G :=
  let (index, g') := uniform_int_distribution 0 (to_int16 (Z.of_nat (length offsets) - 1)) g in
  (default 0 (offsets !! Z.to_nat index), g').

(** The loop that draws [n] thresholds from one distribution. *)
Fixpoint draw_thresholds (n : nat) (low high : scalar_type) (g : G)
    : list ImageThreshold.t * G :=
  match n with
  | O => ([], g)
  | Datatypes.S n' =>
      let (threshold, g1) := uniform_real_distribution low high g in
      let (rest, g2) := draw_thresholds n' low high g1 in
      ({| ImageThreshold.threshold := threshold |} :: rest, g2)
  end.

(** The state carried around the feature loop of [sample_split_points]: the
    candidates so far, the engine, and the two locals
    [threshold_range_low] and [threshold_range_high]. *)
Record sampling_state := {
  split_points : ImageSplitPointCandidates.t;
  rnd_engine : G;
  range_low : scalar_type;
  range_high : scalar_type
}.

(** The body of the feature loop. *)
Definition sample_feature (parameters_ : ImageWeakLearnerParameters)
    (samples : list ImageSample) (offsets_x offsets_y : list Z)
    (st : sampling_state) : sampling_state :=
  let (offset_x1, g1) := draw_offset offsets_x (rnd_engine st) in
  let (offset_y1, g2) := draw_offset offsets_y g1 in
  let (offset_x2, g3) := draw_offset offsets_x g2 in
  let (offset_y2, g4) := draw_offset offsets_y g3 in
  let feature := {| ImageFeature.offset_x1 := offset_x1; ImageFeature.offset_y1 := offset_y1;
                    ImageFeature.offset_x2 := offset_x2; ImageFeature.offset_y2 := offset_y2 |} in
  if binary_images parameters_ then
    let thresholds := [ {| ImageThreshold.threshold := (- (1 # 2))%Q |};
                        {| ImageThreshold.threshold := (1 # 2)%Q |} ] in
    {| split_points := add_feature_and_thresholds (split_points st) feature thresholds;
       rnd_engine := g4; range_low := range_low st; range_high := range_high st |}
  else
    let range :=
      if adaptive_threshold_range parameters_
      then compute_adaptive_threshold_range samples feature
      else (range_low st, range_high st) in
    let (thresholds, g5) :=
      draw_thresholds (Z.to_nat (num_of_thresholds parameters_)) (fst range) (snd range) g4 in
    {| split_points := add_feature_and_thresholds (split_points st) feature thresholds;
       rnd_engine := g5; range_low := fst range; range_high := snd range |}.

(** [sample_split_points]: the candidates and the engine after the draws.
    The counts are signed in the source; the loops run [Z.to_nat] of them,
    which is what the source does for counts that are not negative. *)
Definition sample_split_points (parameters_ : ImageWeakLearnerParameters)
    (samples : list ImageSample) (g : G) : ImageSplitPointCandidates.t * G :=
  let offsets_x := offsets_pool (feature_offset_x_range_low parameters_)
                                (feature_offset_x_range_high parameters_) in
  let offsets_y := offsets_pool (feature_offset_y_range_low parameters_)
                                (feature_offset_y_range_high parameters_) in
  let st := Nat.iter (Z.to_nat (num_of_features parameters_))
              (sample_feature parameters_ samples offsets_x offsets_y)
              {| split_points := ImageSplitPointCandidates.empty; rnd_engine := g;
                 range_low := threshold_range_low parameters_;
                 range_high := threshold_range_high parameters_ |} in
  (split_points st, rnd_engine st).

End Sampling.

Section Accumulation.
Context {S : Type} {statistics : Statistics S}.

(** The inner loop of [_compute_split_statistics] over the thresholds of one
    feature, for one sample. *)
Fixpoint route_sample (sample : ImageSample) (value : Z)
    (thresholds : list ImageThreshold.t) (statistics_index : nat)
    (split_statistics : SplitStatistics S) : SplitStatistics S :=
  match thresholds with
  | [] => split_statistics
  | th :: rest =>
      let split_statistics' :=
        if ImageThreshold.left_direction th value
        then update_left_statistics statistics_index (lazy_accumulate sample) split_statistics
        else update_right_statistics statistics_index (lazy_accumulate sample) split_statistics in
      route_sample sample value rest (Datatypes.S statistics_index) split_statistics'
  end.

(** The second loop of [_compute_split_statistics]: [statistics_index] is
    declared inside the loop body, so every round starts again at
    [statistics_index_offset]. *)
Definition finish_loop (thresholds : list ImageThreshold.t) (statistics_index_offset : nat)
    (split_statistics : SplitStatistics S) : SplitStatistics S :=
  fold_left (fun ss _ =>
      let statistics_index := statistics_index_offset in
      update_right_statistics statistics_index finish_lazy_accumulation
        (update_left_statistics statistics_index finish_lazy_accumulation ss))
    thresholds split_statistics.

Definition _compute_split_statistics (samples : list ImageSample)
    (split_statistics : SplitStatistics S) (statistics_index_offset : nat)
    (feature : ImageFeature.t) (thresholds : list ImageThreshold.t) : SplitStatistics S :=
  let routed := fold_left (fun ss sample =>
      let value := ImageFeature.compute_pixel_difference feature sample in
      route_sample sample value thresholds statistics_index_offset ss)
    samples split_statistics in
  finish_loop thresholds statistics_index_offset routed.

(** The loop of [compute_split_statistics] from the iterator [it] on, where
    [index] is [it - split_points.cbegin()]. *)
Fixpoint serial_loop (samples : list ImageSample)
    (rest : list (ImageFeature.t * list ImageThreshold.t)) (index : nat)
    (split_statistics : SplitStatistics S) : SplitStatistics S :=
  match rest with
  | [] => split_statistics
  | (feature, thresholds) :: rest' =>
      let statistics_index_offset := (index * length thresholds)%nat in
      serial_loop samples rest' (Datatypes.S index)
        (_compute_split_statistics samples split_statistics statistics_index_offset
           feature thresholds)
  end.

Definition compute_split_statistics (samples : list ImageSample)
    (split_points : ImageSplitPointCandidates.t) : SplitStatistics S :=
  serial_loop samples (candidates_ split_points) 0
    (make_split_statistics (total_size split_points)).

(** [std::floor(thread_index * split_points.size() / double(num_of_threads))];
    the quotient of two integers below [2^53] is floored exactly. *)
Definition shard_bound (thread_index size num_of_threads : nat) : nat :=
  (thread_index * size / num_of_threads)%nat.

(** The body of the loop of [thread_lambda], at one [split_point_index]. *)
Definition process_split_point (samples : list ImageSample)
    (split_points : ImageSplitPointCandidates.t)
    (split_statistics : SplitStatistics S) (split_point_index : nat) : SplitStatistics S :=
  match candidates_ split_points !! split_point_index with
  | Some (feature, thresholds) =>
      let statistics_index_offset := (split_point_index * length thresholds)%nat in
      _compute_split_statistics samples split_statistics statistics_index_offset
        feature thresholds
  | None => split_statistics
  end.

(** The work of the thread started for [thread_index], as a change of the
    shared [split_statistics]. *)
Definition thread_lambda (samples : list ImageSample)
    (split_points : ImageSplitPointCandidates.t) (num_of_threads thread_index : nat)
    (split_statistics : SplitStatistics S) : SplitStatistics S :=
  let split_point_index_begin := shard_bound thread_index (size split_points) num_of_threads in
  let split_point_index_end := shard_bound (thread_index + 1) (size split_points) num_of_threads in
  fold_left (process_split_point samples split_points)
    (seq split_point_index_begin (split_point_index_end - split_point_index_begin))
    split_statistics.

(** The threads run to completion in the order [schedule]; [join] returns
    once every thread of the list has run. *)
Definition run_threads (samples : list ImageSample)
    (split_points : ImageSplitPointCandidates.t) (num_of_threads : nat)
    (schedule : list nat) (split_statistics : SplitStatistics S) : SplitStatistics S :=
  fold_left (fun ss thread_index =>
      thread_lambda samples split_points num_of_threads thread_index ss)
    schedule split_statistics.

(** [compute_split_statistics_parallel] under a given schedule of its
    threads. [hardware_concurrency] is the value of
    [std::thread::hardware_concurrency()]. *)
Definition compute_split_statistics_parallel_scheduled (hardware_concurrency : nat)
    (samples : list ImageSample) (split_points : ImageSplitPointCandidates.t)
    (num_of_threads : Z) (schedule : list nat) : SplitStatistics S :=
  let num_of_threads := if num_of_threads <=? 0 then hardware_concurrency
                        else Z.to_nat num_of_threads in
  run_threads samples split_points num_of_threads schedule
    (make_split_statistics (total_size split_points)).

(** The schedule in which the threads are started. *)
Definition compute_split_statistics_parallel (hardware_concurrency : nat)
    (samples : list ImageSample) (split_points : ImageSplitPointCandidates.t)
    (num_of_threads : Z) : SplitStatistics S :=
  let threads := if num_of_threads <=? 0 then hardware_concurrency
                 else Z.to_nat num_of_threads in
  compute_split_statistics_parallel_scheduled hardware_concurrency samples split_points
    num_of_threads (seq 0 threads).

End Accumulation.

End ImageWeakLearner.

(** ** Image providers and the sample provider *)

Module MemoryImageProvider.

(** [get_image]: the range is guarded by an [assert] only; the vector is
    then indexed without a check. *)
Definition get_image (ndebug : bool) (images_ : list Image) (image_index : nat)
    : outcome Image :=
  _ ← assert ndebug (image_index <? length images_)%nat;
  match images_ !! image_index with
  | Some image => Returns image
  | None => Undefined
  end.

End MemoryImageProvider.

Module ImageSampleProvider.

(** The provider is a [MemoryImageProvider] over [images]. The field
    [provider_calls] is not in the source: it records, in order, the index
    of every call of [image_provider_->get_image]. *)
Record t := {
  images : list Image;
  parameters_ : ImageSampleParameters;
  image_map_ : gmap nat Image;
  samples_ : list ImageSample;
  provider_calls : list nat
}.

Definition get_num_of_images (p : t) : nat := length (images p).

(** [static_cast<size_type>(batch_index * batch_size / double(num_of_batches))]:
    the quotient of two integers below [2^53], truncated. *)
Definition compute_batch_start_index (batch_index num_of_batches batch_size : nat) : nat :=
  (batch_index * batch_size / num_of_batches)%nat.

Definition with_image_map (p : t) (m : gmap nat Image) : t :=
  {| images := images p; parameters_ := parameters_ p; image_map_ := m;
     samples_ := samples_ p; provider_calls := provider_calls p |}.

Definition with_samples (p : t) (s : list ImageSample) : t :=
  {| images := images p; parameters_ := parameters_ p; image_map_ := image_map_ p;
     samples_ := s; provider_calls := provider_calls p |}.

Definition clear_samples (p : t) : t := with_samples p [].

(** The virtual [get_image] of the sample provider. *)
Definition get_image (ndebug : bool) (p : t) (image_index : nat) : outcome (Image * t) :=
  let p' := {| images := images p; parameters_ := parameters_ p;
               image_map_ := image_map_ p; samples_ := samples_ p;
               provider_calls := provider_calls p ++ [image_index] |} in
  image ← MemoryImageProvider.get_image ndebug (images p) image_index;
  Returns (image, p').

(** [ensure_image_is_loaded(image_index, old_image_map)] *)
Definition ensure_image_is_loaded_from (ndebug : bool) (image_index : nat)
    (old_image_map : gmap nat Image) (p : t) : outcome t :=
  match image_map_ p !! image_index with
  | Some _ => Returns p
  | None =>
      match old_image_map !! image_index with
      | Some image_ptr =>
          Returns (with_image_map p (<[image_index := image_ptr]> (image_map_ p)))
      | None =>
          '(image_ptr, p') ← get_image ndebug p image_index;
          Returns (with_image_map p' (<[image_index := image_ptr]> (image_map_ p')))
      end
  end.

(** [ensure_image_is_loaded(image_index)] *)
Definition ensure_image_is_loaded (ndebug : bool) (image_index : nat) (p : t) : outcome t :=
  match image_map_ p !! image_index with
  | Some _ => Returns p
  | None =>
      '(image_ptr, p') ← get_image ndebug p image_index;
      Returns (with_image_map p' (<[image_index := image_ptr]> (image_map_ p')))
  end.

(** The double loop over [x] and [y] that collects the samples whose label
    is not the background label, [x] outermost. *)
Definition non_background (image : Image) (background : Z) : list ImageSample :=
  flat_map (fun x =>
    flat_map (fun y =>
      let sample := make_sample image (Z.of_nat x) (Z.of_nat y) in
      if bool_decide (get_label sample = background) then [] else [sample])
      (seq 0 (height image)))
    (seq 0 (width image)).

(** [std::swap(v[index], v.back())], for an index inside the vector. *)
Definition swap_with_back (v : list ImageSample) (index : nat) : list ImageSample :=
  match v !! index, last v with
  | Some a, Some b => <[(length v - 1)%nat := a]> (<[index := b]> v)
  | _, _ => v
  end.

Section Engine.
Context {G : Type} {engine : RandomEngine G}.

(** [M] image indices drawn from [0 .. N - 1], in the order drawn. *)
Fixpoint draw_image_indices (count : nat) (num_of_images : nat) (g : G) : list nat * G :=
  match count with
  | O => ([], g)
  | S count' =>
      let (image_index, g1) := uniform_int_distribution 0 (Z.of_nat num_of_images - 1) g in
      let (rest, g2) := draw_image_indices count' num_of_images g1 in
      (Z.to_nat image_index :: rest, g2)
  end.

(** [std::round(parameters_.bagging_fraction * get_num_of_images())]: the
    count is converted to [double] and the product is a [double]. *)
Definition num_of_images_per_bag (p : t) : Z :=
  round (double_product (bagging_fraction (parameters_ p))
           (double_of_integer (Z.of_nat (get_num_of_images p)))).

(** The [image_indices] of [compute_sample_bag_batches] as drawn, and the
    engine after the draws. *)
Definition drawn_bag (p : t) (g : G) : list nat * G :=
  draw_image_indices (Z.to_nat (num_of_images_per_bag p)) (get_num_of_images p) g.

(** [image_indices] after [std::sort]. *)
Definition sorted_bag (p : t) (g : G) : list nat :=
  merge_sort Nat.le (fst (drawn_bag p g)).

Definition compute_sample_bag_batches (p : t) (num_of_batches : nat) (g : G)
    : list (list nat) * G :=
  let num_of_images_per_bag := Z.to_nat (num_of_images_per_bag p) in
  let image_indices := sorted_bag p g in
  (map (fun i =>
      let index_start := compute_batch_start_index i num_of_batches num_of_images_per_bag in
      let index_end := compute_batch_start_index (i + 1)%nat num_of_batches num_of_images_per_bag in
      take (index_end - index_start)%nat (drop index_start image_indices))
    (seq 0 num_of_batches), snd (drawn_bag p g)).

(** The subsampling loop of [load_samples_from_image], from round [i] on
    for [count] rounds: the vector [non_background_samples], the samples
    pushed so far, the engine. *)
Fixpoint subsample (count i : nat) (non_background_samples : list ImageSample)
    (pushed : list ImageSample) (g : G) : list ImageSample * G :=
  match count with
  | O => (pushed, g)
  | S count' =>
      let (index, g') :=
        uniform_int_distribution 0
          (Z.of_nat (length non_background_samples) - 1 - Z.of_nat i) g in
      let swapped := swap_with_back non_background_samples (Z.to_nat index) in
      subsample count' (S i) swapped (pushed ++ option_list (last swapped)) g'
  end.

(** The samples that [load_samples_from_image] appends for an image that is
    in the image map, and the engine afterwards. *)
Definition samples_from_image (parameters : ImageSampleParameters) (image : Image) (g : G)
    : list ImageSample * G :=
  if scalar_ltb (samples_per_image_fraction parameters) 1%Q then
    let num_of_samples_per_image :=
      Z.to_nat (round (double_product
                         (double_product (samples_per_image_fraction parameters)
                            (double_of_integer (Z.of_nat (width image))))
                         (double_of_integer (Z.of_nat (height image))))) in
    let non_background_samples := non_background image (background_label parameters) in
    let num_of_samples := Nat.min num_of_samples_per_image (length non_background_samples) in
    subsample num_of_samples 0 non_background_samples [] g
  else
    (non_background image (background_label parameters), g).

Definition load_samples_from_image (ndebug : bool) (image_index : nat) (p : t) (g : G)
    : outcome (t * G) :=
  p1 ← ensure_image_is_loaded ndebug image_index p;
  match image_map_ p1 !! image_index with
  | None => Throws out_of_range
  | Some image_ptr =>
      let (new_samples, g') := samples_from_image (parameters_ p1) image_ptr g in
      Returns (with_samples p1 (samples_ p1 ++ new_samples), g')
  end.

(** The loop of [load_sample_batch] over the indices of the batch. *)
Fixpoint load_sample_batch_loop (ndebug : bool) (split_sample_item : list nat)
    (old_image_map : gmap nat Image) (p : t) (g : G) : outcome (t * G) :=
  match split_sample_item with
  | [] => Returns (p, g)
  | image_index :: rest =>
      p1 ← ensure_image_is_loaded_from ndebug image_index old_image_map p;
      '(p2, g2) ← load_samples_from_image ndebug image_index p1 g;
      load_sample_batch_loop ndebug rest old_image_map p2 g2
  end.

Definition load_sample_batch (ndebug : bool) (split_sample_item : list nat) (p : t) (g : G)
    : outcome (t * G) :=
  let p0 := clear_samples p in
  let old_image_map := image_map_ p0 in
  load_sample_batch_loop ndebug split_sample_item old_image_map (with_image_map p0 ∅) g.


End Engine.

Definition clear_image_cache (p : t) : t := with_image_map p ∅.

End ImageSampleProvider.

(** ** The level trainer *)

(** [TrainingParameters] of [training.h], with the two further fields of
    [LevelTrainingParameters] that [level_forest_trainer.h] reads. The
    fields are signed; where the source compares one of them with an
    unsigned count, the comparison made here is that of the count with
    the converted field. *)
Record LevelTrainingParameters := {
  num_of_trees : Z;
  tree_depth : Z;
  minimum_num_of_samples : Z;
  minimum_information_gain : scalar_type;
  num_of_threads : Z;
  level_part_size : Z
}.

(** Modelled from the spec: the tree of [tree.h] and [node.h], "stored in
    heap order: node at index [i] has children [2i+1], [2i+2]. Each node
    holds a leaf flag, an optional SplitPoint (only if not a leaf), and a
    Statistics summary". The setters are those the trainer calls; the
    trainer reaches the nodes of the tree only. *)
Record Node (S : Type) := {
  leaf_ : bool;
  split_point_ : option ImageSplitPoint.t;
  statistics_ : S
}.
Arguments leaf_ {S} _.
Arguments split_point_ {S} _.
Arguments statistics_ {S} _.

Definition left_child (node_index : nat) : nat := (2 * node_index + 1)%nat.
Definition right_child (node_index : nat) : nat := (2 * node_index + 2)%nat.

Section TreeOps.
Context {S : Type}.

Definition set_leaf (node_index : nat) (is_leaf : bool) (tree : list (Node S))
    : list (Node S) :=
  alter (fun n => {| leaf_ := is_leaf; split_point_ := split_point_ n;
                     statistics_ := statistics_ n |}) node_index tree.

Definition set_split_point (node_index : nat) (sp : ImageSplitPoint.t)
    (tree : list (Node S)) : list (Node S) :=
  alter (fun n => {| leaf_ := leaf_ n; split_point_ := Some sp;
                     statistics_ := statistics_ n |}) node_index tree.

Definition set_statistics (node_index : nat) (s : S) (tree : list (Node S))
    : list (Node S) :=
  alter (fun n => {| leaf_ := leaf_ n; split_point_ := split_point_ n;
                     statistics_ := s |}) node_index tree.

End TreeOps.

Module LevelForestTrainer.

Record SplitInformation := {
  information_gain : scalar_type;
  total_num_of_samples : nat;
  left_num_of_samples : nat;
  right_num_of_samples : nat
}.

(** [TreeNodeMap<T>::at]: [std::map::at] throws when the key is absent. A
    [TreeNodeMap] is kept as the list of its entries in key order, the
    order in which the source iterates over it. *)
Definition at_node {T : Type} (m : list (nat * T)) (node_index : nat) : outcome T :=
  match list_find (fun e => fst e = node_index) m with
  | Some (_, (_, v)) => Returns v
  | None => Throws out_of_range
  end.

Section Trainer.
Context {L : ScalarLimits} {S : Type} {statistics : Statistics S}.
Context {G : Type} {engine : RandomEngine G}.

(** The build: [NDEBUG], [AIT_MULTI_THREADING], the hardware's thread count. *)
Variable ndebug : bool.
Variable multi_threading : bool.
Variable hardware_concurrency : nat.

(** [find_best_split_point_tuple] belongs to the base class in
    [weak_learner.h]; the trainer only uses what it returns. *)
Variable find_best_split_point_tuple : S -> SplitStatistics S -> nat * scalar_type.

Variable weak_learner_parameters : ImageWeakLearnerParameters.
Variable training_parameters_ : LevelTrainingParameters.

Definition compute_statistics_batch (node_to_sample_map : list (nat * list ImageSample))
    : list (nat * S) :=
  map (fun e => (fst e, fold_left (fun s sample => accumulate sample s) (snd e) create))
    node_to_sample_map.

Definition update_node_statistics_batch (statistics_batch : list (nat * S))
    (tree : list (Node S)) : list (Node S) :=
  fold_left (fun tree e => set_statistics (fst e) (snd e) tree) statistics_batch tree.

Fixpoint sample_split_points_batch (node_to_sample_map : list (nat * list ImageSample))
    (g : G) : list (nat * ImageSplitPointCandidates.t) * G :=
  match node_to_sample_map with
  | [] => ([], g)
  | (node_index, samples) :: rest =>
      let (candidates, g1) :=
        ImageWeakLearner.sample_split_points weak_learner_parameters samples g in
      let (batch, g2) := sample_split_points_batch rest g1 in
      ((node_index, candidates) :: batch, g2)
  end.

Fixpoint compute_split_statistics_batch (node_to_sample_map : list (nat * list ImageSample))
    (split_points_batch : list (nat * ImageSplitPointCandidates.t))
    : outcome (list (nat * SplitStatistics S)) :=
  match node_to_sample_map with
  | [] => Returns []
  | (node_index, samples) :: rest =>
      split_points ← at_node split_points_batch node_index;
      let split_statistics :=
        if negb multi_threading || (num_of_threads training_parameters_ =? 1)
        then ImageWeakLearner.compute_split_statistics samples split_points
        else ImageWeakLearner.compute_split_statistics_parallel hardware_concurrency
               samples split_points (num_of_threads training_parameters_) in
      batch ← compute_split_statistics_batch rest split_points_batch;
      Returns ((node_index, split_statistics) :: batch)
  end.

(** [num_of_samples()] of the entry a reference accessor returns; an index
    past the end is not checked by the accessor. *)
Definition num_of_samples_at (collection : list S) (index : nat) : outcome nat :=
  match collection !! index with
  | Some s => Returns (num_of_samples s)
  | None => Undefined
  end.

Fixpoint find_best_split_point_batch
    (split_points_batch : list (nat * ImageSplitPointCandidates.t))
    (current_statistics : list (nat * S))
    (split_statistics_batch : list (nat * SplitStatistics S))
    : outcome (list (nat * (ImageSplitPoint.t * SplitInformation))) :=
  match split_statistics_batch with
  | [] => Returns []
  | (node_index, split_statistics) :: rest =>
      split_points ← at_node split_points_batch node_index;
      statistics ← at_node current_statistics node_index;
      let best_split_point_tuple := find_best_split_point_tuple statistics split_statistics in
      let best_split_point_index := fst best_split_point_tuple in
      best_split_point ←
        ImageSplitPointCandidates.get_split_point ndebug split_points best_split_point_index;
      statistics' ← at_node current_statistics node_index;
      left ← num_of_samples_at (left_statistics_collection_ split_statistics)
               best_split_point_index;
      right ← num_of_samples_at (right_statistics_collection_ split_statistics)
                best_split_point_index;
      let best_split_information :=
        {| information_gain := snd best_split_point_tuple;
           total_num_of_samples := num_of_samples statistics';
           left_num_of_samples := left;
           right_num_of_samples := right |} in
      batch ← find_best_split_point_batch split_points_batch current_statistics rest;
      Returns ((node_index, (best_split_point, best_split_information)) :: batch)
  end.

(** The test that makes a node a leaf. *)
Definition below_minimum (split_information : SplitInformation) : bool :=
  scalar_ltb (information_gain split_information)
             (minimum_information_gain training_parameters_)
  || (Z.of_nat (total_num_of_samples split_information)
      <? int_to_size_type (minimum_num_of_samples training_parameters_)).

(** The body of the last loop of [train_tree_level_part], for one entry of
    [best_split_point_batch]. *)
Definition apply_best_split_point (tree : list (Node S))
    (entry : nat * (ImageSplitPoint.t * SplitInformation)) : list (Node S) :=
  let node_it := fst entry in
  let tree1 := set_split_point node_it (fst (snd entry)) tree in
  let split_information := snd (snd entry) in
  let tree2 := set_leaf (left_child node_it) true tree1 in
  let tree3 := set_leaf (right_child node_it) true tree2 in
  if below_minimum split_information
  then set_leaf node_it true tree3
  else set_leaf node_it false tree3.

Definition apply_best_split_point_batch
    (best_split_point_batch : list (nat * (ImageSplitPoint.t * SplitInformation)))
    (tree : list (Node S)) : list (Node S) :=
  fold_left apply_best_split_point best_split_point_batch tree.

Definition train_tree_level_part (node_to_sample_map : list (nat * list ImageSample))
    (tree : list (Node S)) (current_level : nat) (g : G) : outcome (list (Node S) * G) :=
  let current_statistics := compute_statistics_batch node_to_sample_map in
  let tree1 := update_node_statistics_batch current_statistics tree in
  if Z.of_nat current_level <? int_to_size_type (tree_depth training_parameters_) then
    let (split_points_batch, g') := sample_split_points_batch node_to_sample_map g in
    split_statistics_batch ←
      compute_split_statistics_batch node_to_sample_map split_points_batch;
    best_split_point_batch ←
      find_best_split_point_batch split_points_batch current_statistics
        split_statistics_batch;
    Returns (apply_best_split_point_batch best_split_point_batch tree1, g')
  else Returns (tree1, g).

(** [get_sample_node_map_part]: one entry for every node from
    [node_iter_start] up to [node_iter_end]; [operator[]] gives a node that
    has no entry an empty vector. A node iterator is carried as the index
    of its node. *)
Definition get_sample_node_map_part (node_to_sample_map : list (nat * list ImageSample))
    (node_iter_start node_iter_end : nat) : list (nat * list ImageSample) :=
  map (fun node_index =>
         (node_index,
          match list_find (fun e => fst e = node_index) node_to_sample_map with
          | Some (_, (_, samples)) => samples
          | None => []
          end))
    (seq node_iter_start (node_iter_end - node_iter_start)).

(** The iterator [node_it_next] of one round of the loop of
    [train_tree_level]. *)
Definition node_it_next (node_it level_end : nat) : nat :=
  if 0 <? level_part_size training_parameters_ then
    let next := (node_it + Z.to_nat (level_part_size training_parameters_))%nat in
    if (level_end <? next)%nat then level_end else next
  else level_end.

(** The loop of [train_tree_level] from the iterator [node_it] on. The
    source loops while [node_it < tl.cend()]; [fuel] bounds the number of
    rounds, and [None] is the answer of a run that needs more. *)
Fixpoint train_tree_level_loop (fuel : nat)
    (node_to_sample_map : list (nat * list ImageSample)) (tree : list (Node S))
    (current_level node_it level_end : nat) (g : G)
    : option (outcome (list (Node S) * G)) :=
  if (node_it <? level_end)%nat then
    match fuel with
    | O => None
    | Datatypes.S fuel' =>
        let next := node_it_next node_it level_end in
        let node_to_sample_map_part :=
          get_sample_node_map_part node_to_sample_map node_it next in
        match train_tree_level_part node_to_sample_map_part tree current_level g with
        | Returns (tree', g') =>
            train_tree_level_loop fuel' node_to_sample_map tree' current_level
              next level_end g'
        | Throws e => Some (Throws e)
        | Aborts => Some Aborts
        | Undefined => Some Undefined
        end
    end
  else Some (Returns (tree, g)).

(** [train_tree_level]. The level [tl] and the map that
    [get_sample_node_map] builds for it depend on [tree.h]; they are taken
    as the range [level_begin .. level_end - 1] of node indices and as
    [node_to_sample_map]. Every round moves [node_it] forward, so the loop
    is given one round per node of the level. *)
Definition train_tree_level (node_to_sample_map : list (nat * list ImageSample))
    (tree : list (Node S)) (current_level level_begin level_end : nat) (g : G)
    : option (outcome (list (Node S) * G)) :=
  train_tree_level_loop (level_end - level_begin) node_to_sample_map tree current_level
    level_begin level_end g.

(** [tree.evaluate] belongs to [tree.h]: the index of the node at which the
    routing of a sample through the tree ends. *)
Variable evaluate : list (Node S) -> ImageSample -> nat.

(** [node_to_sample_map[node_it].push_back(sample_ptr)], for a node that
    has an entry. *)
Definition push_back_at (node_index : nat) (sample : ImageSample)
    (node_to_sample_map : list (nat * list ImageSample)) : list (nat * list ImageSample) :=
  map (fun e => if decide (fst e = node_index) then (fst e, snd e ++ [sample]) else e)
    node_to_sample_map.

(** [get_sample_node_map] over a range of node iterators: an empty entry
    for every node of the range, then every sample is appended to the entry
    of the node it is routed to, if that node has one. *)
Definition get_sample_node_map (tree : list (Node S)) (node_iter_start node_iter_end : nat)
    (samples : list ImageSample) : list (nat * list ImageSample) :=
  fold_left (fun node_to_sample_map sample =>
      let node_it := evaluate tree sample in
      if bool_decide (node_it ∈ map fst node_to_sample_map)
      then push_back_at node_it sample node_to_sample_map
      else node_to_sample_map)
    samples
    (map (fun node_index => (node_index, []))
       (seq node_iter_start (node_iter_end - node_iter_start))).

(** [TreeLevel] belongs to [tree.h]: the nodes [cbegin() .. cend() - 1] of
    a level of the tree, as the pair of the two iterators. *)
Variable tree_level : list (Node S) -> nat -> nat * nat.



(** The constructor [TreeT tree(depth)] belongs to [tree.h]. *)
Variable make_tree : Z -> list (Node S).


End Trainer.

End LevelForestTrainer.

(** * Vocabulary of the statements, and the inputs used as examples *)

Import ImageWeakLearner.

(** A statistics type that only records which operations it received, in
    order. It is used to state which calls the weak learner makes on which
    slot. *)
Inductive call : Type :=
  | CallAccumulate (sample : ImageSample)
  | CallLazyAccumulate (sample : ImageSample)
  | CallFinish.

Definition call_log_statistics : Statistics (list call) := {|
  create := [];
  accumulate := fun sample log => log ++ [CallAccumulate sample];
  lazy_accumulate := fun sample log => log ++ [CallLazyAccumulate sample];
  finish_lazy_accumulation := fun log => log ++ [CallFinish];
  num_of_samples := fun log => 0%nat
|}.

(** An engine that replays a tape of raw outputs, each reduced into the
    requested range; the real distribution yields [a] plus a multiple of a
    thousandth of the range. An exhausted tape yields the lower bound. *)
Definition tape_engine : RandomEngine (list Z) := {|
  uniform_int_distribution := fun a b g =>
    match g with
    | [] => (a, [])
    | r :: g' => (a + r mod (b - a + 1), g')
    end;
  uniform_real_distribution := fun a b g =>
    match g with
    | [] => (a, [])
    | r :: g' => ((a + (b - a) * ((r mod 1000) # 1000))%Q, g')
    end
|}.

Section ImmediateAccumulation.
Context {S : Type} {statistics : Statistics S}.

(** The statistics "obtained by calling accumulate immediately on each
    sample": the routing of [route_sample] with [accumulate] in place of
    the lazy form, and no flush. *)
Fixpoint route_sample_immediate (sample : ImageSample) (value : Z)
    (thresholds : list ImageThreshold.t) (statistics_index : nat)
    (split_statistics : SplitStatistics S) : SplitStatistics S :=
  match thresholds with
  | [] => split_statistics
  | th :: rest =>
      let split_statistics' :=
        if ImageThreshold.left_direction th value
        then update_left_statistics statistics_index (accumulate sample) split_statistics
        else update_right_statistics statistics_index (accumulate sample) split_statistics in
      route_sample_immediate sample value rest (Datatypes.S statistics_index) split_statistics'
  end.

(** The loop of [compute_split_statistics] with that routing. *)
Fixpoint immediate_loop (samples : list ImageSample)
    (rest : list (ImageFeature.t * list ImageThreshold.t)) (index : nat)
    (split_statistics : SplitStatistics S) : SplitStatistics S :=
  match rest with
  | [] => split_statistics
  | (feature, thresholds) :: rest' =>
      let statistics_index_offset := (index * length thresholds)%nat in
      immediate_loop samples rest' (Datatypes.S index)
        (fold_left (fun ss sample =>
            route_sample_immediate sample
              (ImageFeature.compute_pixel_difference feature sample)
              thresholds statistics_index_offset ss)
          samples split_statistics)
  end.

Definition immediate_split_statistics (samples : list ImageSample)
    (split_points : ImageSplitPointCandidates.t) : SplitStatistics S :=
  immediate_loop samples (ImageSplitPointCandidates.candidates_ split_points) 0
    (make_split_statistics (ImageSplitPointCandidates.total_size split_points)).

End ImmediateAccumulation.

(** The difference of the two zero-padded pixels a split point looks at. *)
Definition P_difference (sp : ImageSplitPoint.t) (sample : ImageSample) : Z :=
  P (get_image sample) (get_x sample + ImageSplitPoint.offset_x1_ sp)
    (get_y sample + ImageSplitPoint.offset_y1_ sp)
  - P (get_image sample) (get_x sample + ImageSplitPoint.offset_x2_ sp)
      (get_y sample + ImageSplitPoint.offset_y2_ sp).

(** A grid of one column of two pixels, [20000] above [-20000]. *)
Definition steep_image : Image :=
  let data := {| rows := 1; cols := 2;
                 coeff := fun x y => if y =? 0 then 20000 else -20000 |} in
  let label := {| rows := 1; cols := 2; coeff := fun _ _ => 0 |} in
  {| data_matrix_ := data; label_matrix_ := label |}.

(** The sample at its upper pixel. *)
Definition steep_sample : ImageSample := make_sample steep_image 0 0.

(** The upper pixel minus the lower one, against a threshold just above
    the largest pixel value. *)
Definition steep_split_point : ImageSplitPoint.t :=
  {| ImageSplitPoint.offset_x1_ := 0; ImageSplitPoint.offset_y1_ := 0;
     ImageSplitPoint.offset_x2_ := 0; ImageSplitPoint.offset_y2_ := 1;
     ImageSplitPoint.threshold_ := inject_Z 32768 |}.

(** The count agrees with the bins. *)
Definition histogram_consistent (s : HistogramStatistics) : Prop :=
  num_of_samples_ s = sum_list (histogram_ s).

(** The label of the sample indexes a bin. *)
Definition label_in_bins (s : HistogramStatistics) (sample : ImageSample) : Prop :=
  0 <= get_label sample /\ (Z.to_nat (get_label sample) < length (histogram_ s))%nat.

(** A grid of one pixel, of class 0. *)
Definition dot_image : Image :=
  {| data_matrix_ := {| rows := 1; cols := 1; coeff := fun _ _ => 0 |};
     label_matrix_ := {| rows := 1; cols := 1; coeff := fun _ _ => 0 |} |}.

(** Its only sample. *)
Definition dot_sample : ImageSample := make_sample dot_image 0 0.

(** The feature that subtracts a pixel from itself. *)
Definition zero_feature : ImageFeature.t :=
  {| ImageFeature.offset_x1 := 0; ImageFeature.offset_y1 := 0;
     ImageFeature.offset_x2 := 0; ImageFeature.offset_y2 := 0 |}.

(** One feature with the two thresholds of a binary image. *)
Definition binary_candidates : ImageSplitPointCandidates.t :=
  ImageSplitPointCandidates.add_feature_and_thresholds ImageSplitPointCandidates.empty
    zero_feature
    [ {| ImageThreshold.threshold := (- (1 # 2))%Q |};
      {| ImageThreshold.threshold := (1 # 2)%Q |} ].

(** Every sample of the range yields the feature value [v]. *)
Definition constant_feature (feature : ImageFeature.t) (v : Z)
    (samples : list ImageSample) : Prop :=
  Forall (fun sample => ImageFeature.compute_pixel_difference feature sample = v) samples.

(** A grid of one column of two pixels, [0] above [5]. *)
Definition step_image : Image :=
  {| data_matrix_ := {| rows := 1; cols := 2; coeff := fun x y => if y =? 0 then 0 else 5 |};
     label_matrix_ := {| rows := 1; cols := 2; coeff := fun _ _ => 0 |} |}.

(** The sample at its upper pixel. *)
Definition step_sample : ImageSample := make_sample step_image 0 0.

(** The feature that subtracts the pixel one row down from the pixel itself. *)
Definition down_feature : ImageFeature.t :=
  {| ImageFeature.offset_x1 := 0; ImageFeature.offset_y1 := 0;
     ImageFeature.offset_x2 := 0; ImageFeature.offset_y2 := 1 |}.

(** One feature with two thresholds from the adaptive range; the offset
    pools are [0; 0] for [x] and [0; 0; -1; 1] for [y]. *)
Definition adaptive_parameters : ImageWeakLearnerParameters :=
  {| num_of_features := 1; num_of_thresholds := 2;
     feature_offset_x_range_low := 0; feature_offset_x_range_high := 0;
     feature_offset_y_range_low := 0; feature_offset_y_range_high := 1;
     threshold_range_low := (- 300)%Q; threshold_range_high := 300%Q;
     adaptive_threshold_range := true; binary_images := false |}.

Local Open Scope nat_scope.

Section SlotwiseChanges.
Context {S : Type}.

(** A change of the two arrays that treats every slot on its own. *)
Definition pointwise (F G : nat -> S -> S) (ss : SplitStatistics S) : SplitStatistics S :=
  {| left_statistics_collection_ := imap F (left_statistics_collection_ ss);
     right_statistics_collection_ := imap G (right_statistics_collection_ ss) |}.

(** [f] is such a change, and leaves the slots outside [lo, hi) as they are. *)
Definition local_to (lo hi : nat) (f : SplitStatistics S -> SplitStatistics S) : Prop :=
  exists F G, (forall ss, f ss = pointwise F G ss)
              /\ (forall k x, ~ (lo <= k < hi) -> F k x = x /\ G k x = x).

(** [f] changes slot [k] of one of the two arrays of [ss]. *)
Definition writes_slot (f : SplitStatistics S -> SplitStatistics S)
    (ss : SplitStatistics S) (k : nat) : Prop :=
  get_left_statistics k (f ss) <> get_left_statistics k ss
  \/ get_right_statistics k (f ss) <> get_right_statistics k ss.

End SlotwiseChanges.

(** Every feature of the candidate set carries [n] thresholds. *)
Definition uniform_thresholds (n : nat) (split_points : ImageSplitPointCandidates.t) : Prop :=
  Forall (fun e => length (snd e) = n) (ImageSplitPointCandidates.candidates_ split_points).

(** The shards, in thread order, make up the feature list. *)
Definition shards_partition (split_points : ImageSplitPointCandidates.t) (T : nat) : Prop :=
  let size := ImageSplitPointCandidates.size split_points in
  flat_map (fun i => seq (shard_bound i size T)
                         (shard_bound (i + 1) size T - shard_bound i size T))
    (seq 0 T)
  = seq 0 size.

Section ParallelContract.
Context {S : Type} {statistics : Statistics S}.

(** No slot is written by two different threads. *)
Definition shards_write_disjoint_slices (samples : list ImageSample)
    (split_points : ImageSplitPointCandidates.t) (T : nat) : Prop :=
  forall ss t1 t2 k, t1 < T -> t2 < T -> t1 <> t2 ->
    ~ (writes_slot (thread_lambda samples split_points T t1) ss k
       /\ writes_slot (thread_lambda samples split_points T t2) ss k).

(** What the parallel accumulation promises for one input. *)
Definition parallel_contract (hardware_concurrency : nat) (samples : list ImageSample)
    (split_points : ImageSplitPointCandidates.t) (num_of_threads : Z) : Prop :=
  compute_split_statistics_parallel hardware_concurrency samples split_points num_of_threads
  = compute_split_statistics samples split_points
  /\ shards_partition split_points (Z.to_nat num_of_threads)
  /\ shards_write_disjoint_slices samples split_points (Z.to_nat num_of_threads).

End ParallelContract.

(** Two features, the first with three thresholds and the second with one. *)
Definition ragged_candidates : ImageSplitPointCandidates.t :=
  ImageSplitPointCandidates.add_feature_and_thresholds
    (ImageSplitPointCandidates.add_feature_and_thresholds ImageSplitPointCandidates.empty
       zero_feature
       [ {| ImageThreshold.threshold := (- (1 # 2))%Q |};
         {| ImageThreshold.threshold := (1 # 2)%Q |};
         {| ImageThreshold.threshold := (3 # 2)%Q |} ])
    zero_feature
    [ {| ImageThreshold.threshold := (1 # 2)%Q |} ].

(** The flattened index of the first candidate of feature [i]: the sum of
    the lengths of the threshold lists of the features before it. *)
Definition flattened_offset (cands : list (ImageFeature.t * list ImageThreshold.t))
    (i : nat) : nat :=
  sum_list (map (fun e => length (snd e)) (take i cands)).

(** [total_size_] is the number of candidates, as [add_feature_and_thresholds]
    maintains it. *)
Definition total_size_consistent (c : ImageSplitPointCandidates.t) : Prop :=
  ImageSplitPointCandidates.total_size c
  = sum_list (map (fun e => length (snd e)) (ImageSplitPointCandidates.candidates_ c)).

(** The number of thresholds every feature receives. *)
Definition thresholds_per_feature (parameters_ : ImageWeakLearnerParameters) : nat :=
  if binary_images parameters_ then 2 else Z.to_nat (num_of_thresholds parameters_).

(** What the feature loop maintains. *)
Definition candidates_shape (n k : nat) (c : ImageSplitPointCandidates.t) : Prop :=
  uniform_thresholds n c
  /\ ImageSplitPointCandidates.size c = k
  /\ ImageSplitPointCandidates.total_size c = k * n.

(** A grid of one column of three pixels, all of class 0. *)
Definition strip_image : Image :=
  {| data_matrix_ := {| rows := 1; cols := 3; coeff := fun _ _ => 0%Z |};
     label_matrix_ := {| rows := 1; cols := 3; coeff := fun _ _ => 0%Z |} |}.

(** A fraction of 0.99 of the pixels of each image. *)
Definition strip_parameters : ImageSampleParameters :=
  {| bagging_fraction := 1%Q; samples_per_image_fraction := (99 # 100)%Q;
     background_label := 32767%Z |}.

(** The position of a sample. *)
Definition coordinates (s : ImageSample) : Z * Z := (get_x s, get_y s).

(** The image a batch index stands for while a batch is loaded: the one
    kept from the previous batch if there is one, else the provider's. *)
Definition resolve (old_image_map : gmap nat Image) (images : list Image) (i : nat)
    : option Image :=
  match old_image_map !! i with
  | Some image => Some image
  | None => images !! i
  end.

Section BatchSamples.
Context {G : Type} {engine : RandomEngine G}.

(** One call of the sampling of [load_samples_from_image] per element of the
    batch, in order, each continuing with the engine the previous one left. *)
Fixpoint batch_samples (parameters : ImageSampleParameters) (lookup : nat -> option Image)
    (batch : list nat) (g : G) : list ImageSample * G :=
  match batch with
  | [] => ([], g)
  | i :: rest =>
      match lookup i with
      | Some image =>
          let (s, g1) := ImageSampleProvider.samples_from_image parameters image g in
          let (r, g2) := batch_samples parameters lookup rest g1 in
          (s ++ r, g2)
      | None => ([], g)
      end
  end.

End BatchSamples.

(** What one round of the loop of [load_sample_batch] leaves invariant. *)
Definition cache_within (old_image_map : gmap nat Image) (p : ImageSampleProvider.t) : Prop :=
  forall i image, ImageSampleProvider.image_map_ p !! i = Some image ->
                  resolve old_image_map (ImageSampleProvider.images p) i = Some image.

(** A provider of the single image [strip_image], nothing cached. *)
Definition strip_provider : ImageSampleProvider.t :=
  {| ImageSampleProvider.images := [strip_image];
     ImageSampleProvider.parameters_ := strip_parameters;
     ImageSampleProvider.image_map_ := ∅;
     ImageSampleProvider.samples_ := [];
     ImageSampleProvider.provider_calls := [] |}.

(** Ten images and a bagging fraction of 0.35, the [double] nearest to it:
    the product with 10 is the [double] 3.5. *)
Definition bag_provider : ImageSampleProvider.t :=
  {| ImageSampleProvider.images := replicate 10 strip_image;
     ImageSampleProvider.parameters_ :=
       {| bagging_fraction := (3152519739159347 # 9007199254740992)%Q;
          samples_per_image_fraction := 1%Q;
          background_label := 32767%Z |};
     ImageSampleProvider.image_map_ := ∅;
     ImageSampleProvider.samples_ := [];
     ImageSampleProvider.provider_calls := [] |}.

(** The engine after [k] draws of an image index among [N] images. *)
Definition engine_after_draws {G : Type} {engine : RandomEngine G} (N k : nat) (g : G) : G :=
  Nat.iter k (fun g => snd (uniform_int_distribution 0 (Z.of_nat N - 1) g)) g.

(** The nodes of the batch are on one level of the tree: none is a child of
    another. *)
Definition on_one_level (keys : list nat) : Prop :=
  forall i j, i ∈ keys -> j ∈ keys -> j <> left_child i /\ j <> right_child i.

(** A tree of depth 1 whose three nodes hold nothing yet. *)
Definition bare_tree : list (Node unit) :=
  replicate 3 {| leaf_ := true; split_point_ := None; statistics_ := tt |}.

(** At least 100 samples for a node to be split. *)
Definition strict_parameters : LevelTrainingParameters :=
  {| num_of_trees := 1; tree_depth := 1; minimum_num_of_samples := 100;
     minimum_information_gain := 0%Q; num_of_threads := 1; level_part_size := 0 |}.

(** A best split of a node with 5 samples and no gain. *)
Definition poor_split : LevelForestTrainer.SplitInformation :=
  {| LevelForestTrainer.information_gain := 0%Q;
     LevelForestTrainer.total_num_of_samples := 5;
     LevelForestTrainer.left_num_of_samples := 2;
     LevelForestTrainer.right_num_of_samples := 3 |}.

(** Two features with three thresholds each from the fixed range. *)
Definition plain_parameters : ImageWeakLearnerParameters :=
  {| num_of_features := 2; num_of_thresholds := 3;
     feature_offset_x_range_low := 0; feature_offset_x_range_high := 1;
     feature_offset_y_range_low := 0; feature_offset_y_range_high := 1;
     threshold_range_low := (- 300)%Q; threshold_range_high := 300%Q;
     adaptive_threshold_range := false; binary_images := false |}.

(** ** Vocabulary of the further properties *)

Local Open Scope Z_scope.

(** The thresholds a binary image gets. *)
Definition binary_thresholds : list ImageThreshold.t :=
  [ {| ImageThreshold.threshold := (- (1 # 2))%Q |};
    {| ImageThreshold.threshold := (1 # 2)%Q |} ].

(** [value <= threshold], the comparison the source comment sets against
    [left_direction]. *)
Definition left_direction_non_strict (th : ImageThreshold.t) (value : Z) : bool :=
  Qle_bool (inject_Z value) (ImageThreshold.threshold th).

(** Every stored pixel is a [pixel_type] value that is not negative. *)
Definition nonnegative_pixels (image : Image) : Prop :=
  forall x y, 0 <= coeff (data_matrix_ image) x y <= int16_max.

(** An offset range the loops of [sample_split_points] can walk: its ends
    and their negations are [offset_type] values, the counter never reaches
    the largest [offset_type], and the pool has an [offset_type] size. *)
Definition offset_range_fits (low high : Z) : Prop :=
  int16_min < low /\ low <= high /\ high < int16_max /\ high - low < 16384.

(** [v] is [-o] or [+o] for an [o] of the range. *)
Definition within_offset_range (low high : Z) (v : Z) : Prop :=
  exists o, low <= o <= high /\ (v = - o \/ v = o).

(** The four offsets of a feature come from the two ranges. *)
Definition feature_within_ranges (parameters_ : ImageWeakLearnerParameters)
    (feature : ImageFeature.t) : Prop :=
  within_offset_range (feature_offset_x_range_low parameters_)
    (feature_offset_x_range_high parameters_) (ImageFeature.offset_x1 feature)
  /\ within_offset_range (feature_offset_y_range_low parameters_)
       (feature_offset_y_range_high parameters_) (ImageFeature.offset_y1 feature)
  /\ within_offset_range (feature_offset_x_range_low parameters_)
       (feature_offset_x_range_high parameters_) (ImageFeature.offset_x2 feature)
  /\ within_offset_range (feature_offset_y_range_low parameters_)
       (feature_offset_y_range_high parameters_) (ImageFeature.offset_y2 feature).

Section FixedRange.
Context {G : Type}.

(** What the feature loop keeps when the range is the configured one. *)
Definition fixed_range_state (parameters_ : ImageWeakLearnerParameters)
    (st : @sampling_state G) : Prop :=
  range_low st = threshold_range_low parameters_
  /\ range_high st = threshold_range_high parameters_
  /\ Forall (fun e => Forall (fun th =>
               (threshold_range_low parameters_ <= ImageThreshold.threshold th
                <= threshold_range_high parameters_)%Q) (snd e))
       (ImageSplitPointCandidates.candidates_ (split_points st)).

End FixedRange.

(** The feature values of the samples of a node. *)
Definition feature_values (feature : ImageFeature.t) (samples : list ImageSample) : list Z :=
  map (ImageFeature.compute_pixel_difference feature) samples.

Local Open Scope nat_scope.

Section SlotsAndNodes.
Context {S : Type} {statistics : Statistics S}.

(** The statistics of a slot that received, one after the other, the
    samples of one side and then [flushes] calls of
    [finish_lazy_accumulation]. *)
Definition lazily_accumulated (side : ImageSample -> bool) (samples : list ImageSample)
    (flushes : nat) : S :=
  Nat.iter flushes finish_lazy_accumulation
    (fold_left (fun s sample => lazy_accumulate sample s) (List.filter side samples) create).

(** The statistics of a node: every sample of the node accumulated into a
    fresh statistics. *)
Definition accumulated (samples : list ImageSample) : S :=
  fold_left (fun s sample => accumulate sample s) samples create.


(** The split statistics that [compute_split_statistics_batch] computes
    for the samples of one node: the parallel form when the build is
    multi-threaded and [num_of_threads] is not [1]. *)
Definition node_split_statistics (multi_threading : bool) (hardware_concurrency : nat)
    (training_parameters_ : LevelTrainingParameters) (samples : list ImageSample)
    (split_points : ImageSplitPointCandidates.t) : SplitStatistics S :=
  if negb multi_threading || (num_of_threads training_parameters_ =? 1)%Z
  then compute_split_statistics samples split_points
  else compute_split_statistics_parallel hardware_concurrency samples split_points
         (num_of_threads training_parameters_).

End SlotsAndNodes.

Section ScorerOutOfRange.
Context {L : ScalarLimits} {S : Type} {statistics : Statistics S}
        {G : Type} {engine : RandomEngine G}.


End ScorerOutOfRange.

(** Every image the cache holds is the provider's image of that index. *)
Definition cache_coherent (p : ImageSampleProvider.t) : Prop :=
  forall i image, ImageSampleProvider.image_map_ p !! i = Some image ->
                  ImageSampleProvider.images p !! i = Some image.

(** The coordinates of every pixel are [offset_type] values. *)
Definition image_fits_offsets (image : Image) : Prop :=
  (Z.of_nat (width image) <= 32768)%Z /\ (Z.of_nat (height image) <= 32768)%Z.

(** A sample lies on a pixel of [image] that is not background. *)
Definition foreground_sample (image : Image) (background : Z) (s : ImageSample) : Prop :=
  get_image s = image
  /\ (0 <= get_x s < Z.of_nat (width image))%Z
  /\ (0 <= get_y s < Z.of_nat (height image))%Z
  /\ get_label s <> background.

(** The parameters with another [level_part_size]. *)
Definition with_level_part_size (training_parameters_ : LevelTrainingParameters)
    (size : Z) : LevelTrainingParameters :=
  {| num_of_trees := num_of_trees training_parameters_;
     tree_depth := tree_depth training_parameters_;
     minimum_num_of_samples := minimum_num_of_samples training_parameters_;
     minimum_information_gain := minimum_information_gain training_parameters_;
     num_of_threads := num_of_threads training_parameters_;
     level_part_size := size |}.

(** No entry of the frontier map is the node [k] or its parent. *)
Definition away_from (keys : list nat) (k : nat) : Prop :=
  forall j, j ∈ keys -> k <> j /\ k <> left_child j /\ k <> right_child j.

(** One feature for a binary image. *)
Definition binary_parameters : ImageWeakLearnerParameters :=
  {| num_of_features := 1; num_of_thresholds := 2;
     feature_offset_x_range_low := 0; feature_offset_x_range_high := 1;
     feature_offset_y_range_low := 0; feature_offset_y_range_high := 1;
     threshold_range_low := (- 300)%Q; threshold_range_high := 300%Q;
     adaptive_threshold_range := false; binary_images := true |}.

(** Every pixel of each image. *)
Definition whole_parameters : ImageSampleParameters :=
  {| bagging_fraction := 1%Q; samples_per_image_fraction := 1%Q;
     background_label := 32767%Z |}.

(** A provider of the single image [strip_image] that takes every pixel. *)
Definition whole_provider : ImageSampleProvider.t :=
  {| ImageSampleProvider.images := [strip_image];
     ImageSampleProvider.parameters_ := whole_parameters;
     ImageSampleProvider.image_map_ := ∅;
     ImageSampleProvider.samples_ := [];
     ImageSampleProvider.provider_calls := [] |}.

(** A grid of ten by ten pixels, all of class 0. *)
Definition grid_image : Image :=
  {| data_matrix_ := {| rows := 10; cols := 10; coeff := fun _ _ => 0%Z |};
     label_matrix_ := {| rows := 10; cols := 10; coeff := fun _ _ => 0%Z |} |}.

(** A provider of the single image [grid_image] with a fraction of 0.015,
    the [double] nearest to it: the product with 10 and 10 is the [double]
    1.5. *)
Definition sparse_provider : ImageSampleProvider.t :=
  {| ImageSampleProvider.images := [grid_image];
     ImageSampleProvider.parameters_ :=
       {| bagging_fraction := 1%Q;
          samples_per_image_fraction := (1080863910568919 # 72057594037927936)%Q;
          background_label := 32767%Z |};
     ImageSampleProvider.image_map_ := ∅;
     ImageSampleProvider.samples_ := [];
     ImageSampleProvider.provider_calls := [] |}.

(** A scorer that names the first candidate, with a gain of one. *)
Definition first_candidate {S : Type} (s : S) (ss : SplitStatistics S)
    : nat * scalar_type :=
  (0, 1%Q).

(** A tree of depth 2 is trained; a node with one sample may be split. *)
Definition two_level_parameters : LevelTrainingParameters :=
  {| num_of_trees := 1; tree_depth := 2; minimum_num_of_samples := 1;
     minimum_information_gain := 0%Q; num_of_threads := 1; level_part_size := 0 |}.

(** Three nodes that hold an empty histogram of one class. *)
Definition histogram_tree : list (Node HistogramStatistics) :=
  replicate 3 {| leaf_ := true; split_point_ := None;
                 statistics_ := histogram_create 1 |}.

(** The root with the one sample [dot_sample]. *)
Definition root_samples : list (nat * list ImageSample) := [(0, [dot_sample])].

(** The samples among [samples] that the tree routes to the node [k], in
    their order. *)
Definition routed_to {S : Type} (evaluate : list (Node S) -> ImageSample -> nat)
    (tree : list (Node S)) (k : nat) (samples : list ImageSample) : list ImageSample :=
  List.filter (fun sample => evaluate tree sample =? k) samples.

(** A routing for the test data: a sample ends at the node numbered by its
    column. *)
Definition column_routing (tree : list (Node HistogramStatistics)) (sample : ImageSample)
    : nat :=
  Z.to_nat (x_ sample).








(** * Properties *)

Local Open Scope Z_scope.

(** ** Scalars and machine integers *)

Lemma scalar_ltb_lt (a b : scalar_type) : scalar_ltb a b = true <-> (a < b)%Q.
Proof.
  unfold scalar_ltb. rewrite negb_true_iff.
  destruct (Qle_bool b a) eqn:E.
  - apply Qle_bool_iff in E. split; [discriminate |].
    intros Hlt. exfalso. exact (Qlt_not_le _ _ Hlt E).
  - split; [| reflexivity]. intros _.
    apply Qnot_le_lt. intros Hle. apply Qle_bool_iff in Hle. congruence.
Qed.

Lemma scalar_ltb_ge (a b : scalar_type) : scalar_ltb a b = false <-> (b <= a)%Q.
Proof.
  unfold scalar_ltb. rewrite negb_false_iff. apply Qle_bool_iff.
Qed.

Lemma to_int16_in_range (z : Z) : in_int16 z -> to_int16 z = z.
Proof.
  unfold in_int16, int16_min, int16_max, to_int16. intros Hz.
  rewrite Z.mod_small by lia. lia.
Qed.

Lemma to_int16_bounds (z : Z) : in_int16 (to_int16 z).
Proof.
  unfold in_int16, int16_min, int16_max, to_int16.
  pose proof (Z.mod_pos_bound (z + 32768) 65536 ltac:(lia)). lia.
Qed.

(** An [int] that is not negative is unchanged by the conversion to
    [size_type]. *)
Lemma int_to_size_type_nonneg (z : Z) : 0 <= z -> int_to_size_type z = z.
Proof.
  intros Hz. unfold int_to_size_type.
  destruct (Z.ltb_spec z 0); [lia | reflexivity].
Qed.


(** ** Evaluation of a split point *)

(** The guarded read of [compute_pixel_value] is the zero-padded pixel:
    outside the grid it yields 0 and reads nothing. *)
Lemma split_point_pixel_value_zero_padded (sample : ImageSample) (offset_x offset_y : Z) :
  pixels_in_range (get_image sample) ->
  ImageSplitPoint.compute_pixel_value sample offset_x offset_y
  = P (get_image sample) (get_x sample + offset_x) (get_y sample + offset_y).
Proof.
  intros Hrange. unfold ImageSplitPoint.compute_pixel_value, P, pixel.
  set (X := get_x sample + offset_x). set (Y := get_y sample + offset_y).
  set (W := Z.of_nat (width (get_image sample))).
  set (Hh := Z.of_nat (height (get_image sample))).
  destruct (X <? 0) eqn:E1, (X >=? W) eqn:E2, (Y <? 0) eqn:E3, (Y >=? Hh) eqn:E4;
    destruct (0 <=? X) eqn:E5, (X <? W) eqn:E6, (0 <=? Y) eqn:E7, (Y <? Hh) eqn:E8;
    simpl; try reflexivity; try lia.
  apply to_int16_in_range, Hrange.
Qed.

Lemma feature_pixel_value_zero_padded (sample : ImageSample) (offset_x offset_y : Z) :
  pixels_in_range (get_image sample) ->
  ImageFeature.compute_pixel_value sample offset_x offset_y
  = P (get_image sample) (get_x sample + offset_x) (get_y sample + offset_y).
Proof. apply split_point_pixel_value_zero_padded. Qed.

Lemma P_in_int16 (image : Image) (x y : Z) : pixels_in_range image -> in_int16 (P image x y).
Proof.
  intros Hrange. unfold P, pixel.
  destruct (_ && _); [apply Hrange |]. unfold in_int16, int16_min, int16_max. lia.
Qed.

Lemma split_point_pixel_difference (sp : ImageSplitPoint.t) (sample : ImageSample) :
  pixels_in_range (get_image sample) ->
  ImageSplitPoint.compute_pixel_difference sp sample = P_difference sp sample.
Proof.
  intros Hrange. unfold ImageSplitPoint.compute_pixel_difference, P_difference.
  rewrite !split_point_pixel_value_zero_padded by assumption.
  rewrite !to_int16_in_range by (apply P_in_int16; assumption). reflexivity.
Qed.

(** Where the difference of the two pixels is itself a pixel value, the
    evaluation is the strict comparison of that difference with the
    threshold. *)
Lemma evaluate_left_iff_when_difference_fits (sp : ImageSplitPoint.t) (sample : ImageSample) :
  pixels_in_range (get_image sample) ->
  in_int16 (P_difference sp sample) ->
  (ImageSplitPoint.evaluate sp sample = LEFT
   <-> (inject_Z (P_difference sp sample) < ImageSplitPoint.threshold_ sp)%Q)
  /\ (ImageSplitPoint.evaluate sp sample = RIGHT
      <-> (ImageSplitPoint.threshold_ sp <= inject_Z (P_difference sp sample))%Q).
Proof.
  intros Hrange Hfit. unfold ImageSplitPoint.evaluate, ImageSplitPoint.evaluate_value.
  rewrite split_point_pixel_difference by assumption.
  rewrite to_int16_in_range by assumption.
  destruct (scalar_ltb _ _) eqn:E.
  - apply scalar_ltb_lt in E. split; split; try done.
    intros Hle. exfalso. exact (Qlt_not_le _ _ E Hle).
  - apply scalar_ltb_ge in E. split; split; try done.
    intros Hlt. exfalso. exact (Qlt_not_le _ _ Hlt E).
Qed.

(** Whatever [pixel_type] value the local [pixel_difference] receives, a
    threshold above the largest pixel value sends it left. *)
Lemma evaluate_value_left_above_pixel_range (sp : ImageSplitPoint.t) (value : Z) :
  in_int16 value ->
  (inject_Z int16_max < ImageSplitPoint.threshold_ sp)%Q ->
  ImageSplitPoint.evaluate_value sp value = LEFT.
Proof.
  intros Hv Ht. unfold ImageSplitPoint.evaluate_value.
  destruct (scalar_ltb _ _) eqn:E; [reflexivity |].
  apply scalar_ltb_ge in E. exfalso.
  apply (Qlt_not_le _ _ Ht). eapply Qle_trans; [exact E |].
  rewrite <- Zle_Qle. apply Hv.
Qed.

(** C6. On the two-pixel image [20000; -20000] with threshold [32768] the
    difference of the two pixels is [40000], which is not below the
    threshold, yet [evaluate] answers LEFT: the difference is narrowed to
    the pixel type before the comparison. The feature path used while
    accumulating statistics compares the difference itself and goes right. *)
Theorem evaluate_narrows_pixel_difference :
  pixels_in_range steep_image
  /\ P_difference steep_split_point steep_sample = 40000
  /\ ~ (inject_Z (P_difference steep_split_point steep_sample)
        < ImageSplitPoint.threshold_ steep_split_point)%Q
  /\ ImageSplitPoint.evaluate steep_split_point steep_sample = LEFT
  /\ ImageThreshold.left_direction
       {| ImageThreshold.threshold := ImageSplitPoint.threshold_ steep_split_point |}
       (ImageFeature.compute_pixel_difference
          {| ImageFeature.offset_x1 := 0; ImageFeature.offset_y1 := 0;
             ImageFeature.offset_x2 := 0; ImageFeature.offset_y2 := 1 |}
          steep_sample) = false.
Proof.
  split; [| split; [| split; [| split]]].
  - intros x y. unfold steep_image, in_int16, int16_min, int16_max. simpl.
    destruct (y =? 0); lia.
  - reflexivity.
  - intros Hlt. apply Qlt_alt in Hlt. vm_compute in Hlt. discriminate.
  - apply evaluate_value_left_above_pixel_range.
    + apply to_int16_bounds.
    + apply Qlt_alt. reflexivity.
  - vm_compute. reflexivity.
Qed.

(** ** Histogram statistics: the lazy form and its flush *)

Lemma sum_list_alter_S (l : list nat) (i : nat) :
  (i < length l)%nat -> sum_list (alter S i l) = S (sum_list l).
Proof.
  revert i. induction l as [| a l IH]; intros i Hi; simpl in *; [lia |].
  destruct i as [| i]; simpl; [reflexivity |].
  change (list_alter S i l) with (alter S i l).
  rewrite IH by lia. lia.
Qed.

Lemma histogram_lazy_fold (samples : list ImageSample) (s : HistogramStatistics) :
  Forall (label_in_bins s) samples ->
  let lazy := fold_left (fun st sample => histogram_lazy_accumulate sample st) samples s in
  let eager := fold_left (fun st sample => histogram_accumulate sample st) samples s in
  histogram_ lazy = histogram_ eager
  /\ length (histogram_ lazy) = length (histogram_ s)
  /\ sum_list (histogram_ lazy) = (sum_list (histogram_ s) + length samples)%nat
  /\ num_of_samples_ eager = (num_of_samples_ s + length samples)%nat.
Proof.
  revert s. induction samples as [| x xs IH]; intros s Hall; simpl.
  - repeat split; lia.
  - inversion Hall as [| ? ? Hx Hxs]; subst.
    assert (Hlazy : Forall (label_in_bins (histogram_lazy_accumulate x s)) xs).
    { eapply Forall_impl; [exact Hxs |]. intros a [Ha1 Ha2]. split; [exact Ha1 |].
      simpl. rewrite length_alter. exact Ha2. }
    assert (Heager : Forall (label_in_bins (histogram_accumulate x s)) xs).
    { eapply Forall_impl; [exact Hxs |]. intros a [Ha1 Ha2]. split; [exact Ha1 |].
      simpl. rewrite length_alter. exact Ha2. }
    destruct (IH _ Hlazy) as (_ & Hlen & Hsum & _).
    destruct (IH _ Heager) as (Hhist & _ & _ & Hnum).
    simpl in *. destruct Hx as [_ Hx].
    rewrite length_alter in Hlen. rewrite sum_list_alter_S in Hsum by exact Hx.
    repeat split; try lia.
    (* the two folds build the same bins: they start from equal bins *)
    clear -xs. revert s.
    assert (Hgen : forall a b, histogram_ a = histogram_ b ->
      histogram_ (fold_left (fun st sample => histogram_lazy_accumulate sample st) xs a)
      = histogram_ (fold_left (fun st sample => histogram_accumulate sample st) xs b)).
    { induction xs as [| y ys IHys]; intros a b Hab; simpl; [exact Hab |].
      apply IHys. simpl. rewrite Hab. reflexivity. }
    intros s. apply Hgen. reflexivity.
Qed.

(** The contract the spec gives for the lazy form, met by the histogram
    statistics: lazily accumulating a range and flushing once gives what
    accumulating each sample gives. *)
Lemma histogram_lazy_then_finish (samples : list ImageSample) (s : HistogramStatistics) :
  histogram_consistent s ->
  Forall (label_in_bins s) samples ->
  histogram_finish_lazy_accumulation
    (fold_left (fun st sample => histogram_lazy_accumulate sample st) samples s)
  = fold_left (fun st sample => histogram_accumulate sample st) samples s.
Proof.
  intros Hcons Hall. destruct (histogram_lazy_fold samples s Hall) as (Hh & _ & Hsum & Hnum).
  unfold histogram_finish_lazy_accumulation.
  destruct (fold_left (fun st sample => histogram_accumulate sample st) samples s)
    as [eh en] eqn:E.
  simpl in *. f_equal; [exact Hh |]. unfold histogram_consistent in Hcons. lia.
Qed.

(** ** The flush loop of [_compute_split_statistics] *)

(** C1. One sample and one feature with the thresholds [-0.5] and [+0.5]:
    the sample is lazily accumulated into [right[0]] and [left[1]], but the
    flush loop restarts at the offset in every round, so slot 0 is flushed
    twice and slot 1 never. With histogram statistics [left[1]] keeps a
    sample count of 0 where immediate accumulation gives 1, and the result
    differs from the immediately accumulated statistics. *)
Theorem compute_split_statistics_flushes_first_slot_only :
  let logged := ImageWeakLearner.compute_split_statistics (statistics := call_log_statistics)
                  [dot_sample] binary_candidates in
  let lazy := ImageWeakLearner.compute_split_statistics (statistics := histogram_statistics 1)
                [dot_sample] binary_candidates in
  let eager := immediate_split_statistics (statistics := histogram_statistics 1)
                 [dot_sample] binary_candidates in
  ImageSplitPointCandidates.total_size binary_candidates = 2%nat
  /\ get_right_statistics 0 logged = Some [CallLazyAccumulate dot_sample; CallFinish; CallFinish]
  /\ get_left_statistics 1 logged = Some [CallLazyAccumulate dot_sample]
  /\ get_right_statistics 1 logged = Some []
  /\ (num_of_samples_ <$> get_left_statistics 1 lazy) = Some 0%nat
  /\ (num_of_samples_ <$> get_left_statistics 1 eager) = Some 1%nat
  /\ lazy <> eager.
Proof.
  repeat split; try (vm_compute; reflexivity).
  intros Heq.
  apply (f_equal (fun ss => num_of_samples_ <$> get_left_statistics 1 ss)) in Heq.
  vm_compute in Heq. discriminate.
Qed.

(** ** The adaptive threshold range *)

Section AdaptiveRange.
Context {L : ScalarLimits}.

Lemma adaptive_fold_constant (feature : ImageFeature.t) (v : Z) (samples : list ImageSample)
    (lo hi : scalar_type) :
  constant_feature feature v samples ->
  scalar_ltb (inject_Z v) lo = false ->
  scalar_ltb hi (inject_Z v) = false ->
  fold_left (adaptive_step feature) samples (lo, hi) = (lo, hi).
Proof.
  intros Hall Hlo Hhi. induction Hall as [| sample rest Hv _ IH]; [reflexivity |].
  simpl. unfold adaptive_step at 2. simpl. rewrite Hv, Hlo, Hhi. exact IH.
Qed.

Lemma scalar_ltb_irrefl (a : scalar_type) : scalar_ltb a a = false.
Proof. apply scalar_ltb_ge. apply Qle_refl. Qed.

(** When every sample of a range that is not empty yields the same value
    [v <= 0], the maximum never leaves its initial value
    [numeric_limits<scalar_type>::min()], which is positive: the range
    comes out as [v, min()], and it is not collapsed. *)
Lemma adaptive_range_of_constant_nonpositive (feature : ImageFeature.t) (v : Z)
    (samples : list ImageSample) :
  floating_limits L ->
  samples <> [] ->
  constant_feature feature v samples ->
  -65535 <= v <= 0 ->
  compute_adaptive_threshold_range samples feature = (inject_Z v, numeric_limits_min).
Proof.
  intros (Hpos & _ & Hmax) Hne Hall Hv.
  destruct samples as [| sample rest]; [contradiction |].
  inversion Hall as [| ? ? Hs Hrest]; subst.
  assert (Hv0 : (inject_Z (ImageFeature.compute_pixel_difference feature sample) <= 0)%Q).
  { change 0%Q with (inject_Z 0). rewrite <- Zle_Qle. lia. }
  assert (Hlt : (inject_Z (ImageFeature.compute_pixel_difference feature sample)
                 < numeric_limits_min)%Q).
  { eapply Qle_lt_trans; [exact Hv0 | exact Hpos]. }
  assert (H1 : scalar_ltb (inject_Z (ImageFeature.compute_pixel_difference feature sample))
                 numeric_limits_max = true).
  { apply scalar_ltb_lt. eapply Qle_lt_trans; [| exact Hmax].
    rewrite <- Zle_Qle. lia. }
  assert (H2 : scalar_ltb numeric_limits_min
                 (inject_Z (ImageFeature.compute_pixel_difference feature sample)) = false).
  { apply scalar_ltb_ge. apply Qlt_le_weak. exact Hlt. }
  assert (Hstep : adaptive_step feature (numeric_limits_max, numeric_limits_min) sample
                  = (inject_Z (ImageFeature.compute_pixel_difference feature sample),
                     numeric_limits_min)).
  { unfold adaptive_step. cbn [fst snd]. rewrite H1, H2. reflexivity. }
  unfold compute_adaptive_threshold_range. cbn [fold_left]. rewrite Hstep.
  rewrite (adaptive_fold_constant feature
             (ImageFeature.compute_pixel_difference feature sample) rest);
    [| exact Hrest | apply scalar_ltb_irrefl | exact H2].
  cbn [fst snd].
  destruct (Qle_bool numeric_limits_min
              (inject_Z (ImageFeature.compute_pixel_difference feature sample))) eqn:E.
  - apply Qle_bool_iff in E. exfalso. exact (Qlt_not_le _ _ Hlt E).
  - reflexivity.
Qed.

(** For a positive constant value the range does collapse to [0, 0]. *)
Lemma adaptive_range_of_constant_positive (feature : ImageFeature.t) (v : Z)
    (samples : list ImageSample) :
  floating_limits L ->
  samples <> [] ->
  constant_feature feature v samples ->
  1 <= v <= 65535 ->
  compute_adaptive_threshold_range samples feature = (0%Q, 0%Q).
Proof.
  intros (Hpos & Hone & Hmax) Hne Hall Hv.
  destruct samples as [| sample rest]; [contradiction |].
  inversion Hall as [| ? ? Hs Hrest]; subst.
  set (value := inject_Z (ImageFeature.compute_pixel_difference feature sample)).
  assert (Hge : (1 <= value)%Q).
  { unfold value. change 1%Q with (inject_Z 1). rewrite <- Zle_Qle. lia. }
  assert (H1 : scalar_ltb value numeric_limits_max = true).
  { apply scalar_ltb_lt. eapply Qle_lt_trans; [| exact Hmax].
    unfold value. rewrite <- Zle_Qle. lia. }
  assert (H2 : scalar_ltb numeric_limits_min value = true).
  { apply scalar_ltb_lt. eapply Qlt_le_trans; [exact Hone | exact Hge]. }
  assert (Hstep : adaptive_step feature (numeric_limits_max, numeric_limits_min) sample
                  = (value, value)).
  { unfold adaptive_step. cbn [fst snd]. fold value. rewrite H1, H2. reflexivity. }
  unfold compute_adaptive_threshold_range. cbn [fold_left]. rewrite Hstep.
  rewrite (adaptive_fold_constant feature
             (ImageFeature.compute_pixel_difference feature sample) rest);
    [| exact Hrest | apply scalar_ltb_irrefl | apply scalar_ltb_irrefl].
  cbn [fst snd].
  destruct (Qle_bool value value) eqn:E; [reflexivity |].
  assert (Qle_bool value value = true) by (apply Qle_bool_iff, Qle_refl). congruence.
Qed.

End AdaptiveRange.

(** C5. One sample whose feature value is [-5], so that all samples yield
    the same value: the adaptive range is [-5, min()] with [min()] the
    smallest positive double, not [0, 0], and the thresholds that
    [sample_split_points] draws from it for the feature [(0,0,0,1)] are
    [-5] and [-5/2 + min()/2], not 0. *)
Theorem adaptive_range_not_collapsed_for_negative_value :
  ImageFeature.compute_pixel_difference down_feature step_sample = -5
  /\ compute_adaptive_threshold_range (L := double_limits) [step_sample] down_feature
     = (inject_Z (-5), 1 # (2 ^ 1022))
  /\ exists t1 t2,
       ImageSplitPointCandidates.candidates_
         (fst (sample_split_points (L := double_limits) (engine := tape_engine)
                 adaptive_parameters [step_sample] [0; 0; 0; 3; 0; 500]))
       = [ (down_feature, [ {| ImageThreshold.threshold := t1 |};
                            {| ImageThreshold.threshold := t2 |} ]) ]
       /\ (t1 == inject_Z (-5))%Q /\ (t2 < 0)%Q.
Proof.
  split; [reflexivity |]. split; [vm_compute; reflexivity |].
  eexists _, _. split; [vm_compute; reflexivity |].
  split.
  - vm_compute. reflexivity.
  - vm_compute. reflexivity.
Qed.

Lemma double_limits_floating : floating_limits double_limits.
Proof.
  unfold floating_limits, double_limits. simpl. repeat split.
Qed.

Local Open Scope nat_scope.

(** ** Updates of the statistics arrays, slot by slot *)

Section Locality.
Context {S : Type} {statistics : Statistics S}.

Lemma imap_unchanged (F : nat -> S -> S) (l : list S) :
  (forall k x, F k x = x) -> imap F l = l.
Proof.
  intros HF. apply list_eq. intros i. rewrite list_lookup_imap.
  destruct (l !! i); simpl; [rewrite HF |]; reflexivity.
Qed.

Lemma alter_as_imap (f : S -> S) (i : nat) (l : list S) :
  alter f i l = imap (fun k x => if decide (k = i) then f x else x) l.
Proof.
  apply list_eq. intros j. rewrite list_lookup_imap, list_lookup_alter.
  destruct (decide (i = j)) as [-> | Hne].
  - destruct (l !! j); simpl; [| reflexivity]. rewrite decide_True; done.
  - destruct (l !! j); simpl; [| reflexivity]. rewrite decide_False; [done | congruence].
Qed.

Lemma local_to_id (lo hi : nat) : local_to lo hi (fun ss : SplitStatistics S => ss).
Proof.
  exists (fun _ x => x), (fun _ x => x). split; [| done].
  intros [l r]. unfold pointwise. simpl. rewrite !imap_unchanged; done.
Qed.

Lemma local_to_update_left (lo hi i : nat) (f : S -> S) :
  lo <= i < hi -> local_to lo hi (update_left_statistics i f).
Proof.
  intros Hi. exists (fun k x => if decide (k = i) then f x else x), (fun _ x => x). split.
  - intros [l r]. unfold update_left_statistics, pointwise. simpl.
    rewrite alter_as_imap, (imap_unchanged (fun _ x => x)); done.
  - intros k x Hk. split; [| done]. rewrite decide_False; [done | lia].
Qed.

Lemma local_to_update_right (lo hi i : nat) (f : S -> S) :
  lo <= i < hi -> local_to lo hi (update_right_statistics i f).
Proof.
  intros Hi. exists (fun _ x => x), (fun k x => if decide (k = i) then f x else x). split.
  - intros [l r]. unfold update_right_statistics, pointwise. simpl.
    rewrite alter_as_imap, (imap_unchanged (fun _ x => x)); done.
  - intros k x Hk. split; [done |]. rewrite decide_False; [done | lia].
Qed.

Lemma imap_imap (F F' : nat -> S -> S) (l : list S) :
  imap F (imap F' l) = imap (fun k x => F k (F' k x)) l.
Proof.
  apply list_eq. intros i. rewrite !list_lookup_imap.
  destruct (l !! i); reflexivity.
Qed.

Lemma local_to_compose (lo hi : nat) (f g : SplitStatistics S -> SplitStatistics S) :
  local_to lo hi f -> local_to lo hi g -> local_to lo hi (fun ss => g (f ss)).
Proof.
  intros (F & G & Hf & Hout) (F' & G' & Hg & Hout').
  exists (fun k x => F' k (F k x)), (fun k x => G' k (G k x)). split.
  - intros ss. rewrite Hf, Hg. unfold pointwise. simpl. rewrite !imap_imap. reflexivity.
  - intros k x Hk. destruct (Hout k x Hk) as [-> ->]. apply Hout', Hk.
Qed.

Lemma local_to_mono (lo hi lo' hi' : nat) (f : SplitStatistics S -> SplitStatistics S) :
  lo' <= lo -> hi <= hi' -> local_to lo hi f -> local_to lo' hi' f.
Proof.
  intros Hlo Hhi (F & G & Hf & Hout). exists F, G. split; [exact Hf |].
  intros k x Hk. apply Hout. lia.
Qed.

Lemma local_to_fold {A : Type} (lo hi : nat)
    (step : SplitStatistics S -> A -> SplitStatistics S) (l : list A) :
  (forall a, a ∈ l -> local_to lo hi (fun ss => step ss a)) ->
  local_to lo hi (fun ss => fold_left step l ss).
Proof.
  induction l as [| a l IH]; intros Hall; simpl.
  - apply local_to_id.
  - apply (local_to_compose lo hi (fun ss => step ss a) (fun ss => fold_left step l ss)).
    + apply Hall. left.
    + apply IH. intros b Hb. apply Hall. right. exact Hb.
Qed.

Lemma local_to_frame (lo hi k : nat) (f : SplitStatistics S -> SplitStatistics S)
    (ss : SplitStatistics S) :
  local_to lo hi f -> ~ (lo <= k < hi) ->
  get_left_statistics k (f ss) = get_left_statistics k ss
  /\ get_right_statistics k (f ss) = get_right_statistics k ss.
Proof.
  intros (F & G & Hf & Hout) Hk. rewrite Hf.
  unfold get_left_statistics, get_right_statistics, pointwise. simpl.
  rewrite !list_lookup_imap.
  split.
  - destruct (left_statistics_collection_ ss !! k) as [x |]; simpl; [| done].
    destruct (Hout k x Hk) as [-> _]. reflexivity.
  - destruct (right_statistics_collection_ ss !! k) as [x |]; simpl; [| done].
    destruct (Hout k x Hk) as [_ ->]. reflexivity.
Qed.

Lemma local_to_commute (lo1 hi1 lo2 hi2 : nat)
    (f g : SplitStatistics S -> SplitStatistics S) (ss : SplitStatistics S) :
  local_to lo1 hi1 f -> local_to lo2 hi2 g -> hi1 <= lo2 \/ hi2 <= lo1 ->
  f (g ss) = g (f ss).
Proof.
  intros (F & G & Hf & Hout) (F' & G' & Hg & Hout') Hdisj.
  rewrite !Hf, !Hg. unfold pointwise. simpl. rewrite !imap_imap.
  f_equal; apply imap_ext; intros k x _.
  - destruct (decide (lo1 <= k < hi1)) as [Hin | Hnin].
    + assert (Hk : ~ (lo2 <= k < hi2)) by lia.
      destruct (Hout' k x Hk) as [-> _]. destruct (Hout' k (F k x) Hk) as [-> _]. reflexivity.
    + destruct (Hout k x Hnin) as [-> _]. destruct (Hout k (F' k x) Hnin) as [-> _]. reflexivity.
  - destruct (decide (lo1 <= k < hi1)) as [Hin | Hnin].
    + assert (Hk : ~ (lo2 <= k < hi2)) by lia.
      destruct (Hout' k x Hk) as [_ ->]. destruct (Hout' k (G k x) Hk) as [_ ->]. reflexivity.
    + destruct (Hout k x Hnin) as [_ ->]. destruct (Hout k (G' k x) Hnin) as [_ ->]. reflexivity.
Qed.

Lemma route_sample_local (sample : ImageSample) (value : Z)
    (thresholds : list ImageThreshold.t) (statistics_index : nat) :
  local_to statistics_index (statistics_index + length thresholds)
    (route_sample sample value thresholds statistics_index).
Proof.
  revert statistics_index. induction thresholds as [| th rest IH]; intros idx; simpl.
  - apply local_to_id.
  - apply (local_to_compose _ _
      (fun ss => if ImageThreshold.left_direction th value
                 then update_left_statistics idx (lazy_accumulate sample) ss
                 else update_right_statistics idx (lazy_accumulate sample) ss)
      (route_sample sample value rest (Datatypes.S idx))).
    + destruct (ImageThreshold.left_direction th value).
      * apply local_to_update_left. lia.
      * apply local_to_update_right. lia.
    + eapply local_to_mono; [| | apply IH]; lia.
Qed.

Lemma finish_loop_local (thresholds : list ImageThreshold.t) (offset : nat) :
  local_to offset (offset + length thresholds) (finish_loop thresholds offset).
Proof.
  unfold finish_loop. apply local_to_fold. intros th Hth.
  assert (0 < length thresholds) by (destruct thresholds; [inversion Hth | simpl; lia]).
  apply (local_to_compose _ _
    (update_left_statistics offset finish_lazy_accumulation)
    (update_right_statistics offset finish_lazy_accumulation)).
  - apply local_to_update_left. lia.
  - apply local_to_update_right. lia.
Qed.

Lemma compute_split_statistics_local (samples : list ImageSample) (offset : nat)
    (feature : ImageFeature.t) (thresholds : list ImageThreshold.t) :
  local_to offset (offset + length thresholds)
    (fun ss => _compute_split_statistics samples ss offset feature thresholds).
Proof.
  unfold _compute_split_statistics.
  apply (local_to_compose _ _
    (fun ss => fold_left (fun ss sample =>
       route_sample sample (ImageFeature.compute_pixel_difference feature sample)
         thresholds offset ss) samples ss)
    (finish_loop thresholds offset)).
  - apply local_to_fold. intros sample _. apply route_sample_local.
  - apply finish_loop_local.
Qed.

End Locality.

Lemma shard_bound_mono (t1 t2 size T : nat) :
  t1 <= t2 -> shard_bound t1 size T <= shard_bound t2 size T.
Proof.
  intros Ht. unfold shard_bound. apply Nat.Div0.div_le_mono. nia.
Qed.

Lemma shard_bound_zero (size T : nat) : shard_bound 0 size T = 0.
Proof. unfold shard_bound. simpl. apply Nat.Div0.div_0_l. Qed.

Lemma shard_bound_last (size T : nat) : 0 < T -> shard_bound T size T = size.
Proof. intros HT. unfold shard_bound. rewrite Nat.mul_comm. apply Nat.div_mul. lia. Qed.

(** Consecutive ranges between the values of a monotone bound chain up to
    one range. *)
Lemma consecutive_ranges (b : nat -> nat) (T : nat) :
  (forall t, b t <= b (Datatypes.S t)) ->
  flat_map (fun t => seq (b t) (b (t + 1) - b t)) (seq 0 T) = seq (b 0) (b T - b 0).
Proof.
  intros Hmono.
  assert (Hle : forall t, b 0 <= b t).
  { intros i. induction i as [| i IH]; [lia |]. specialize (Hmono i). lia. }
  induction T as [| T IH].
  - simpl. rewrite Nat.sub_diag. reflexivity.
  - rewrite seq_S, flat_map_app, IH. simpl. rewrite app_nil_r.
    replace (T + 1) with (Datatypes.S T) by lia.
    pose proof (Hmono T). pose proof (Hle T).
    replace (b (Datatypes.S T) - b 0) with ((b T - b 0) + (b (Datatypes.S T) - b T)) by lia.
    rewrite seq_app. do 2 f_equal. lia.
Qed.

Lemma fold_left_flat_map {A B C : Type} (step : A -> C -> A) (f : B -> list C)
    (l : list B) (a : A) :
  fold_left step (flat_map f l) a
  = fold_left (fun a b => fold_left step (f b) a) l a.
Proof.
  revert a. induction l as [| b l IH]; intros a; simpl; [reflexivity |].
  rewrite fold_left_app. apply IH.
Qed.

(** A fold of steps that commute pairwise does not depend on the order. *)
Lemma fold_left_commuting_permutation {A B : Type} (step : A -> B -> A) (l l' : list B) :
  l ≡ₚ l' ->
  (forall x y a, x ∈ l -> y ∈ l -> step (step a x) y = step (step a y) x) ->
  forall a, fold_left step l a = fold_left step l' a.
Proof.
  induction 1 as [| x l l' Hp IH | x y l | l l' l'' Hp1 IH1 Hp2 IH2]; intros Hc a.
  - reflexivity.
  - simpl. apply IH. intros u v b Hu Hv. apply Hc; set_solver.
  - simpl. rewrite (Hc y x a); [reflexivity | set_solver | set_solver].
  - rewrite IH1 by exact Hc. apply IH2.
    intros u v b Hu Hv. apply Hc; rewrite Hp1; assumption.
Qed.

Section Shards.
Context {S : Type} {statistics : Statistics S}.

Lemma process_split_point_local (n : nat) (samples : list ImageSample)
    (split_points : ImageSplitPointCandidates.t) (split_point_index : nat) :
  uniform_thresholds n split_points ->
  local_to (split_point_index * n) (split_point_index * n + n)
    (fun ss => process_split_point samples split_points ss split_point_index).
Proof.
  intros Hun. unfold process_split_point.
  destruct (ImageSplitPointCandidates.candidates_ split_points !! split_point_index)
    as [[feature thresholds] |] eqn:E.
  - assert (Hlen : length thresholds = n).
    { unfold uniform_thresholds in Hun. rewrite Forall_forall in Hun.
      apply (Hun (feature, thresholds)).
      eapply list_elem_of_lookup_2. exact E. }
    pose proof (compute_split_statistics_local samples (split_point_index * length thresholds)
                  feature thresholds) as Hloc.
    rewrite <- Hlen. exact Hloc.
  - apply local_to_id.
Qed.

Lemma thread_lambda_local (n : nat) (samples : list ImageSample)
    (split_points : ImageSplitPointCandidates.t) (T t : nat) :
  uniform_thresholds n split_points ->
  local_to (shard_bound t (ImageSplitPointCandidates.size split_points) T * n)
           (shard_bound (t + 1) (ImageSplitPointCandidates.size split_points) T * n)
    (thread_lambda samples split_points T t).
Proof.
  intros Hun. unfold thread_lambda. apply local_to_fold. intros idx Hidx.
  apply elem_of_seq in Hidx.
  eapply local_to_mono; [| | apply process_split_point_local; exact Hun]; nia.
Qed.

Lemma thread_lambda_commute (n : nat) (samples : list ImageSample)
    (split_points : ImageSplitPointCandidates.t) (T t1 t2 : nat) (ss : SplitStatistics S) :
  uniform_thresholds n split_points ->
  thread_lambda samples split_points T t1 (thread_lambda samples split_points T t2 ss)
  = thread_lambda samples split_points T t2 (thread_lambda samples split_points T t1 ss).
Proof.
  intros Hun. destruct (decide (t1 = t2)) as [-> | Hne]; [reflexivity |].
  eapply local_to_commute; try (apply thread_lambda_local; exact Hun).
  destruct (decide (t1 < t2)).
  - left. apply Nat.mul_le_mono_r, shard_bound_mono. lia.
  - right. apply Nat.mul_le_mono_r, shard_bound_mono. lia.
Qed.

(** The serial loop from feature [index] on is the fold of the per-feature
    step over the remaining feature indices. *)
Lemma serial_loop_as_fold (samples : list ImageSample)
    (split_points : ImageSplitPointCandidates.t)
    (rest : list (ImageFeature.t * list ImageThreshold.t)) (index : nat)
    (ss : SplitStatistics S) :
  drop index (ImageSplitPointCandidates.candidates_ split_points) = rest ->
  serial_loop samples rest index ss
  = fold_left (process_split_point samples split_points) (seq index (length rest)) ss.
Proof.
  revert index ss. induction rest as [| [feature thresholds] rest IH]; intros index ss Hdrop.
  - reflexivity.
  - simpl. unfold process_split_point at 2.
    assert (Hlook : ImageSplitPointCandidates.candidates_ split_points !! index
                    = Some (feature, thresholds)).
    { rewrite <- (Nat.add_0_r index), <- lookup_drop, Hdrop. reflexivity. }
    rewrite Hlook. apply IH.
    rewrite (drop_S _ _ _ Hlook) in Hdrop. congruence.
Qed.

(** Started in order, the threads do what the serial loop does. This holds
    for every candidate set. *)
Lemma run_threads_in_order (samples : list ImageSample)
    (split_points : ImageSplitPointCandidates.t) (T : nat) (ss : SplitStatistics S) :
  0 < T ->
  run_threads samples split_points T (seq 0 T) ss
  = serial_loop samples (ImageSplitPointCandidates.candidates_ split_points) 0 ss.
Proof.
  intros HT. rewrite (serial_loop_as_fold samples split_points _ 0 ss) by reflexivity.
  unfold run_threads, thread_lambda.
  set (size := ImageSplitPointCandidates.size split_points).
  rewrite <- (fold_left_flat_map (process_split_point samples split_points)
                (fun i => seq (shard_bound i size T)
                              (shard_bound (i + 1) size T - shard_bound i size T))).
  rewrite (consecutive_ranges (fun i => shard_bound i size T)).
  - rewrite shard_bound_zero, shard_bound_last by exact HT.
    rewrite Nat.sub_0_r. reflexivity.
  - intros i. apply shard_bound_mono. lia.
Qed.

End Shards.

Section Contract.
Context {S : Type} {statistics : Statistics S}.

Lemma shards_partition_holds (split_points : ImageSplitPointCandidates.t) (T : nat) :
  0 < T -> shards_partition split_points T.
Proof.
  intros HT. unfold shards_partition.
  rewrite (consecutive_ranges
             (fun i => shard_bound i (ImageSplitPointCandidates.size split_points) T)).
  - rewrite shard_bound_zero, shard_bound_last by exact HT.
    rewrite Nat.sub_0_r. reflexivity.
  - intros i. apply shard_bound_mono. lia.
Qed.

Lemma writes_slot_inside (lo hi k : nat) (f : SplitStatistics S -> SplitStatistics S)
    (ss : SplitStatistics S) :
  local_to lo hi f -> writes_slot f ss k -> lo <= k < hi.
Proof.
  intros Hloc Hw. destruct (decide (lo <= k < hi)) as [Hin | Hout]; [exact Hin |].
  destruct (local_to_frame lo hi k f ss Hloc Hout) as [Hl Hr].
  destruct Hw as [Hw | Hw]; contradiction.
Qed.

Lemma shards_write_disjoint_slices_uniform (n : nat) (samples : list ImageSample)
    (split_points : ImageSplitPointCandidates.t) (T : nat) :
  uniform_thresholds n split_points ->
  shards_write_disjoint_slices samples split_points T.
Proof.
  intros Hun ss t1 t2 k _ _ Hne [Hw1 Hw2].
  apply (writes_slot_inside _ _ _ _ _ (thread_lambda_local n samples split_points T t1 Hun))
    in Hw1.
  apply (writes_slot_inside _ _ _ _ _ (thread_lambda_local n samples split_points T t2 Hun))
    in Hw2.
  set (size := ImageSplitPointCandidates.size split_points) in *.
  destruct (decide (t1 < t2)).
  - pose proof (shard_bound_mono (t1 + 1) t2 size T ltac:(lia)). nia.
  - pose proof (shard_bound_mono (t2 + 1) t1 size T ltac:(lia)). nia.
Qed.

(** C3, for candidate sets whose features all carry the same number of
    thresholds (those [sample_split_points] builds): for every sample list
    and every [num_of_threads >= 1] the parallel accumulation returns the
    statistics of the serial one, the shards [floor(t*F/T), floor((t+1)*F/T))
    partition the feature list, no slot is written by two threads, and the
    result is the same in whatever order the threads run. *)
Theorem parallel_equals_serial_on_uniform_candidates
    (hardware_concurrency n : nat) (samples : list ImageSample)
    (split_points : ImageSplitPointCandidates.t) (num_of_threads : Z) :
  (1 <= num_of_threads)%Z ->
  uniform_thresholds n split_points ->
  parallel_contract hardware_concurrency samples split_points num_of_threads
  /\ forall schedule, schedule ≡ₚ seq 0 (Z.to_nat num_of_threads) ->
       compute_split_statistics_parallel_scheduled hardware_concurrency samples
         split_points num_of_threads schedule
       = compute_split_statistics samples split_points.
Proof.
  intros HT Hun.
  assert (Hpos : 0 < Z.to_nat num_of_threads) by lia.
  assert (Hif : (num_of_threads <=? 0)%Z = false) by (apply Z.leb_gt; lia).
  assert (Hsched : forall schedule, schedule ≡ₚ seq 0 (Z.to_nat num_of_threads) ->
    compute_split_statistics_parallel_scheduled hardware_concurrency samples
      split_points num_of_threads schedule
    = compute_split_statistics samples split_points).
  { intros schedule Hperm.
    unfold compute_split_statistics_parallel_scheduled, compute_split_statistics.
    rewrite Hif. rewrite <- run_threads_in_order with (T := Z.to_nat num_of_threads)
      by exact Hpos.
    unfold run_threads. apply fold_left_commuting_permutation; [exact Hperm |].
    intros x y a _ _. apply (thread_lambda_commute n). exact Hun. }
  split; [| exact Hsched].
  split; [| split].
  - unfold compute_split_statistics_parallel. rewrite Hif. apply Hsched. reflexivity.
  - apply shards_partition_holds. exact Hpos.
  - apply (shards_write_disjoint_slices_uniform n). exact Hun.
Qed.

End Contract.

(** With two threads on [ragged_candidates], thread 0 owns the first
    feature and writes the slots 0, 1 and 2, thread 1 owns the second and
    writes at offset [1 * 1]: slot 1 is written by both. *)
Lemma parallel_contract_fails_on_ragged_candidates :
  ~ parallel_contract (statistics := call_log_statistics) 1 [dot_sample] ragged_candidates 2.
Proof.
  intros (_ & _ & Hdisj).
  apply (Hdisj (make_split_statistics (statistics := call_log_statistics) 4) 0 1 1);
    [simpl; lia | simpl; lia | lia |].
  split; left; intros Heq;
    apply (f_equal (fun o => length <$> o)) in Heq; vm_compute in Heq; discriminate.
Qed.

Lemma parallel_equals_serial_witness :
  (1 <= 3)%Z
  /\ uniform_thresholds 2 binary_candidates
  /\ parallel_contract (statistics := histogram_statistics 1) 1 [dot_sample]
       binary_candidates 3.
Proof.
  assert (HT : (1 <= 3)%Z) by lia.
  assert (Hun : uniform_thresholds 2 binary_candidates) by (repeat constructor).
  split; [exact HT |]. split; [exact Hun |].
  exact (proj1 (parallel_equals_serial_on_uniform_candidates
                  (statistics := histogram_statistics 1) 1 2 [dot_sample]
                  binary_candidates 3 HT Hun)).
Defined.

(** ** Candidate sets and the flattened index *)

Lemma scan_thresholds_past (feature : ImageFeature.t) (thresholds : list ImageThreshold.t)
    (i index : nat) :
  i + length thresholds <= index ->
  ImageSplitPointCandidates.scan_thresholds feature thresholds i index
  = inr (i + length thresholds).
Proof.
  revert i. induction thresholds as [| th rest IH]; intros i Hle; simpl in *.
  - f_equal. lia.
  - destruct (Nat.eqb_spec i index) as [-> | Hne]; [lia |].
    rewrite IH by lia. f_equal. lia.
Qed.

Lemma scan_thresholds_hit (feature : ImageFeature.t) (thresholds : list ImageThreshold.t)
    (i j : nat) (th : ImageThreshold.t) :
  thresholds !! j = Some th ->
  ImageSplitPointCandidates.scan_thresholds feature thresholds i (i + j)
  = inl (ImageSplitPoint.make feature th).
Proof.
  revert i j. induction thresholds as [| th' rest IH]; intros i j Hj; [discriminate |].
  destruct j as [| j]; simpl in *.
  - rewrite Nat.add_0_r, Nat.eqb_refl. congruence.
  - destruct (Nat.eqb_spec i (i + Datatypes.S j)) as [Heq | _]; [lia |].
    replace (i + Datatypes.S j) with (Datatypes.S i + j) by lia. apply IH, Hj.
Qed.

(** [get_split_point]'s loops find candidate [j] of feature [i] at the sum
    of the lengths before feature [i], plus [j]. *)
Lemma scan_candidates_flattened (cands : list (ImageFeature.t * list ImageThreshold.t))
    (start i j : nat) (feature : ImageFeature.t) (thresholds : list ImageThreshold.t)
    (th : ImageThreshold.t) :
  cands !! i = Some (feature, thresholds) ->
  thresholds !! j = Some th ->
  ImageSplitPointCandidates.scan_candidates cands start (start + flattened_offset cands i + j)
  = Returns (ImageSplitPoint.make feature th).
Proof.
  revert start i. induction cands as [| [f ths] rest IH]; intros start i Hi Hj; [discriminate |].
  destruct i as [| i]; simpl in *.
  - inversion Hi; subst. unfold flattened_offset. simpl.
    rewrite Nat.add_0_r, (scan_thresholds_hit _ _ _ _ _ Hj). reflexivity.
  - unfold flattened_offset. simpl.
    rewrite scan_thresholds_past by lia.
    fold (flattened_offset rest i).
    replace (start + (length ths + flattened_offset rest i) + j)
      with ((start + length ths) + flattened_offset rest i + j) by lia.
    apply IH; assumption.
Qed.


Lemma flattened_offset_uniform (n : nat) (cands : list (ImageFeature.t * list ImageThreshold.t))
    (i : nat) :
  Forall (fun e => length (snd e) = n) cands -> i <= length cands ->
  flattened_offset cands i = i * n.
Proof.
  unfold flattened_offset. revert i. induction cands as [| e rest IH]; intros i Hall Hi.
  - simpl in Hi. assert (i = 0) by lia. subst. reflexivity.
  - destruct i as [| i]; [reflexivity |]. inversion Hall; subst. simpl in *.
    rewrite IH by (assumption || lia). reflexivity.
Qed.

Section SamplingShape.
Context {L : ScalarLimits} {G : Type} {engine : RandomEngine G}.

Lemma draw_thresholds_length (n : nat) (low high : scalar_type) (g : G) :
  length (fst (draw_thresholds n low high g)) = n.
Proof.
  revert g. induction n as [| n IH]; intros g; simpl; [reflexivity |].
  destruct (uniform_real_distribution low high g) as [threshold g1].
  specialize (IH g1). destruct (draw_thresholds n low high g1) as [rest g2].
  simpl in *. lia.
Qed.

Lemma sample_feature_shape (parameters_ : ImageWeakLearnerParameters)
    (samples : list ImageSample) (offsets_x offsets_y : list Z) (k : nat)
    (st : sampling_state) :
  candidates_shape (thresholds_per_feature parameters_) k (split_points st) ->
  candidates_shape (thresholds_per_feature parameters_) (Datatypes.S k)
    (split_points (sample_feature parameters_ samples offsets_x offsets_y st)).
Proof.
  intros (Hun & Hsize & Htotal). unfold sample_feature, thresholds_per_feature in *.
  destruct (draw_offset offsets_x (rnd_engine st)) as [x1 g1].
  destruct (draw_offset offsets_y g1) as [y1 g2].
  destruct (draw_offset offsets_x g2) as [x2 g3].
  destruct (draw_offset offsets_y g3) as [y2 g4].
  destruct (binary_images parameters_).
  - simpl. unfold candidates_shape, uniform_thresholds, ImageSplitPointCandidates.size,
      ImageSplitPointCandidates.total_size in *. simpl.
    rewrite Forall_app, length_app. simpl. repeat split; try lia; try assumption.
    repeat constructor.
  - match goal with |- context [draw_thresholds ?n ?lo ?hi ?g] =>
      pose proof (draw_thresholds_length n lo hi g) as Hlen;
      destruct (draw_thresholds n lo hi g) as [thresholds g5] end.
    simpl in *. unfold candidates_shape, uniform_thresholds, ImageSplitPointCandidates.size,
      ImageSplitPointCandidates.total_size in *. simpl.
    rewrite Forall_app, length_app. simpl. repeat split; try lia; try assumption.
    repeat constructor. simpl. exact Hlen.
Qed.

Lemma sample_split_points_shape (parameters_ : ImageWeakLearnerParameters)
    (samples : list ImageSample) (g : G) :
  candidates_shape (thresholds_per_feature parameters_)
    (Z.to_nat (num_of_features parameters_))
    (fst (sample_split_points parameters_ samples g)).
Proof.
  unfold sample_split_points. simpl.
  induction (Z.to_nat (num_of_features parameters_)) as [| k IH].
  - simpl. unfold candidates_shape, uniform_thresholds. simpl. repeat split. constructor.
  - simpl. apply sample_feature_shape. exact IH.
Qed.

(** C9. In the candidate set [sample_split_points] returns every feature
    carries the same number of thresholds, 2 for binary images and
    [num_of_thresholds] otherwise; [total_size()] is [num_of_features] times
    that number; and for every feature the offset [index * thresholds.size()]
    used by [compute_split_statistics] is the sum of the lengths of the
    earlier threshold lists, the index at which [get_split_point] finds
    that feature's candidates. *)
Theorem sample_split_points_indexing (ndebug : bool)
    (parameters_ : ImageWeakLearnerParameters) (samples : list ImageSample) (g : G) :
  (0 <= num_of_features parameters_)%Z ->
  (0 <= num_of_thresholds parameters_)%Z ->
  let candidates := fst (sample_split_points parameters_ samples g) in
  let count := if binary_images parameters_ then 2
               else Z.to_nat (num_of_thresholds parameters_) in
  uniform_thresholds count candidates
  /\ ImageSplitPointCandidates.size candidates = Z.to_nat (num_of_features parameters_)
  /\ ImageSplitPointCandidates.total_size candidates
     = Z.to_nat (num_of_features parameters_) * count
  /\ forall i feature thresholds,
       ImageSplitPointCandidates.candidates_ candidates !! i = Some (feature, thresholds) ->
       length thresholds = count
       /\ i * length thresholds
          = flattened_offset (ImageSplitPointCandidates.candidates_ candidates) i
       /\ forall j th, thresholds !! j = Some th ->
            ImageSplitPointCandidates.get_split_point ndebug candidates
              (i * length thresholds + j)
            = Returns (ImageSplitPoint.make feature th).
Proof.
  intros _ _ candidates count.
  destruct (sample_split_points_shape parameters_ samples g) as (Hun & Hsize & Htotal).
  fold candidates in Hun, Hsize, Htotal.
  change (thresholds_per_feature parameters_) with count in Hun, Htotal.
  split; [exact Hun |]. split; [exact Hsize |]. split; [exact Htotal |].
  intros i feature thresholds Hi.
  assert (Hlen : length thresholds = count).
  { unfold uniform_thresholds in Hun. rewrite Forall_forall in Hun.
    apply (Hun (feature, thresholds)). eapply list_elem_of_lookup_2. exact Hi. }
  assert (Hilt : i < length (ImageSplitPointCandidates.candidates_ candidates)).
  { eapply lookup_lt_Some. exact Hi. }
  assert (Hoff : flattened_offset (ImageSplitPointCandidates.candidates_ candidates) i
                 = i * count).
  { apply flattened_offset_uniform; [exact Hun | lia]. }
  split; [exact Hlen |]. split; [rewrite Hlen, Hoff; reflexivity |].
  intros j th Hj.
  assert (Hjlt : j < count) by (rewrite <- Hlen; eapply lookup_lt_Some; exact Hj).
  unfold ImageSplitPointCandidates.get_split_point.
  assert (Hin : (i * length thresholds + j <? ImageSplitPointCandidates.total_size candidates)
                = true).
  { apply Nat.ltb_lt. rewrite Htotal, Hlen, <- Hsize.
    unfold ImageSplitPointCandidates.size. nia. }
  unfold assert. rewrite Hin, orb_true_r. simpl.
  rewrite Hlen, <- Hoff.
  apply (scan_candidates_flattened _ 0 i j feature thresholds th Hi Hj).
Qed.

End SamplingShape.

(** ** Bagging batches *)

Lemma round_nonneg (q : Q) : (0 <= q)%Q -> (0 <= round q)%Z.
Proof.
  intros Hq. unfold round.
  assert (Hb : Qle_bool 0 q = true) by (apply Qle_bool_iff; exact Hq).
  rewrite Hb. change 0%Z with (Qfloor (inject_Z 0)). apply Qfloor_resp_le.
  change (inject_Z 0) with 0%Q.
  apply Qle_trans with q; [exact Hq |].
  rewrite <- (Qplus_0_r q) at 1. apply Qplus_le_r. discriminate.
Qed.

Lemma pow2_pos (e : Z) : (0 < pow2 e)%Q.
Proof.
  unfold pow2. destruct (0 <=? e)%Z eqn:E.
  - apply Z.leb_le in E. change 0%Q with (inject_Z 0). rewrite <- Zlt_Qlt.
    apply Z.pow_pos_nonneg; lia.
  - reflexivity.
Qed.

Lemma round_half_even_nonneg (q : Q) : (0 <= q)%Q -> (0 <= round_half_even q)%Z.
Proof.
  intros Hq. unfold round_half_even.
  assert (Hf : (0 <= Qfloor q)%Z).
  { change 0%Z with (Qfloor (inject_Z 0)). apply Qfloor_resp_le. exact Hq. }
  destruct (q - inject_Z (Qfloor q) ?= 1 # 2)%Q; [destruct (Z.even (Qfloor q)) | |]; lia.
Qed.

(** Rounding to [double] keeps the sign. *)
Lemma round_to_binary64_nonneg (q : Q) : (0 <= q)%Q -> (0 <= round_to_binary64 q)%Q.
Proof.
  intros Hq. unfold round_to_binary64.
  destruct (Qeq_bool q 0); [apply Qle_refl |].
  assert (Hb : Qle_bool 0 q = true) by (apply Qle_bool_iff; exact Hq).
  rewrite Hb, Qred_correct.
  apply Qmult_le_0_compat; [| apply Qlt_le_weak, pow2_pos].
  change 0%Q with (inject_Z 0). rewrite <- Zle_Qle.
  apply round_half_even_nonneg. apply Qle_shift_div_l; [apply pow2_pos |].
  rewrite Qmult_0_l. apply Qabs_nonneg.
Qed.

Lemma double_product_nonneg (a b : Q) : (0 <= a)%Q -> (0 <= b)%Q -> (0 <= double_product a b)%Q.
Proof.
  intros Ha Hb. apply round_to_binary64_nonneg. apply Qmult_le_0_compat; assumption.
Qed.

Lemma double_of_integer_nonneg (z : Z) : (0 <= z)%Z -> (0 <= double_of_integer z)%Q.
Proof.
  intros Hz. apply round_to_binary64_nonneg. change 0%Q with (inject_Z 0).
  rewrite <- Zle_Qle. exact Hz.
Qed.

(** The slices between the values of a monotone bound that starts at 0 chain
    up to a prefix of the list. *)
Lemma consecutive_slices {A : Type} (l : list A) (b : nat -> nat) (B : nat) :
  b 0 = 0 -> (forall i, b i <= b (i + 1)) ->
  concat (map (fun i => take (b (i + 1) - b i) (drop (b i) l)) (seq 0 B)) = take (b B) l.
Proof.
  intros H0 Hmono. induction B as [| B IH].
  - simpl. rewrite H0. reflexivity.
  - rewrite seq_S, map_app, concat_app, IH. simpl. rewrite app_nil_r.
    rewrite take_take_drop. f_equal. specialize (Hmono B).
    replace (B + 1) with (Datatypes.S B) in * by lia. lia.
Qed.

Lemma batch_start_index_mono (i j B M : nat) :
  i <= j ->
  ImageSampleProvider.compute_batch_start_index i B M
  <= ImageSampleProvider.compute_batch_start_index j B M.
Proof.
  intros Hij. unfold ImageSampleProvider.compute_batch_start_index.
  apply Nat.Div0.div_le_mono. nia.
Qed.

Lemma batch_start_index_last (B M : nat) :
  0 < B -> ImageSampleProvider.compute_batch_start_index B B M = M.
Proof.
  intros HB. unfold ImageSampleProvider.compute_batch_start_index.
  rewrite Nat.mul_comm. apply Nat.div_mul. lia.
Qed.

Section Bagging.
Context {G : Type} {engine : RandomEngine G}.

Lemma draw_image_indices_spec (count N : nat) (g : G) :
  draws_within_bounds G -> 1 <= N ->
  length (fst (ImageSampleProvider.draw_image_indices count N g)) = count
  /\ Forall (fun i => i < N) (fst (ImageSampleProvider.draw_image_indices count N g)).
Proof.
  intros [Hint _] HN. revert g. induction count as [| count IH]; intros g; simpl.
  - split; [reflexivity | constructor].
  - pose proof (Hint 0%Z (Z.of_nat N - 1)%Z g ltac:(lia)) as Hdraw.
    destruct (uniform_int_distribution 0 (Z.of_nat N - 1) g) as [image_index g1].
    destruct (IH g1) as [Hlen Hall].
    destruct (ImageSampleProvider.draw_image_indices count N g1) as [rest g2].
    simpl in *. split; [lia |]. constructor; [lia | exact Hall].
Qed.

(** The indices are the successive draws of the engine: the [k]-th comes
    from the engine that [k] draws have left. *)
Lemma draw_image_indices_draws (count N : nat) (g : G) :
  (forall k, k < count ->
     fst (ImageSampleProvider.draw_image_indices count N g) !! k
     = Some (Z.to_nat (fst (uniform_int_distribution 0 (Z.of_nat N - 1)
                              (engine_after_draws N k g)))))
  /\ snd (ImageSampleProvider.draw_image_indices count N g) = engine_after_draws N count g.
Proof.
  revert g. induction count as [| count IH]; intros g.
  - split; [intros k Hk; lia | reflexivity].
  - cbn [ImageSampleProvider.draw_image_indices].
    destruct (uniform_int_distribution 0 (Z.of_nat N - 1) g) as [image_index g1] eqn:E.
    destruct (IH g1) as [Hlook Hend].
    destruct (ImageSampleProvider.draw_image_indices count N g1) as [rest g2].
    cbn [fst snd] in *.
    assert (Hiter : forall k, engine_after_draws N k g1
                              = engine_after_draws N (Datatypes.S k) g).
    { intros k. unfold engine_after_draws. rewrite Nat.iter_succ_r, E. reflexivity. }
    split.
    + intros [| k] Hk.
      * unfold engine_after_draws. simpl. rewrite E. reflexivity.
      * simpl. rewrite Hlook by lia. rewrite Hiter. reflexivity.
    + rewrite Hend. apply Hiter.
Qed.

(** C7. For [N >= 1] images, a bagging fraction [b] in [[0, 1]] and
    [B >= 1] batches, [compute_sample_bag_batches] draws
    [M = round(b*N)] indices, the product being the [double] the source
    computes: the [k]-th index is what the engine's uniform distribution
    over [0, N-1] returns after [k] earlier draws, it is below [N], and the
    engine is returned as the [M] draws leave it. The function returns
    exactly [B] batches whose concatenation is the nondecreasing sort of
    the drawn indices, and batch [i] is the slice
    [floor(i*M/B), floor((i+1)*M/B)) of the sorted list, of that many
    elements. *)
Theorem compute_sample_bag_batches_slices (p : ImageSampleProvider.t)
    (num_of_batches : nat) (g : G) :
  draws_within_bounds G ->
  1 <= ImageSampleProvider.get_num_of_images p ->
  1 <= num_of_batches ->
  (0 <= bagging_fraction (ImageSampleProvider.parameters_ p))%Q ->
  (bagging_fraction (ImageSampleProvider.parameters_ p) <= 1)%Q ->
  let N := ImageSampleProvider.get_num_of_images p in
  let M := round (double_product (bagging_fraction (ImageSampleProvider.parameters_ p))
                    (double_of_integer (Z.of_nat N))) in
  let drawn := fst (ImageSampleProvider.drawn_bag p g) in
  let sorted := ImageSampleProvider.sorted_bag p g in
  let batches := fst (ImageSampleProvider.compute_sample_bag_batches p num_of_batches g) in
  (0 <= M)%Z
  /\ length drawn = Z.to_nat M
  /\ (forall k, k < Z.to_nat M ->
        drawn !! k
        = Some (Z.to_nat (fst (uniform_int_distribution 0 (Z.of_nat N - 1)
                                 (engine_after_draws N k g)))))
  /\ snd (ImageSampleProvider.compute_sample_bag_batches p num_of_batches g)
     = engine_after_draws N (Z.to_nat M) g
  /\ Forall (fun i => i < N) drawn
  /\ Sorted Nat.le sorted
  /\ sorted ≡ₚ drawn
  /\ length batches = num_of_batches
  /\ concat batches = sorted
  /\ forall i, i < num_of_batches ->
       let index_start := i * Z.to_nat M / num_of_batches in
       let index_end := (i + 1) * Z.to_nat M / num_of_batches in
       batches !! i = Some (take (index_end - index_start) (drop index_start sorted))
       /\ length (take (index_end - index_start) (drop index_start sorted))
          = index_end - index_start.
Proof.
  intros Hdraws HN HB Hb _ N M drawn sorted batches.
  assert (HM : (0 <= M)%Z).
  { apply round_nonneg. apply double_product_nonneg; [exact Hb |].
    apply double_of_integer_nonneg. lia. }
  destruct (draw_image_indices_spec (Z.to_nat M) N g Hdraws HN) as [Hlen Hall].
  destruct (draw_image_indices_draws (Z.to_nat M) N g) as [Hlook Hend].
  assert (Hperm : sorted ≡ₚ drawn) by apply merge_sort_Permutation.
  assert (Hslen : length sorted = Z.to_nat M).
  { rewrite Hperm. exact Hlen. }
  split; [exact HM |]. split; [exact Hlen |]. split; [exact Hlook |].
  split; [exact Hend |]. split; [exact Hall |].
  split; [apply Sorted_merge_sort; intros x y; unfold Nat.le; lia |].
  split; [exact Hperm |].
  split; [unfold batches, ImageSampleProvider.compute_sample_bag_batches; simpl;
          rewrite length_map, length_seq; reflexivity |].
  split.
  - unfold batches, ImageSampleProvider.compute_sample_bag_batches. simpl.
    fold N. fold M. fold sorted.
    rewrite (consecutive_slices sorted
      (fun i => ImageSampleProvider.compute_batch_start_index i num_of_batches (Z.to_nat M))).
    + rewrite batch_start_index_last by lia. apply firstn_all2. lia.
    + unfold ImageSampleProvider.compute_batch_start_index. simpl.
      apply Nat.Div0.div_0_l.
    + intros i. apply batch_start_index_mono. lia.
  - intros i Hi index_start index_end. split.
    + unfold batches, ImageSampleProvider.compute_sample_bag_batches. simpl.
      rewrite list_lookup_fmap, lookup_seq_lt by exact Hi. reflexivity.
    + rewrite length_take, length_drop, Hslen.
      assert (index_end <= Z.to_nat M).
      { unfold index_end.
        rewrite <- (batch_start_index_last num_of_batches (Z.to_nat M)) at 2 by lia.
        apply batch_start_index_mono. lia. }
      lia.
Qed.

End Bagging.

(** ** Subsampling an image *)

Lemma swap_with_back_length (v : list ImageSample) (index : nat) :
  length (ImageSampleProvider.swap_with_back v index) = length v.
Proof.
  unfold ImageSampleProvider.swap_with_back.
  destruct (v !! index), (last v); try reflexivity.
  rewrite !length_insert. reflexivity.
Qed.

Lemma swap_with_back_subset (v : list ImageSample) (index : nat) (s : ImageSample) :
  s ∈ ImageSampleProvider.swap_with_back v index -> s ∈ v.
Proof.
  unfold ImageSampleProvider.swap_with_back.
  destruct (v !! index) as [a |] eqn:Ea; [| done].
  destruct (last v) as [b |] eqn:Eb; [| done].
  intros Hs. apply list_elem_of_lookup in Hs as [k Hk].
  destruct (decide (k = length v - 1)) as [-> | Hne1].
  - rewrite list_lookup_insert_eq in Hk.
    + inversion Hk; subst. eapply list_elem_of_lookup_2. exact Ea.
    + rewrite length_insert. apply lookup_lt_Some in Ea. lia.
  - rewrite list_lookup_insert_ne in Hk by congruence.
    destruct (decide (k = index)) as [-> | Hne2].
    + rewrite list_lookup_insert_eq in Hk by (eapply lookup_lt_Some; exact Ea).
      inversion Hk; subst. rewrite last_lookup in Eb.
      eapply list_elem_of_lookup_2. exact Eb.
    + rewrite list_lookup_insert_ne in Hk by congruence.
      eapply list_elem_of_lookup_2. exact Hk.
Qed.

Lemma last_is_Some_nonempty {A : Type} (l : list A) : l <> [] -> is_Some (last l).
Proof.
  intros Hne. destruct l as [| a l]; [contradiction |].
  rewrite last_lookup. apply lookup_lt_is_Some. simpl. lia.
Qed.

Section Subsampling.
Context {G : Type} {engine : RandomEngine G}.

Lemma subsample_spec (count i : nat) (v pushed : list ImageSample) (g : G) :
  count = 0 \/ v <> [] ->
  let result := fst (ImageSampleProvider.subsample count i v pushed g) in
  length result = length pushed + count
  /\ forall s, s ∈ result -> s ∈ pushed \/ s ∈ v.
Proof.
  revert i v pushed g. induction count as [| count IH]; intros i v pushed g Hv; simpl.
  - split; [lia | auto].
  - destruct Hv as [Hv | Hv]; [discriminate |].
    destruct (uniform_int_distribution 0 (Z.of_nat (length v) - 1 - Z.of_nat i) g)
      as [index g'].
    set (swapped := ImageSampleProvider.swap_with_back v (Z.to_nat index)).
    assert (Hsw : swapped <> []).
    { intros Heq. apply (f_equal length) in Heq. unfold swapped in Heq.
      rewrite swap_with_back_length in Heq. destruct v; [contradiction | discriminate]. }
    destruct (last_is_Some_nonempty swapped Hsw) as [b Hb].
    specialize (IH (Datatypes.S i) swapped (pushed ++ option_list (last swapped)) g'
                  (or_intror Hsw)).
    simpl in IH. destruct IH as [Hlen Hsub]. rewrite Hb in *. simpl in *.
    rewrite length_app in Hlen. simpl in Hlen. split; [lia |].
    intros s Hs. destruct (Hsub s Hs) as [Hin | Hin].
    + apply elem_of_app in Hin as [Hin | Hin]; [left; exact Hin |].
      right. apply list_elem_of_singleton in Hin. subst s.
      apply (swap_with_back_subset v (Z.to_nat index)).
      rewrite last_lookup in Hb. eapply list_elem_of_lookup_2. exact Hb.
    + right. apply (swap_with_back_subset v (Z.to_nat index)). exact Hin.
Qed.

(** For a fraction below one, [load_samples_from_image] appends exactly
    [min(round(f*W*H), number of non-background pixels)] samples, each of
    them a non-background pixel of the image; the two products are those
    of [double]. *)
Lemma samples_from_image_count (parameters : ImageSampleParameters) (image : Image) (g : G) :
  (samples_per_image_fraction parameters < 1)%Q ->
  let non_background_samples :=
    ImageSampleProvider.non_background image (background_label parameters) in
  let result := fst (ImageSampleProvider.samples_from_image parameters image g) in
  length result
  = Nat.min (Z.to_nat (round (double_product
                                (double_product (samples_per_image_fraction parameters)
                                   (double_of_integer (Z.of_nat (width image))))
                                (double_of_integer (Z.of_nat (height image))))))
            (length non_background_samples)
  /\ forall s, s ∈ result -> s ∈ non_background_samples.
Proof.
  intros Hf nb result. unfold result, ImageSampleProvider.samples_from_image.
  apply scalar_ltb_lt in Hf. rewrite Hf. fold nb.
  match goal with |- context [ImageSampleProvider.subsample ?c 0 nb [] g] =>
    destruct (subsample_spec c 0 nb [] g) as [Hlen Hsub] end.
  { destruct nb; [left; apply Nat.min_0_r | right; discriminate]. }
  split; [exact Hlen |].
  intros s Hs. destruct (Hsub s Hs) as [Hin | Hin]; [inversion Hin | exact Hin].
Qed.

End Subsampling.

(** C2. Three non-background pixels, a fraction of 0.99 (so that
    [round(f*W*H) = 3]) and an engine whose three draws are all 0: the
    samples appended are the pixels (0,0), (0,2) and (0,0) again. The swap
    always goes to [back()], and nothing is removed from the vector, so a
    sample that was taken returns into the range of later draws. *)
Theorem subsample_repeats_a_pixel :
  let result := fst (ImageSampleProvider.samples_from_image (engine := tape_engine)
                       strip_parameters strip_image [0%Z; 0%Z; 0%Z]) in
  (samples_per_image_fraction strip_parameters < 1)%Q
  /\ length (ImageSampleProvider.non_background strip_image
               (background_label strip_parameters)) = 3
  /\ round (samples_per_image_fraction strip_parameters
            * inject_Z (Z.of_nat (width strip_image))
            * inject_Z (Z.of_nat (height strip_image)))%Q = 3%Z
  /\ map coordinates result = [(0, 0); (0, 2); (0, 0)]%Z
  /\ ~ NoDup (map coordinates result).
Proof.
  split; [reflexivity |]. split; [reflexivity |]. split; [reflexivity |].
  split; [vm_compute; reflexivity |].
  intros Hnd. vm_compute in Hnd.
  inversion Hnd as [| ? ? Hnotin _]; subst. apply Hnotin. set_solver.
Qed.

(** ** Loading a batch *)

Section LoadBatch.
Context {G : Type} {engine : RandomEngine G}.

Import ImageSampleProvider.

Lemma ensure_image_is_loaded_from_spec (ndebug : bool) (index : nat)
    (old_image_map : gmap nat Image) (p : ImageSampleProvider.t) :
  index < length (images p) ->
  cache_within old_image_map p ->
  exists p' image,
    ensure_image_is_loaded_from ndebug index old_image_map p = Returns p'
    /\ images p' = images p /\ parameters_ p' = parameters_ p /\ samples_ p' = samples_ p
    /\ resolve old_image_map (images p) index = Some image
    /\ image_map_ p' = <[index := image]> (image_map_ p)
    /\ provider_calls p'
       = provider_calls p
         ++ (if decide (old_image_map !! index = None /\ image_map_ p !! index = None)
             then [index] else []).
Proof.
  intros Hlt Hcache. unfold ensure_image_is_loaded_from.
  destruct (image_map_ p !! index) as [image |] eqn:Emap.
  - exists p, image. repeat split; try reflexivity.
    + apply Hcache. exact Emap.
    + symmetry. apply insert_id. exact Emap.
    + case_decide as Hd; [destruct Hd; discriminate |]. rewrite app_nil_r. reflexivity.
  - destruct (old_image_map !! index) as [image |] eqn:Eold.
    + eexists _, image. repeat split; try reflexivity.
      * unfold resolve. rewrite Eold. reflexivity.
      * case_decide as Hd; [destruct Hd; discriminate |].
        simpl. rewrite app_nil_r. reflexivity.
    + destruct (lookup_lt_is_Some_2 (images p) index Hlt) as [image Himg].
      unfold get_image, MemoryImageProvider.get_image, assert.
      assert (Hb : (index <? length (images p)) = true) by (apply Nat.ltb_lt; exact Hlt).
      rewrite Hb, orb_true_r. simpl. rewrite Himg. simpl.
      eexists _, image. repeat split; try reflexivity.
      unfold resolve. rewrite Eold. exact Himg.
Qed.

Lemma load_samples_from_image_cached (ndebug : bool) (index : nat)
    (p : ImageSampleProvider.t) (image : Image) (g : G) :
  image_map_ p !! index = Some image ->
  load_samples_from_image ndebug index p g
  = Returns (with_samples p (samples_ p ++ fst (samples_from_image (parameters_ p) image g)),
             snd (samples_from_image (parameters_ p) image g)).
Proof.
  intros Hmap. unfold load_samples_from_image, ensure_image_is_loaded.
  rewrite Hmap. simpl. rewrite Hmap.
  destruct (samples_from_image (parameters_ p) image g). reflexivity.
Qed.

Lemma load_sample_batch_loop_spec (ndebug : bool) (batch : list nat)
    (old_image_map : gmap nat Image) (p : ImageSampleProvider.t) (g : G) :
  Forall (fun i => i < length (images p)) batch ->
  cache_within old_image_map p ->
  exists p' loaded,
    load_sample_batch_loop ndebug batch old_image_map p g
    = Returns (p', snd (batch_samples (parameters_ p) (resolve old_image_map (images p))
                          batch g))
    /\ samples_ p'
       = samples_ p
         ++ fst (batch_samples (parameters_ p) (resolve old_image_map (images p)) batch g)
    /\ provider_calls p' = provider_calls p ++ loaded
    /\ NoDup loaded
    /\ (forall i, i ∈ loaded
                  <-> i ∈ batch /\ old_image_map !! i = None /\ image_map_ p !! i = None)
    /\ (forall i, image_map_ p' !! i
                  = if decide (i ∈ batch) then resolve old_image_map (images p) i
                    else image_map_ p !! i).
Proof.
  revert p g. induction batch as [| index rest IH]; intros p g Hall Hcache.
  - exists p, []. simpl. rewrite !app_nil_r.
    split; [reflexivity |]. split; [reflexivity |]. split; [reflexivity |].
    split; [constructor |]. split.
    + intros i. rewrite elem_of_nil. tauto.
    + intros i. reflexivity.
  - inversion Hall as [| ? ? Hlt Hrest]; subst.
    destruct (ensure_image_is_loaded_from_spec ndebug index old_image_map p Hlt Hcache)
      as (p1 & image & Hens & Himgs & Hpar & Hsam & Hres & Hmap & Hcalls).
    assert (Hmap1 : image_map_ p1 !! index = Some image).
    { rewrite Hmap. apply lookup_insert_eq. }
    cbn [load_sample_batch_loop]. rewrite Hens. simpl.
    rewrite (load_samples_from_image_cached ndebug index p1 image g Hmap1). simpl.
    rewrite Hpar. cbn [batch_samples]. rewrite Hres.
    destruct (samples_from_image (parameters_ p) image g) as [s g1] eqn:Es. cbn [fst snd].
    set (p2 := with_samples p1 (samples_ p1 ++ s)).
    assert (Hcache2 : cache_within old_image_map p2).
    { intros i img Hi. unfold p2 in Hi. simpl in Hi. simpl. rewrite Himgs.
      rewrite Hmap in Hi. destruct (decide (index = i)) as [-> | Hne].
      - rewrite lookup_insert_eq in Hi. congruence.
      - rewrite lookup_insert_ne in Hi by exact Hne. apply Hcache. exact Hi. }
    assert (Hall2 : Forall (fun i => i < length (images p2)) rest).
    { simpl. rewrite Himgs. exact Hrest. }
    destruct (IH p2 g1 Hall2 Hcache2)
      as (p' & loaded & Hloop & Hsamples & Hcalls' & Hnodup & Hmem & Hfinal).
    simpl in Hloop, Hsamples, Hcalls', Hmem, Hfinal.
    rewrite Himgs, Hpar in *.
    exists p', ((if decide (old_image_map !! index = None /\ image_map_ p !! index = None)
                 then [index] else []) ++ loaded).
    destruct (batch_samples (parameters_ p) (resolve old_image_map (images p)) rest g1)
      as [r g3] eqn:Er.
    cbn [fst snd] in *.
    split; [exact Hloop |].
    split; [rewrite Hsamples, Hsam, <- !app_assoc; reflexivity |].
    split; [rewrite Hcalls', Hcalls, <- app_assoc; reflexivity |].
    assert (Hother : forall i, i ∈ loaded -> i <> index).
    { intros i Hi ->. apply Hmem in Hi as (_ & _ & Hnone).
      rewrite Hmap, lookup_insert_eq in Hnone. discriminate. }
    split.
    { destruct (decide _); simpl; [| exact Hnodup].
      constructor; [| exact Hnodup]. intros Hin. exact (Hother _ Hin eq_refl). }
    split.
    { intros i. rewrite elem_of_app, Hmem, Hmap. split.
      - intros [Hin | (Hin & Hold & Hnew)].
        + destruct (decide _) as [[Ho Hn] |]; [| inversion Hin].
          apply list_elem_of_singleton in Hin. subst i. split; [left |]. done.
        + destruct (decide (index = i)) as [-> | Hne].
          * rewrite lookup_insert_eq in Hnew. discriminate.
          * rewrite lookup_insert_ne in Hnew by exact Hne.
            split; [right; exact Hin | done].
      - intros (Hin & Hold & Hnew). destruct (decide (index = i)) as [-> | Hne].
        + left. rewrite decide_True by done. left.
        + right. rewrite lookup_insert_ne by exact Hne.
          apply elem_of_cons in Hin as [-> | Hin]; [contradiction | done]. }
    intros i. rewrite Hfinal, Hmap. destruct (decide (i ∈ rest)) as [Hin | Hnin].
    + rewrite decide_True by (right; exact Hin). reflexivity.
    + destruct (decide (index = i)) as [-> | Hne].
      * rewrite lookup_insert_eq, decide_True by left. symmetry. exact Hres.
      * rewrite lookup_insert_ne by exact Hne.
        rewrite decide_False; [reflexivity |].
        intros Hin. apply elem_of_cons in Hin as [-> | Hin]; contradiction.
Qed.

End LoadBatch.

Section LoadBatchTheorem.
Context {G : Type} {engine : RandomEngine G}.

Import ImageSampleProvider.

(** Without subsampling every call appends all non-background pixels of
    its image and leaves the engine alone. *)
Lemma batch_samples_without_subsampling (parameters : ImageSampleParameters)
    (lookup : nat -> option Image) (batch : list nat) (g : G) :
  scalar_ltb (samples_per_image_fraction parameters) 1%Q = false ->
  Forall (fun i => is_Some (lookup i)) batch ->
  batch_samples parameters lookup batch g
  = (concat (map (fun i => match lookup i with
                           | Some image => non_background image (background_label parameters)
                           | None => []
                           end) batch), g).
Proof.
  intros Hf Hall. induction Hall as [| i rest [image Hi] _ IH]; [reflexivity |].
  cbn [batch_samples]. rewrite Hi. unfold samples_from_image at 1. rewrite Hf.
  rewrite IH. simpl. rewrite Hi. reflexivity.
Qed.

(** C10. For a batch of indices the provider has, [load_sample_batch]
    returns, and
    - the provider's [get_image] is called at most once per index (once for
      an index of the batch that the previous image map did not hold, never
      otherwise);
    - the sample list is the concatenation, over the elements of the batch
      in order and with repetitions, of what [load_samples_from_image]
      appends for that element, every call continuing with the engine state
      the previous call left;
    - so when an index occurs twice in the batch and no subsampling takes
      place, every non-background pixel of that image is in the sample list
      at two positions. *)
Theorem load_sample_batch_once_per_occurrence (ndebug : bool) (batch : list nat)
    (p : ImageSampleProvider.t) (g : G) :
  Forall (fun i => i < length (images p)) batch ->
  exists p' loaded,
    let lookup := resolve (image_map_ p) (images p) in
    load_sample_batch ndebug batch p g
    = Returns (p', snd (batch_samples (parameters_ p) lookup batch g))
    /\ samples_ p' = fst (batch_samples (parameters_ p) lookup batch g)
    /\ provider_calls p' = provider_calls p ++ loaded
    /\ NoDup loaded
    /\ (forall i, i ∈ loaded <-> i ∈ batch /\ image_map_ p !! i = None)
    /\ (forall before between after i image s,
          batch = before ++ i :: between ++ i :: after ->
          lookup i = Some image ->
          scalar_ltb (samples_per_image_fraction (parameters_ p)) 1%Q = false ->
          s ∈ non_background image (background_label (parameters_ p)) ->
          exists a b, a < b /\ samples_ p' !! a = Some s /\ samples_ p' !! b = Some s).
Proof.
  intros Hall. unfold load_sample_batch.
  set (p0 := with_image_map (clear_samples p) ∅).
  assert (Hcache : cache_within (image_map_ p) p0).
  { intros i image Hi. unfold p0 in Hi. simpl in Hi. rewrite lookup_empty in Hi.
    discriminate. }
  destruct (load_sample_batch_loop_spec ndebug batch (image_map_ p) p0 g Hall Hcache)
    as (p' & loaded & Hloop & Hsamples & Hcalls & Hnodup & Hmem & _).
  simpl in Hloop, Hsamples, Hcalls, Hmem.
  exists p', loaded. cbn zeta.
  split; [exact Hloop |]. split; [exact Hsamples |]. split; [exact Hcalls |].
  split; [exact Hnodup |]. split.
  - intros i. rewrite Hmem, lookup_empty. tauto.
  - intros before between after i image s Hbatch Hi Hf Hs.
    assert (Hsome : Forall (fun j => is_Some (resolve (image_map_ p) (images p) j)) batch).
    { eapply Forall_impl; [exact Hall |]. intros j Hj. unfold resolve.
      destruct (image_map_ p !! j); [eauto |]. apply lookup_lt_is_Some_2. exact Hj. }
    rewrite Hsamples, (batch_samples_without_subsampling _ _ _ _ Hf Hsome). simpl.
    rewrite Hbatch, !map_app, !concat_app. simpl. rewrite !map_app, !concat_app. simpl.
    rewrite Hi.
    set (nb := non_background image (background_label (parameters_ p))) in *.
    set (X := concat (map _ before)). set (Y := concat (map _ between)).
    set (Z := concat (map _ after)).
    apply list_elem_of_lookup in Hs as [j Hj].
    pose proof (lookup_lt_Some _ _ _ Hj) as Hjlt.
    exists (length X + j), (length X + (length nb + (length Y + j))).
    split; [lia |]. split.
    + rewrite lookup_app_r by lia.
      replace (length X + j - length X) with j by lia.
      rewrite lookup_app_l by exact Hjlt. exact Hj.
    + rewrite lookup_app_r by lia.
      replace (length X + (length nb + (length Y + j)) - length X)
        with (length nb + (length Y + j)) by lia.
      rewrite lookup_app_r by lia.
      replace (length nb + (length Y + j) - length nb) with (length Y + j) by lia.
      rewrite lookup_app_r by lia.
      replace (length Y + j - length Y) with j by lia.
      rewrite lookup_app_l by exact Hjlt. exact Hj.
Qed.

End LoadBatchTheorem.

Lemma load_sample_batch_once_per_occurrence_witness :
  Forall (fun i => i < length (ImageSampleProvider.images strip_provider)) [0; 0]
  /\ exists p',
       ImageSampleProvider.load_sample_batch (engine := tape_engine) true [0; 0]
         strip_provider [0; 1; 0; 2; 0; 0]%Z
       = Returns (p', [])
       /\ ImageSampleProvider.provider_calls p' = [0]
       /\ map coordinates (ImageSampleProvider.samples_ p')
          = [(0, 0); (0, 1); (0, 2); (0, 2); (0, 0); (0, 2)]%Z.
Proof.
  assert (Hall : Forall (fun i => i < length (ImageSampleProvider.images strip_provider))
                   [0; 0]) by (repeat constructor).
  split; [exact Hall |].
  destruct (load_sample_batch_once_per_occurrence (engine := tape_engine) true [0; 0]
              strip_provider [0; 1; 0; 2; 0; 0]%Z Hall)
    as (p' & loaded & Hret & Hsamples & Hcalls & Hnodup & Hmem & _).
  exists p'. split; [exact Hret |]. split.
  - rewrite Hcalls. simpl. apply Permutation_singleton_r.
    apply NoDup_Permutation; [exact Hnodup | apply NoDup_singleton |].
    intros i. rewrite Hmem, list_elem_of_singleton. simpl. rewrite lookup_empty.
    split.
    + intros [Hin _]. apply elem_of_cons in Hin as [-> | Hin]; [reflexivity |].
      apply list_elem_of_singleton in Hin. exact Hin.
    + intros ->. split; [left | reflexivity].
  - rewrite Hsamples. vm_compute. reflexivity.
Defined.

(** ** Applying the best splits *)

Section ApplySplits.
Context {S : Type}.
Variable training_parameters_ : LevelTrainingParameters.

Import LevelForestTrainer.

Lemma set_leaf_lookup (i k : nat) (b : bool) (tree : list (Node S)) :
  set_leaf i b tree !! k
  = if decide (i = k)
    then (fun n => {| leaf_ := b; split_point_ := split_point_ n;
                      statistics_ := statistics_ n |}) <$> tree !! k
    else tree !! k.
Proof.
  unfold set_leaf. rewrite list_lookup_alter.
  destruct (decide (i = k)) as [-> |]; reflexivity.
Qed.

Lemma set_split_point_lookup (i k : nat) (sp : ImageSplitPoint.t) (tree : list (Node S)) :
  set_split_point i sp tree !! k
  = if decide (i = k)
    then (fun n => {| leaf_ := leaf_ n; split_point_ := Some sp;
                      statistics_ := statistics_ n |}) <$> tree !! k
    else tree !! k.
Proof.
  unfold set_split_point. rewrite list_lookup_alter.
  destruct (decide (i = k)) as [-> |]; reflexivity.
Qed.

Lemma apply_best_split_point_length (tree : list (Node S))
    (entry : nat * (ImageSplitPoint.t * SplitInformation)) :
  length (apply_best_split_point training_parameters_ tree entry) = length tree.
Proof.
  unfold apply_best_split_point.
  destruct (below_minimum _ _); unfold set_leaf, set_split_point;
    rewrite !length_alter; reflexivity.
Qed.

(** The order of the writes of one round: the split point, the two
    children, the node's own flag. *)
Lemma apply_best_split_point_order (tree : list (Node S)) (i : nat)
    (sp : ImageSplitPoint.t) (info : SplitInformation) :
  apply_best_split_point training_parameters_ tree (i, (sp, info))
  = set_leaf i (below_minimum training_parameters_ info)
      (set_leaf (right_child i) true
         (set_leaf (left_child i) true (set_split_point i sp tree))).
Proof.
  unfold apply_best_split_point. cbn [fst snd].
  destruct (below_minimum training_parameters_ info); reflexivity.
Qed.

(** One round of the loop leaves every node but the entry's and its two
    children as it was. *)
Lemma apply_best_split_point_frame (tree : list (Node S))
    (entry : nat * (ImageSplitPoint.t * SplitInformation)) (k : nat) :
  k <> fst entry -> k <> left_child (fst entry) -> k <> right_child (fst entry) ->
  apply_best_split_point training_parameters_ tree entry !! k = tree !! k.
Proof.
  intros H1 H2 H3. unfold apply_best_split_point.
  destruct (below_minimum _ _);
    rewrite !set_leaf_lookup, set_split_point_lookup;
    repeat (rewrite decide_False by congruence); reflexivity.
Qed.

(** One round of the loop, at the entry's node and at its children. *)
Lemma apply_best_split_point_step (tree : list (Node S)) (i : nat)
    (sp : ImageSplitPoint.t) (info : SplitInformation) :
  right_child i < length tree ->
  let tree' := apply_best_split_point training_parameters_ tree (i, (sp, info)) in
  (split_point_ <$> tree' !! i) = Some (Some sp)
  /\ (leaf_ <$> tree' !! left_child i) = Some true
  /\ (leaf_ <$> tree' !! right_child i) = Some true
  /\ (leaf_ <$> tree' !! i) = Some (below_minimum training_parameters_ info).
Proof.
  intros Hlen tree'. unfold tree', apply_best_split_point. cbn [fst snd].
  unfold left_child, right_child in *.
  destruct (lookup_lt_is_Some_2 tree i ltac:(lia)) as [n Hn].
  destruct (lookup_lt_is_Some_2 tree (2 * i + 1) ltac:(lia)) as [nl Hnl].
  destruct (lookup_lt_is_Some_2 tree (2 * i + 2) ltac:(lia)) as [nr Hnr].
  destruct (below_minimum training_parameters_ info);
    rewrite !set_leaf_lookup, !set_split_point_lookup;
    repeat (first [ rewrite decide_True by lia | rewrite decide_False by lia ]);
    rewrite ?Hn, ?Hnl, ?Hnr; simpl; repeat split; reflexivity.
Qed.

Lemma apply_best_split_point_batch_frame
    (batch : list (nat * (ImageSplitPoint.t * SplitInformation)))
    (tree : list (Node S)) (k : nat) :
  (forall j, j ∈ map fst batch -> k <> j /\ k <> left_child j /\ k <> right_child j) ->
  apply_best_split_point_batch training_parameters_ batch tree !! k = tree !! k.
Proof.
  revert tree. induction batch as [| e rest IH]; intros tree Hk; [reflexivity |].
  unfold apply_best_split_point_batch in *. simpl.
  rewrite IH.
  - destruct (Hk (fst e)) as (H1 & H2 & H3); [simpl; left |].
    apply apply_best_split_point_frame; assumption.
  - intros j Hj. apply Hk. simpl. right. exact Hj.
Qed.

Lemma apply_best_split_point_batch_length
    (batch : list (nat * (ImageSplitPoint.t * SplitInformation))) (tree : list (Node S)) :
  length (apply_best_split_point_batch training_parameters_ batch tree) = length tree.
Proof.
  revert tree. induction batch as [| e rest IH]; intros tree; [reflexivity |].
  unfold apply_best_split_point_batch in *. simpl.
  rewrite IH. apply apply_best_split_point_length.
Qed.

Lemma below_minimum_nonneg (info : SplitInformation) :
  (0 <= minimum_num_of_samples training_parameters_)%Z ->
  below_minimum training_parameters_ info
  = scalar_ltb (information_gain info) (minimum_information_gain training_parameters_)
    || (Z.of_nat (total_num_of_samples info)
        <? minimum_num_of_samples training_parameters_)%Z.
Proof.
  intros Hmin. unfold below_minimum. rewrite int_to_size_type_nonneg by exact Hmin.
  reflexivity.
Qed.

(** C4, as the code has it. For every node of the batch of best splits
    (distinct nodes of one level whose children are in the tree), after the
    loop of [train_tree_level_part]: the chosen split point is stored in
    the node whether or not it becomes a leaf; both children are leaves;
    and the node is a leaf exactly when the gain is below
    [minimum_information_gain] or the node's number of samples is below
    [minimum_num_of_samples]. The bound on the samples is a signed [int]
    compared with an unsigned count, so the statement is for bounds that
    are not negative. *)
Theorem apply_best_split_point_batch_marks_nodes
    (batch : list (nat * (ImageSplitPoint.t * SplitInformation)))
    (tree : list (Node S)) :
  (0 <= minimum_num_of_samples training_parameters_)%Z ->
  NoDup (map fst batch) ->
  on_one_level (map fst batch) ->
  (forall i, i ∈ map fst batch -> right_child i < length tree) ->
  let tree' := apply_best_split_point_batch training_parameters_ batch tree in
  forall i sp info, (i, (sp, info)) ∈ batch ->
    (split_point_ <$> tree' !! i) = Some (Some sp)
    /\ (leaf_ <$> tree' !! left_child i) = Some true
    /\ (leaf_ <$> tree' !! right_child i) = Some true
    /\ (leaf_ <$> tree' !! i)
       = Some (scalar_ltb (information_gain info)
                 (minimum_information_gain training_parameters_)
               || (Z.of_nat (total_num_of_samples info)
                   <? minimum_num_of_samples training_parameters_)%Z).
Proof.
  intros Hmin. revert tree. induction batch as [| e rest IH];
    intros tree Hnodup Hlevel Hlen tree' i sp info Hin.
  - inversion Hin.
  - simpl in Hnodup. apply NoDup_cons in Hnodup as [Hfresh Hnodup].
    unfold tree', apply_best_split_point_batch. simpl.
    fold (apply_best_split_point_batch training_parameters_ rest
            (apply_best_split_point training_parameters_ tree e)).
    apply elem_of_cons in Hin as [Heq | Hin].
    + subst e. simpl in Hfresh.
      assert (Hi : i ∈ map fst ((i, (sp, info)) :: rest)) by (simpl; left).
      assert (Hframe : forall k, (k = i \/ k = left_child i \/ k = right_child i) ->
        forall j, j ∈ map fst rest -> k <> j /\ k <> left_child j /\ k <> right_child j).
      { intros k Hk j Hj.
        assert (Hj' : j ∈ map fst ((i, (sp, info)) :: rest)) by (simpl; right; exact Hj).
        destruct (Hlevel i j Hi Hj') as [A1 A2].
        destruct (Hlevel j i Hj' Hi) as [B1 B2].
        assert (i <> j) by (intros ->; contradiction).
        unfold left_child, right_child in *.
        destruct Hk as [-> | [-> | ->]]; repeat split; lia. }
      rewrite !apply_best_split_point_batch_frame by (apply Hframe; auto).
      rewrite <- (below_minimum_nonneg info Hmin).
      apply apply_best_split_point_step. apply Hlen. exact Hi.
    + apply IH; [exact Hnodup | | | exact Hin].
      * intros a b Ha Hb. apply Hlevel; simpl; right; assumption.
      * intros a Ha. rewrite apply_best_split_point_length. apply Hlen. simpl. right. exact Ha.
Qed.

End ApplySplits.

(** A root with 5 samples and a bound of 100: the root is marked a leaf, and
    it holds the split point all the same. *)
Lemma leaf_keeps_split_point :
  let tree' := LevelForestTrainer.apply_best_split_point_batch strict_parameters
                 [(0, (steep_split_point, poor_split))] bare_tree in
  LevelForestTrainer.below_minimum strict_parameters poor_split = true
  /\ (leaf_ <$> tree' !! 0) = Some true
  /\ (split_point_ <$> bare_tree !! 0) = Some None
  /\ (split_point_ <$> tree' !! 0) = Some (Some steep_split_point)
  /\ (split_point_ <$> tree' !! 0) <> Some None.
Proof.
  repeat split; try (vm_compute; reflexivity). vm_compute. discriminate.
Qed.

(** ** Requests out of range *)


Lemma sum_lengths_uniform (n : nat) (l : list (ImageFeature.t * list ImageThreshold.t)) :
  Forall (fun e => length (snd e) = n) l ->
  sum_list (map (fun e => length (snd e)) l) = length l * n.
Proof.
  induction 1 as [| e rest He _ IH]; [reflexivity |].
  simpl. rewrite He, IH. reflexivity.
Qed.




Lemma at_node_found {T : Type} (Q : T -> Prop) (m : list (nat * T)) (node_index : nat) :
  Forall (fun e => Q (snd e)) m ->
  node_index ∈ map fst m ->
  exists v, LevelForestTrainer.at_node m node_index = Returns v /\ Q v.
Proof.
  intros Hall Hin. unfold LevelForestTrainer.at_node.
  apply list_elem_of_fmap in Hin as [[k v] [-> Hkv]].
  destruct (list_find_elem_of (fun e : nat * T => fst e = fst (k, v)) m (k, v) Hkv eq_refl)
    as [[i [k' v']] Hfind].
  rewrite Hfind. exists v'. split; [reflexivity |].
  apply list_find_Some in Hfind as (Hlook & _ & _).
  rewrite Forall_forall in Hall. apply (Hall (k', v')).
  eapply list_elem_of_lookup_2. exact Hlook.
Qed.

Section TrainingStops.
Context {L : ScalarLimits} {S : Type} {statistics : Statistics S}
        {G : Type} {engine : RandomEngine G}.
Variable ndebug : bool.
Variable multi_threading : bool.
Variable hardware_concurrency : nat.
Variable find_best_split_point_tuple : S -> SplitStatistics S -> nat * scalar_type.
Variable weak_learner_parameters : ImageWeakLearnerParameters.
Variable training_parameters_ : LevelTrainingParameters.

Import LevelForestTrainer.

Lemma sample_split_points_batch_shape (node_to_sample_map : list (nat * list ImageSample))
    (g : G) :
  let batch := fst (sample_split_points_batch weak_learner_parameters node_to_sample_map g) in
  map fst batch = map fst node_to_sample_map
  /\ Forall (fun e => candidates_shape (thresholds_per_feature weak_learner_parameters)
                        (Z.to_nat (num_of_features weak_learner_parameters)) (snd e)) batch.
Proof.
  revert g. induction node_to_sample_map as [| [node_index samples] rest IH]; intros g.
  - simpl. split; [reflexivity | constructor].
  - cbn [sample_split_points_batch].
    pose proof (sample_split_points_shape weak_learner_parameters samples g) as Hshape.
    destruct (ImageWeakLearner.sample_split_points weak_learner_parameters samples g)
      as [candidates g1].
    specialize (IH g1).
    destruct (sample_split_points_batch weak_learner_parameters rest g1) as [batch g2].
    simpl in *. destruct IH as [Hkeys Hall]. split; [rewrite Hkeys; reflexivity |].
    constructor; [exact Hshape | exact Hall].
Qed.

Lemma compute_split_statistics_batch_returns
    (node_to_sample_map : list (nat * list ImageSample))
    (split_points_batch : list (nat * ImageSplitPointCandidates.t)) :
  (forall k, k ∈ map fst node_to_sample_map -> k ∈ map fst split_points_batch) ->
  exists batch,
    compute_split_statistics_batch multi_threading hardware_concurrency
      training_parameters_ node_to_sample_map split_points_batch = Returns batch
    /\ map fst batch = map fst node_to_sample_map.
Proof.
  induction node_to_sample_map as [| [node_index samples] rest IH]; intros Hkeys.
  - exists []. split; reflexivity.
  - cbn [compute_split_statistics_batch].
    destruct (at_node_found (fun _ => True) split_points_batch node_index) as (c & Hc & _).
    { apply Forall_forall. done. }
    { apply Hkeys. simpl. left. }
    rewrite Hc. simpl.
    destruct IH as (batch & Hbatch & Hk).
    { intros k Hk. apply Hkeys. simpl. right. exact Hk. }
    rewrite Hbatch. simpl. eexists. split; [reflexivity |]. simpl. rewrite Hk. reflexivity.
Qed.

End TrainingStops.


(** ** The tape engine, and the theorems at concrete inputs *)

Lemma tape_engine_draws_within_bounds : draws_within_bounds (engine := tape_engine) (list Z).
Proof.
  split.
  - intros a b g Hab. destruct g as [| r g']; simpl; [lia |].
    pose proof (Z.mod_pos_bound r (b - a + 1) ltac:(lia)). lia.
  - intros a b g Hab. destruct g as [| r g']; simpl.
    + split; [apply Qle_refl | exact Hab].
    + pose proof (Z.mod_pos_bound r 1000 ltac:(lia)) as Hr.
      assert (H0 : (0 <= (r mod 1000) # 1000)%Q) by (unfold Qle; simpl; lia).
      assert (H1 : ((r mod 1000) # 1000 <= 1)%Q) by (unfold Qle; simpl; lia).
      set (x := ((r mod 1000) # 1000)%Q) in *. clearbody x.
      split; nra.
Qed.

Lemma sample_split_points_indexing_witness :
  (0 <= num_of_features plain_parameters)%Z
  /\ (0 <= num_of_thresholds plain_parameters)%Z
  /\ ImageSplitPointCandidates.total_size
       (fst (ImageWeakLearner.sample_split_points (L := double_limits)
               (engine := tape_engine) plain_parameters [] [1; 2; 3]%Z))
     = 6.
Proof.
  assert (H1 : (0 <= num_of_features plain_parameters)%Z) by (simpl; lia).
  assert (H2 : (0 <= num_of_thresholds plain_parameters)%Z) by (simpl; lia).
  split; [exact H1 |]. split; [exact H2 |].
  destruct (sample_split_points_indexing (L := double_limits) (engine := tape_engine)
              true plain_parameters [] [1; 2; 3]%Z H1 H2) as (_ & _ & Htotal & _).
  exact Htotal.
Defined.

Lemma compute_sample_bag_batches_slices_witness :
  draws_within_bounds (engine := tape_engine) (list Z)
  /\ 1 <= ImageSampleProvider.get_num_of_images bag_provider
  /\ 1 <= 2
  /\ (0 <= bagging_fraction (ImageSampleProvider.parameters_ bag_provider))%Q
  /\ (bagging_fraction (ImageSampleProvider.parameters_ bag_provider) <= 1)%Q
  /\ length (fst (ImageSampleProvider.drawn_bag (engine := tape_engine) bag_provider
                    [3; 17; 7; 1; 5]%Z)) = 4
  /\ concat (fst (ImageSampleProvider.compute_sample_bag_batches (engine := tape_engine)
                    bag_provider 2 [3; 17; 7; 1; 5]%Z))
     = ImageSampleProvider.sorted_bag (engine := tape_engine) bag_provider
         [3; 17; 7; 1; 5]%Z.
Proof.
  assert (HN : 1 <= ImageSampleProvider.get_num_of_images bag_provider)
    by (vm_compute; lia).
  assert (Hb : (0 <= bagging_fraction (ImageSampleProvider.parameters_ bag_provider))%Q)
    by (simpl; discriminate).
  assert (Hb1 : (bagging_fraction (ImageSampleProvider.parameters_ bag_provider) <= 1)%Q)
    by (simpl; discriminate).
  assert (HB : 1 <= 2) by lia.
  split; [exact tape_engine_draws_within_bounds |]. split; [exact HN |].
  split; [exact HB |]. split; [exact Hb |]. split; [exact Hb1 |].
  destruct (compute_sample_bag_batches_slices (engine := tape_engine) bag_provider 2
              [3; 17; 7; 1; 5]%Z tape_engine_draws_within_bounds HN HB Hb Hb1)
    as (_ & Hlen & _ & _ & _ & _ & _ & _ & Hconcat & _).
  split; [| exact Hconcat].
  rewrite Hlen. vm_compute. reflexivity.
Defined.

Lemma apply_best_split_point_batch_marks_nodes_witness :
  (0 <= minimum_num_of_samples strict_parameters)%Z
  /\ NoDup (map fst [(0, (steep_split_point, poor_split))])
  /\ on_one_level (map fst [(0, (steep_split_point, poor_split))])
  /\ (forall i, i ∈ map fst [(0, (steep_split_point, poor_split))] ->
                right_child i < length bare_tree)
  /\ (leaf_ <$> LevelForestTrainer.apply_best_split_point_batch strict_parameters
                  [(0, (steep_split_point, poor_split))] bare_tree !! left_child 0)
     = Some true.
Proof.
  assert (H0 : (0 <= minimum_num_of_samples strict_parameters)%Z) by (simpl; lia).
  assert (Hnodup : NoDup (map fst [(0, (steep_split_point, poor_split))])).
  { simpl. apply NoDup_singleton. }
  assert (Hlevel : on_one_level (map fst [(0, (steep_split_point, poor_split))])).
  { intros i j Hi Hj. simpl in *. apply list_elem_of_singleton in Hi, Hj. subst.
    unfold left_child, right_child. lia. }
  assert (Hlen : forall i, i ∈ map fst [(0, (steep_split_point, poor_split))] ->
                           right_child i < length bare_tree).
  { intros i Hi. simpl in *. apply list_elem_of_singleton in Hi. subst.
    unfold right_child. simpl. lia. }
  split; [exact H0 |]. split; [exact Hnodup |]. split; [exact Hlevel |].
  split; [exact Hlen |].
  destruct (apply_best_split_point_batch_marks_nodes strict_parameters
              [(0, (steep_split_point, poor_split))] bare_tree H0 Hnodup Hlevel Hlen
              0 steep_split_point poor_split ltac:(left))
    as (_ & Hleft & _).
  exact Hleft.
Defined.

(** ** Feature values and the two comparisons *)

Local Open Scope Z_scope.

Lemma feature_pixel_value_in_int16 (sample : ImageSample) (offset_x offset_y : Z) :
  in_int16 (ImageFeature.compute_pixel_value sample offset_x offset_y).
Proof.
  unfold ImageFeature.compute_pixel_value.
  destruct (_ || _); apply to_int16_bounds.
Qed.

Lemma pixel_difference_range (feature : ImageFeature.t) (sample : ImageSample) :
  -65535 <= ImageFeature.compute_pixel_difference feature sample <= 65535.
Proof.
  unfold ImageFeature.compute_pixel_difference. cbv zeta.
  pose proof (to_int16_bounds (ImageFeature.compute_pixel_value sample
                (ImageFeature.offset_x1 feature) (ImageFeature.offset_y1 feature))) as H1.
  pose proof (to_int16_bounds (ImageFeature.compute_pixel_value sample
                (ImageFeature.offset_x2 feature) (ImageFeature.offset_y2 feature))) as H2.
  unfold in_int16, int16_min, int16_max in *. lia.
Qed.

(** X1. The value of a feature at a sample, the difference of two
    zero-padded [pixel_type] values, lies between [-65535] and [65535]; so
    a threshold above [65535] sends every sample to the left and a
    threshold of [-65535] or less sends every sample to the right. *)
Theorem pixel_difference_bounded (feature : ImageFeature.t) (sample : ImageSample)
    (th : ImageThreshold.t) :
  let value := ImageFeature.compute_pixel_difference feature sample in
  -65535 <= value <= 65535
  /\ ((inject_Z 65535 < ImageThreshold.threshold th)%Q ->
      ImageThreshold.left_direction th value = true)
  /\ ((ImageThreshold.threshold th <= inject_Z (-65535))%Q ->
      ImageThreshold.left_direction th value = false).
Proof.
  intros value.
  assert (Hb : -65535 <= value <= 65535) by apply pixel_difference_range.
  split; [exact Hb |]. split.
  - intros Hth. unfold ImageThreshold.left_direction. apply scalar_ltb_lt.
    eapply Qle_lt_trans; [| exact Hth]. rewrite <- Zle_Qle. lia.
  - intros Hth. unfold ImageThreshold.left_direction. apply scalar_ltb_ge.
    eapply Qle_trans; [exact Hth |]. rewrite <- Zle_Qle. lia.
Qed.

Lemma split_point_of_feature_difference (feature : ImageFeature.t) (th : ImageThreshold.t)
    (sample : ImageSample) :
  ImageSplitPoint.compute_pixel_difference (ImageSplitPoint.make feature th) sample
  = ImageFeature.compute_pixel_difference feature sample.
Proof. reflexivity. Qed.

(** X2. A split point built from a feature and a threshold sends a sample
    to the side on which the weak learner accumulated it, whenever the
    feature value of the sample is a [pixel_type] value (as it is for
    images without negative pixels, see
    [nonnegative_pixels_difference_fits]). *)
Theorem evaluate_agrees_with_accumulation (feature : ImageFeature.t)
    (th : ImageThreshold.t) (sample : ImageSample) :
  in_int16 (ImageFeature.compute_pixel_difference feature sample) ->
  ImageSplitPoint.evaluate (ImageSplitPoint.make feature th) sample
  = if ImageThreshold.left_direction th
         (ImageFeature.compute_pixel_difference feature sample)
    then LEFT else RIGHT.
Proof.
  intros Hfit. unfold ImageSplitPoint.evaluate. cbv zeta.
  rewrite split_point_of_feature_difference, (to_int16_in_range _ Hfit).
  reflexivity.
Qed.

(** Pixels that are not negative differ by a [pixel_type] value. *)
Lemma nonnegative_pixels_difference_fits (feature : ImageFeature.t) (sample : ImageSample) :
  nonnegative_pixels (get_image sample) ->
  in_int16 (ImageFeature.compute_pixel_difference feature sample).
Proof.
  intros Hpos.
  assert (Hv : forall ox oy, 0 <= to_int16 (ImageFeature.compute_pixel_value sample ox oy)
                             <= 32767).
  { intros ox oy.
    pose proof (feature_pixel_value_in_int16 sample ox oy) as Hin.
    rewrite (to_int16_in_range _ Hin).
    split; [| unfold in_int16, int16_max in Hin; lia].
    unfold ImageFeature.compute_pixel_value. cbv zeta.
    destruct (_ || _).
    - vm_compute. discriminate.
    - pose proof (Hpos (get_x sample + ox) (get_y sample + oy)) as Hc.
      rewrite to_int16_in_range; [lia |].
      unfold in_int16, int16_min. lia. }
  unfold ImageFeature.compute_pixel_difference. cbv zeta.
  pose proof (Hv (ImageFeature.offset_x1 feature) (ImageFeature.offset_y1 feature)).
  pose proof (Hv (ImageFeature.offset_x2 feature) (ImageFeature.offset_y2 feature)).
  unfold in_int16, int16_min, int16_max. lia.
Qed.

Lemma binary_thresholds_strictness (value : Z) (th : ImageThreshold.t) :
  th ∈ binary_thresholds ->
  ImageThreshold.left_direction th value = left_direction_non_strict th value.
Proof.
  intros Hin. unfold binary_thresholds in Hin.
  assert (Hcase : ImageThreshold.threshold th = (- (1 # 2))%Q
                  \/ ImageThreshold.threshold th = (1 # 2)%Q).
  { apply elem_of_cons in Hin as [-> | Hin]; [left; reflexivity |].
    apply list_elem_of_singleton in Hin as ->. right. reflexivity. }
  unfold ImageThreshold.left_direction, left_direction_non_strict, scalar_ltb.
  destruct Hcase as [-> | ->].
  - destruct (Qle_bool (inject_Z value) (- (1 # 2))) eqn:E1;
      destruct (Qle_bool (- (1 # 2)) (inject_Z value)) eqn:E2; try reflexivity.
    + apply Qle_bool_iff in E1, E2.
      unfold Qle, inject_Z in *. simpl in *. lia.
    + assert (~ (inject_Z value <= - (1 # 2))%Q) as N1
          by (rewrite <- Qle_bool_iff; congruence).
      assert (~ (- (1 # 2) <= inject_Z value)%Q) as N2
          by (rewrite <- Qle_bool_iff; congruence).
      unfold Qle, inject_Z in *. simpl in *. lia.
  - destruct (Qle_bool (inject_Z value) (1 # 2)) eqn:E1;
      destruct (Qle_bool (1 # 2) (inject_Z value)) eqn:E2; try reflexivity.
    + apply Qle_bool_iff in E1, E2.
      unfold Qle, inject_Z in *. simpl in *. lia.
    + assert (~ (inject_Z value <= 1 # 2)%Q) as N1
          by (rewrite <- Qle_bool_iff; congruence).
      assert (~ (1 # 2 <= inject_Z value)%Q) as N2
          by (rewrite <- Qle_bool_iff; congruence).
      unfold Qle, inject_Z in *. simpl in *. lia.
Qed.

Section BinaryThresholds.
Context {L : ScalarLimits} {G : Type} {engine : RandomEngine G}.

Lemma sample_feature_binary (parameters_ : ImageWeakLearnerParameters)
    (samples : list ImageSample) (offsets_x offsets_y : list Z) (st : sampling_state) :
  binary_images parameters_ = true ->
  Forall (fun e => snd e = binary_thresholds)
    (ImageSplitPointCandidates.candidates_ (split_points st)) ->
  Forall (fun e => snd e = binary_thresholds)
    (ImageSplitPointCandidates.candidates_
       (split_points (sample_feature parameters_ samples offsets_x offsets_y st))).
Proof.
  intros Hbin Hall. unfold sample_feature.
  destruct (draw_offset offsets_x (rnd_engine st)) as [x1 g1].
  destruct (draw_offset offsets_y g1) as [y1 g2].
  destruct (draw_offset offsets_x g2) as [x2 g3].
  destruct (draw_offset offsets_y g3) as [y2 g4].
  rewrite Hbin. simpl. apply Forall_app. split; [exact Hall |].
  constructor; [reflexivity | constructor].
Qed.

(** X3. With [binary_images] set, every feature that
    [sample_split_points] returns carries exactly the two thresholds
    [-0.5] and [+0.5], and for these the comparison [value < threshold] of
    [left_direction] gives the same side as [value <= threshold] would, for
    every integer value: the remark in the source holds. *)
Theorem binary_images_thresholds (parameters_ : ImageWeakLearnerParameters)
    (samples : list ImageSample) (g : G) :
  binary_images parameters_ = true ->
  forall feature thresholds,
    (feature, thresholds)
      ∈ ImageSplitPointCandidates.candidates_ (fst (sample_split_points parameters_ samples g)) ->
    thresholds = binary_thresholds
    /\ forall th value, th ∈ thresholds ->
         ImageThreshold.left_direction th value = left_direction_non_strict th value.
Proof.
  intros Hbin feature thresholds Hin.
  assert (Hall : Forall (fun e => snd e = binary_thresholds)
                   (ImageSplitPointCandidates.candidates_
                      (fst (sample_split_points parameters_ samples g)))).
  { unfold sample_split_points. cbv zeta. cbn [fst].
    induction (Z.to_nat (num_of_features parameters_)) as [| k IH].
    - simpl. constructor.
    - rewrite Nat.iter_succ. apply sample_feature_binary; [exact Hbin | exact IH]. }
  rewrite Forall_forall in Hall. specialize (Hall _ Hin). simpl in Hall. subst thresholds.
  split; [reflexivity |].
  intros th value Hth. apply binary_thresholds_strictness. exact Hth.
Qed.

End BinaryThresholds.

(** ** Candidate sets with any numbers of thresholds *)

Local Open Scope nat_scope.

Lemma sum_list_append (l k : list nat) : sum_list (l ++ k) = sum_list l + sum_list k.
Proof. induction l as [| x l IH]; simpl; [reflexivity | rewrite IH; lia]. Qed.

Lemma flattened_index_decompose (cands : list (ImageFeature.t * list ImageThreshold.t))
    (index : nat) :
  index < sum_list (map (fun e => length (snd e)) cands) ->
  exists i feature thresholds j th,
    cands !! i = Some (feature, thresholds)
    /\ thresholds !! j = Some th
    /\ index = flattened_offset cands i + j.
Proof.
  revert index. induction cands as [| [feature thresholds] rest IH]; intros index Hlt.
  - simpl in Hlt. lia.
  - simpl in Hlt. destruct (decide (index < length thresholds)) as [Hin | Hout].
    + destruct (lookup_lt_is_Some_2 thresholds index Hin) as [th Hth].
      exists 0, feature, thresholds, index, th. repeat split; try done.
    + destruct (IH (index - length thresholds)) as (i & f & ths & j & th & Hi & Hj & Heq);
        [lia |].
      exists (Datatypes.S i), f, ths, j, th. repeat split; try done.
      unfold flattened_offset in *. simpl. lia.
Qed.

Lemma flattened_offset_app_l (cands more : list (ImageFeature.t * list ImageThreshold.t))
    (i : nat) :
  i <= length cands -> flattened_offset (cands ++ more) i = flattened_offset cands i.
Proof.
  intros Hi. unfold flattened_offset. rewrite take_app_le by exact Hi. reflexivity.
Qed.

Lemma flattened_offset_all (cands : list (ImageFeature.t * list ImageThreshold.t)) :
  flattened_offset cands (length cands) = sum_list (map (fun e => length (snd e)) cands).
Proof. unfold flattened_offset. rewrite firstn_all. reflexivity. Qed.

Lemma total_size_consistent_add (c : ImageSplitPointCandidates.t) (feature : ImageFeature.t)
    (thresholds : list ImageThreshold.t) :
  total_size_consistent c ->
  total_size_consistent (ImageSplitPointCandidates.add_feature_and_thresholds c feature
                           thresholds).
Proof.
  unfold total_size_consistent, ImageSplitPointCandidates.total_size. simpl. intros ->.
  rewrite map_app, sum_list_append. simpl. lia.
Qed.

Lemma assert_true (ndebug : bool) : assert ndebug true = Returns tt.
Proof. unfold assert. destruct ndebug; reflexivity. Qed.

Lemma get_split_point_flattened (ndebug : bool) (c : ImageSplitPointCandidates.t)
    (i j : nat) (feature : ImageFeature.t) (thresholds : list ImageThreshold.t)
    (th : ImageThreshold.t) :
  total_size_consistent c ->
  ImageSplitPointCandidates.candidates_ c !! i = Some (feature, thresholds) ->
  thresholds !! j = Some th ->
  ImageSplitPointCandidates.get_split_point ndebug c
    (flattened_offset (ImageSplitPointCandidates.candidates_ c) i + j)
  = Returns (ImageSplitPoint.make feature th).
Proof.
  intros Hc Hi Hj. unfold ImageSplitPointCandidates.get_split_point.
  assert (Hlt : flattened_offset (ImageSplitPointCandidates.candidates_ c) i + j
                < ImageSplitPointCandidates.total_size c).
  { rewrite Hc. unfold flattened_offset.
    rewrite <- (take_drop i (ImageSplitPointCandidates.candidates_ c)) at 2.
    rewrite map_app, sum_list_append.
    rewrite (drop_S _ _ _ Hi). simpl.
    apply lookup_lt_Some in Hj. lia. }
  apply Nat.ltb_lt in Hlt. rewrite Hlt, assert_true. simpl.
  exact (scan_candidates_flattened _ 0 i j feature thresholds th Hi Hj).
Qed.

(** X4. For a candidate set whose [total_size_] is the number of its
    thresholds, features with different numbers of thresholds included,
    [get_split_point] returns for every index below [total_size], in both
    builds: the index is the flattened position of threshold [j] of feature
    [i], and the split point is made of that feature and that threshold. *)
Theorem get_split_point_in_range (ndebug : bool) (c : ImageSplitPointCandidates.t)
    (index : nat) :
  total_size_consistent c ->
  index < ImageSplitPointCandidates.total_size c ->
  exists i feature thresholds j th,
    ImageSplitPointCandidates.candidates_ c !! i = Some (feature, thresholds)
    /\ thresholds !! j = Some th
    /\ index = flattened_offset (ImageSplitPointCandidates.candidates_ c) i + j
    /\ ImageSplitPointCandidates.get_split_point ndebug c index
       = Returns (ImageSplitPoint.make feature th).
Proof.
  intros Hc Hlt. rewrite Hc in Hlt.
  destruct (flattened_index_decompose _ _ Hlt) as (i & f & ths & j & th & Hi & Hj & ->).
  exists i, f, ths, j, th. repeat split; try done.
  exact (get_split_point_flattened ndebug c i j f ths th Hc Hi Hj).
Qed.

(** X5. [add_feature_and_thresholds] keeps [total_size_] equal to the
    number of thresholds, leaves the split point of every earlier index as
    it was, and makes the new thresholds available, in order, at the
    indices from the old [total_size] on. *)
Theorem get_split_point_after_add (ndebug : bool) (c : ImageSplitPointCandidates.t)
    (feature : ImageFeature.t) (thresholds : list ImageThreshold.t) :
  total_size_consistent c ->
  let c' := ImageSplitPointCandidates.add_feature_and_thresholds c feature thresholds in
  total_size_consistent c'
  /\ ImageSplitPointCandidates.total_size c'
     = ImageSplitPointCandidates.total_size c + length thresholds
  /\ (forall index, index < ImageSplitPointCandidates.total_size c ->
        ImageSplitPointCandidates.get_split_point ndebug c' index
        = ImageSplitPointCandidates.get_split_point ndebug c index)
  /\ (forall j th, thresholds !! j = Some th ->
        ImageSplitPointCandidates.get_split_point ndebug c'
          (ImageSplitPointCandidates.total_size c + j)
        = Returns (ImageSplitPoint.make feature th)).
Proof.
  intros Hc c'.
  assert (Hc' : total_size_consistent c') by (apply total_size_consistent_add; exact Hc).
  split; [exact Hc' |]. split; [reflexivity |]. split.
  - intros index Hlt. rewrite Hc in Hlt.
    destruct (flattened_index_decompose _ _ Hlt) as (i & f & ths & j & th & Hi & Hj & Heq).
    rewrite Heq at 2.
    rewrite (get_split_point_flattened ndebug c i j f ths th Hc Hi Hj), Heq.
    rewrite <- (flattened_offset_app_l _ [(feature, thresholds)] i)
      by (apply lookup_lt_Some in Hi; lia).
    apply (get_split_point_flattened ndebug c' i j f ths th Hc'); [| exact Hj].
    simpl. apply lookup_app_l_Some. exact Hi.
  - intros j th Hj.
    rewrite Hc, <- flattened_offset_all.
    rewrite <- (flattened_offset_app_l _ [(feature, thresholds)]) by lia.
    apply (get_split_point_flattened ndebug c' _ j feature thresholds th Hc'); [| exact Hj].
    simpl. rewrite lookup_app_r by lia. rewrite Nat.sub_diag. reflexivity.
Qed.

(** ** The ranges the candidates are drawn from *)

Local Open Scope Z_scope.

Lemma offsets_pool_length (low high : Z) :
  low <= high -> Z.of_nat (length (offsets_pool low high)) = 2 * (high - low + 1).
Proof.
  intros Hle. unfold offsets_pool.
  assert (Hlen : forall l : list Z,
             length (flat_map (fun o => [to_int16 (- o); to_int16 o]) l)
             = (2 * length l)%nat).
  { induction l as [| x l IH]; simpl; [reflexivity | rewrite IH; lia]. }
  rewrite Hlen, length_seqZ. lia.
Qed.

Lemma offsets_pool_within (low high v : Z) :
  offset_range_fits low high ->
  v ∈ offsets_pool low high -> within_offset_range low high v.
Proof.
  intros (Hlow & Hle & Hhigh & _) Hin. unfold offsets_pool in Hin.
  apply list_elem_of_In, in_flat_map in Hin as (o & Ho & Hv).
  apply list_elem_of_In, elem_of_seqZ in Ho.
  exists o. split; [lia |].
  unfold int16_min, int16_max in *.
  simpl in Hv. destruct Hv as [<- | [<- | []]].
  - left. apply to_int16_in_range. unfold in_int16, int16_min, int16_max. lia.
  - right. apply to_int16_in_range. unfold in_int16, int16_min, int16_max. lia.
Qed.

Section SampledRanges.
Context {L : ScalarLimits} {G : Type} {engine : RandomEngine G}.

Lemma draw_offset_within (low high : Z) (g : G) :
  draws_within_bounds G ->
  offset_range_fits low high ->
  within_offset_range low high (fst (draw_offset (offsets_pool low high) g)).
Proof.
  intros [Hint _] Hfits. pose proof Hfits as (Hlow & Hle & Hhigh & Hspan).
  unfold draw_offset.
  pose proof (offsets_pool_length low high Hle) as Hlen.
  assert (Hlast : to_int16 (Z.of_nat (length (offsets_pool low high)) - 1)
                  = Z.of_nat (length (offsets_pool low high)) - 1).
  { apply to_int16_in_range. unfold in_int16, int16_min, int16_max. lia. }
  rewrite Hlast.
  pose proof (Hint 0 (Z.of_nat (length (offsets_pool low high)) - 1) g ltac:(lia)) as Hb.
  destruct (uniform_int_distribution 0 (Z.of_nat (length (offsets_pool low high)) - 1) g)
    as [index g'] eqn:E.
  cbn [fst] in *.
  destruct (lookup_lt_is_Some_2 (offsets_pool low high) (Z.to_nat index) ltac:(lia))
    as [v Hv].
  rewrite Hv. cbn [default from_option].
  apply offsets_pool_within; [exact Hfits |].
  eapply list_elem_of_lookup_2. exact Hv.
Qed.

Lemma sample_feature_within (parameters_ : ImageWeakLearnerParameters)
    (samples : list ImageSample) (st : sampling_state) :
  draws_within_bounds G ->
  offset_range_fits (feature_offset_x_range_low parameters_)
    (feature_offset_x_range_high parameters_) ->
  offset_range_fits (feature_offset_y_range_low parameters_)
    (feature_offset_y_range_high parameters_) ->
  Forall (fun e => feature_within_ranges parameters_ (fst e))
    (ImageSplitPointCandidates.candidates_ (split_points st)) ->
  Forall (fun e => feature_within_ranges parameters_ (fst e))
    (ImageSplitPointCandidates.candidates_
       (split_points
          (sample_feature parameters_ samples
             (offsets_pool (feature_offset_x_range_low parameters_)
                (feature_offset_x_range_high parameters_))
             (offsets_pool (feature_offset_y_range_low parameters_)
                (feature_offset_y_range_high parameters_)) st))).
Proof.
  intros Hdraws Hx Hy Hall. unfold sample_feature.
  pose proof (draw_offset_within _ _ (rnd_engine st) Hdraws Hx) as H1.
  destruct (draw_offset _ (rnd_engine st)) as [x1 g1].
  pose proof (draw_offset_within _ _ g1 Hdraws Hy) as H2.
  destruct (draw_offset _ g1) as [y1 g2].
  pose proof (draw_offset_within _ _ g2 Hdraws Hx) as H3.
  destruct (draw_offset _ g2) as [x2 g3].
  pose proof (draw_offset_within _ _ g3 Hdraws Hy) as H4.
  destruct (draw_offset _ g3) as [y2 g4].
  cbn [fst] in *.
  assert (Hnew : feature_within_ranges parameters_
                   {| ImageFeature.offset_x1 := x1; ImageFeature.offset_y1 := y1;
                      ImageFeature.offset_x2 := x2; ImageFeature.offset_y2 := y2 |}).
  { repeat split; assumption. }
  destruct (binary_images parameters_).
  - simpl. apply Forall_app. split; [exact Hall |]. constructor; [exact Hnew | constructor].
  - destruct (draw_thresholds _ _ _ g4) as [ths g5].
    simpl. apply Forall_app. split; [exact Hall |]. constructor; [exact Hnew | constructor].
Qed.

(** X6. When both offset ranges can be walked by the loops (see
    [offset_range_fits]) and the engine draws within the bounds it is
    given, each of the four offsets of every feature that
    [sample_split_points] returns is [-o] or [+o] for an [o] of the
    configured range of its axis. *)
Theorem sampled_offsets_within_ranges (parameters_ : ImageWeakLearnerParameters)
    (samples : list ImageSample) (g : G) :
  draws_within_bounds G ->
  offset_range_fits (feature_offset_x_range_low parameters_)
    (feature_offset_x_range_high parameters_) ->
  offset_range_fits (feature_offset_y_range_low parameters_)
    (feature_offset_y_range_high parameters_) ->
  forall feature thresholds,
    (feature, thresholds)
      ∈ ImageSplitPointCandidates.candidates_ (fst (sample_split_points parameters_ samples g)) ->
    feature_within_ranges parameters_ feature.
Proof.
  intros Hdraws Hx Hy feature thresholds Hin.
  assert (Hall : Forall (fun e => feature_within_ranges parameters_ (fst e))
                   (ImageSplitPointCandidates.candidates_
                      (fst (sample_split_points parameters_ samples g)))).
  { unfold sample_split_points. cbv zeta. cbn [fst].
    induction (Z.to_nat (num_of_features parameters_)) as [| k IH].
    - simpl. constructor.
    - rewrite Nat.iter_succ. apply sample_feature_within; assumption. }
  rewrite Forall_forall in Hall. exact (Hall _ Hin).
Qed.

Lemma draw_thresholds_within (n : nat) (low high : scalar_type) (g : G) :
  draws_within_bounds G -> (low <= high)%Q ->
  Forall (fun th => (low <= ImageThreshold.threshold th <= high)%Q)
    (fst (draw_thresholds n low high g)).
Proof.
  intros [_ Hreal] Hle. revert g. induction n as [| n IH]; intros g; simpl.
  - constructor.
  - pose proof (Hreal low high g Hle) as Hb.
    destruct (uniform_real_distribution low high g) as [t g1].
    specialize (IH g1). destruct (draw_thresholds n low high g1) as [rest g2].
    cbn [fst] in *. constructor; [exact Hb | exact IH].
Qed.

Lemma sample_feature_fixed_range (parameters_ : ImageWeakLearnerParameters)
    (samples : list ImageSample) (offsets_x offsets_y : list Z) (st : sampling_state) :
  draws_within_bounds G ->
  binary_images parameters_ = false ->
  adaptive_threshold_range parameters_ = false ->
  (threshold_range_low parameters_ <= threshold_range_high parameters_)%Q ->
  fixed_range_state parameters_ st ->
  fixed_range_state parameters_ (sample_feature parameters_ samples offsets_x offsets_y st).
Proof.
  intros Hdraws Hbin Hadaptive Hle (Hlow & Hhigh & Hall). unfold sample_feature.
  destruct (draw_offset offsets_x (rnd_engine st)) as [x1 g1].
  destruct (draw_offset offsets_y g1) as [y1 g2].
  destruct (draw_offset offsets_x g2) as [x2 g3].
  destruct (draw_offset offsets_y g3) as [y2 g4].
  rewrite Hbin, Hadaptive. cbn [fst snd]. rewrite Hlow, Hhigh.
  pose proof (draw_thresholds_within (Z.to_nat (num_of_thresholds parameters_))
                _ _ g4 Hdraws Hle) as Hths.
  destruct (draw_thresholds _ _ _ g4) as [ths g5]. cbn [fst] in Hths.
  split; [reflexivity |]. split; [reflexivity |].
  simpl. apply Forall_app. split; [exact Hall |]. constructor; [exact Hths | constructor].
Qed.

(** X7. Without [binary_images] and without [adaptive_threshold_range],
    every threshold that [sample_split_points] returns lies between
    [threshold_range_low] and [threshold_range_high], for an engine that
    draws within the bounds it is given. *)
Theorem sampled_thresholds_within_fixed_range (parameters_ : ImageWeakLearnerParameters)
    (samples : list ImageSample) (g : G) :
  draws_within_bounds G ->
  binary_images parameters_ = false ->
  adaptive_threshold_range parameters_ = false ->
  (threshold_range_low parameters_ <= threshold_range_high parameters_)%Q ->
  forall feature thresholds th,
    (feature, thresholds)
      ∈ ImageSplitPointCandidates.candidates_ (fst (sample_split_points parameters_ samples g)) ->
    th ∈ thresholds ->
    (threshold_range_low parameters_ <= ImageThreshold.threshold th
     <= threshold_range_high parameters_)%Q.
Proof.
  intros Hdraws Hbin Hadaptive Hle feature thresholds th Hin Hth.
  assert (Hst : fixed_range_state parameters_
                  (Nat.iter (Z.to_nat (num_of_features parameters_))
                     (sample_feature parameters_ samples
                        (offsets_pool (feature_offset_x_range_low parameters_)
                           (feature_offset_x_range_high parameters_))
                        (offsets_pool (feature_offset_y_range_low parameters_)
                           (feature_offset_y_range_high parameters_)))
                     {| split_points := ImageSplitPointCandidates.empty; rnd_engine := g;
                        range_low := threshold_range_low parameters_;
                        range_high := threshold_range_high parameters_ |})).
  { induction (Z.to_nat (num_of_features parameters_)) as [| k IH].
    - simpl. split; [reflexivity |]. split; [reflexivity | constructor].
    - rewrite Nat.iter_succ. apply sample_feature_fixed_range; assumption. }
  destruct Hst as (_ & _ & Hall).
  unfold sample_split_points in Hin. cbv zeta in Hin. cbn [fst] in Hin.
  rewrite Forall_forall in Hall. specialize (Hall _ Hin). cbn [snd] in Hall.
  rewrite Forall_forall in Hall. exact (Hall _ Hth).
Qed.

End SampledRanges.

(** ** The adaptive range of a node *)

Local Open Scope Z_scope.

Lemma fold_min_spec (l : list Z) (a : Z) :
  (fold_left Z.min l a = a \/ fold_left Z.min l a ∈ l)
  /\ fold_left Z.min l a <= a
  /\ forall v, v ∈ l -> fold_left Z.min l a <= v.
Proof.
  revert a. induction l as [| x l IH]; intros a; simpl.
  - split; [left; reflexivity |]. split; [lia |]. intros v Hv. inversion Hv.
  - destruct (IH (Z.min a x)) as (Hmem & Hle & Hall). split; [| split].
    + destruct Hmem as [-> | Hmem].
      * destruct (Z.min_spec a x) as [[_ ->] | [_ ->]]; [left; reflexivity | right; left].
      * right. right. exact Hmem.
    + lia.
    + intros v Hv. apply elem_of_cons in Hv as [-> | Hv]; [lia | exact (Hall _ Hv)].
Qed.

Lemma fold_max_spec (l : list Z) (a : Z) :
  (fold_left Z.max l a = a \/ fold_left Z.max l a ∈ l)
  /\ a <= fold_left Z.max l a
  /\ forall v, v ∈ l -> v <= fold_left Z.max l a.
Proof.
  revert a. induction l as [| x l IH]; intros a; simpl.
  - split; [left; reflexivity |]. split; [lia |]. intros v Hv. inversion Hv.
  - destruct (IH (Z.max a x)) as (Hmem & Hle & Hall). split; [| split].
    + destruct Hmem as [-> | Hmem].
      * destruct (Z.max_spec a x) as [[_ ->] | [_ ->]]; [right; left | left; reflexivity].
      * right. right. exact Hmem.
    + lia.
    + intros v Hv. apply elem_of_cons in Hv as [-> | Hv]; [lia | exact (Hall _ Hv)].
Qed.

Lemma scalar_ltb_inject (a b : Z) : scalar_ltb (inject_Z a) (inject_Z b) = (a <? b).
Proof.
  destruct (a <? b) eqn:E.
  - apply scalar_ltb_lt. rewrite <- Zlt_Qlt. apply Z.ltb_lt. exact E.
  - apply scalar_ltb_ge. rewrite <- Zle_Qle. apply Z.ltb_ge. exact E.
Qed.

Section AdaptiveRangeExact.
Context {L : ScalarLimits}.

(** Both ends hold feature values: the loop computes their minimum and
    their maximum. *)
Lemma adaptive_fold_integers (feature : ImageFeature.t) (samples : list ImageSample)
    (a b : Z) :
  fold_left (adaptive_step feature) samples (inject_Z a, inject_Z b)
  = (inject_Z (fold_left Z.min (feature_values feature samples) a),
     inject_Z (fold_left Z.max (feature_values feature samples) b)).
Proof.
  revert a b. induction samples as [| s samples IH]; intros a b; simpl; [reflexivity |].
  unfold adaptive_step at 2. cbn [fst snd].
  rewrite !scalar_ltb_inject.
  set (v := ImageFeature.compute_pixel_difference feature s).
  replace (if v <? a then inject_Z v else inject_Z a) with (inject_Z (Z.min a v))
    by (destruct (Z.ltb_spec v a); [rewrite Z.min_r by lia | rewrite Z.min_l by lia];
        reflexivity).
  replace (if b <? v then inject_Z v else inject_Z b) with (inject_Z (Z.max b v))
    by (destruct (Z.ltb_spec b v); [rewrite Z.max_r by lia | rewrite Z.max_l by lia];
        reflexivity).
  apply IH.
Qed.

(** The upper end still holds [min()]: it is replaced by the first value
    that is positive. *)
Lemma adaptive_fold_from_min (feature : ImageFeature.t) (samples : list ImageSample)
    (a : Z) :
  floating_limits L ->
  fold_left (adaptive_step feature) samples (inject_Z a, numeric_limits_min)
  = (inject_Z (fold_left Z.min (feature_values feature samples) a),
     if 1 <=? fold_left Z.max (feature_values feature samples) 0
     then inject_Z (fold_left Z.max (feature_values feature samples) 0)
     else numeric_limits_min).
Proof.
  intros (Hpos & Hone & Hmax). revert a.
  induction samples as [| s samples IH]; intros a; simpl; [reflexivity |].
  unfold adaptive_step at 2. cbn [fst snd].
  rewrite scalar_ltb_inject.
  set (v := ImageFeature.compute_pixel_difference feature s).
  replace (if v <? a then inject_Z v else inject_Z a) with (inject_Z (Z.min a v))
    by (destruct (Z.ltb_spec v a); [rewrite Z.min_r by lia | rewrite Z.min_l by lia];
        reflexivity).
  destruct (Z_le_gt_dec 1 v) as [Hv | Hv].
  - assert (E : scalar_ltb numeric_limits_min (inject_Z v) = true).
    { apply scalar_ltb_lt. eapply Qlt_le_trans; [exact Hone |].
      change 1%Q with (inject_Z 1). rewrite <- Zle_Qle. exact Hv. }
    rewrite E, adaptive_fold_integers. rewrite (Z.max_r 0 v) by lia.
    destruct (fold_max_spec (feature_values feature samples) v) as (_ & Hge & _).
    destruct (Z.leb_spec 1 (fold_left Z.max (feature_values feature samples) v));
      [reflexivity | lia].
  - assert (E : scalar_ltb numeric_limits_min (inject_Z v) = false).
    { apply scalar_ltb_ge. apply Qle_trans with (y := inject_Z 0).
      - rewrite <- Zle_Qle. lia.
      - apply Qlt_le_weak. exact Hpos. }
    rewrite E, (Z.max_l 0 v) by lia. apply IH.
Qed.

Lemma fold_max_of_max (l : list Z) (a b : Z) :
  fold_left Z.max l (Z.max a b) = Z.max (fold_left Z.max l a) (fold_left Z.max l b).
Proof.
  revert a b. induction l as [| x l IH]; intros a b; simpl; [reflexivity |].
  rewrite <- IH. f_equal. lia.
Qed.

(** The two ends after the loop over a range that is not empty: the least
    value, and the greatest one if it is positive. *)
Lemma adaptive_fold_nonempty (feature : ImageFeature.t) (s0 : ImageSample)
    (rest : list ImageSample) :
  floating_limits L ->
  let v0 := ImageFeature.compute_pixel_difference feature s0 in
  let values := feature_values feature rest in
  fold_left (adaptive_step feature) (s0 :: rest) (numeric_limits_max, numeric_limits_min)
  = (inject_Z (fold_left Z.min values v0),
     if 1 <=? fold_left Z.max values v0 then inject_Z (fold_left Z.max values v0)
     else numeric_limits_min).
Proof.
  intros HL v0 values. pose proof HL as (Hpos & Hone & Hmax).
  pose proof (pixel_difference_range feature s0) as Hv0. fold v0 in Hv0.
  assert (Hfirst : scalar_ltb (inject_Z v0) numeric_limits_max = true).
  { apply scalar_ltb_lt. eapply Qle_lt_trans; [| exact Hmax].
    rewrite <- Zle_Qle. lia. }
  simpl. unfold adaptive_step at 2. cbn [fst snd]. fold v0. rewrite Hfirst.
  destruct (Z_le_gt_dec 1 v0) as [Hp | Hn].
  - assert (E : scalar_ltb numeric_limits_min (inject_Z v0) = true).
    { apply scalar_ltb_lt. eapply Qlt_le_trans; [exact Hone |].
      change 1%Q with (inject_Z 1). rewrite <- Zle_Qle. exact Hp. }
    rewrite E. cbv iota.
    refine (eq_trans (adaptive_fold_integers feature rest v0 v0) _). fold values.
    destruct (fold_max_spec values v0) as (_ & Hge & _).
    destruct (Z.leb_spec 1 (fold_left Z.max values v0)); [reflexivity | lia].
  - assert (E : scalar_ltb numeric_limits_min (inject_Z v0) = false).
    { apply scalar_ltb_ge. apply Qle_trans with (y := inject_Z 0).
      - rewrite <- Zle_Qle. lia.
      - apply Qlt_le_weak. exact Hpos. }
    rewrite E. cbv iota.
    refine (eq_trans (adaptive_fold_from_min feature rest v0 HL) _). fold values.
    f_equal.
    pose proof (fold_max_of_max values 0 v0) as Hmm. rewrite (Z.max_l 0 v0) in Hmm by lia.
    destruct (fold_max_spec values 0) as (Hmem0 & Hge0 & Hall0).
    destruct (fold_max_spec values v0) as (Hmemv & Hgev & Hallv).
    destruct (Z.leb_spec 1 (fold_left Z.max values 0)) as [Hbig | Hsmall].
    + assert (Heq : fold_left Z.max values 0 = fold_left Z.max values v0).
      { destruct Hmem0 as [E0 | Hmem0]; [lia |].
        pose proof (Hallv _ Hmem0). lia. }
      rewrite <- Heq.
      destruct (Z.leb_spec 1 (fold_left Z.max values 0)); [reflexivity | lia].
    + destruct (Z.leb_spec 1 (fold_left Z.max values v0)); [lia | reflexivity].
Qed.

(** X8. What [compute_adaptive_threshold_range] returns, for a floating
    [scalar_type]. For no samples it is [(0, 0)]. Otherwise let [lo] and
    [hi] be the least and the greatest feature value of the samples: when
    [hi] is positive the range is [(lo, hi)], collapsed to [(0, 0)] when
    [lo = hi]; when no value is positive the upper end stays at
    [numeric_limits::min()] and the range is [(lo, min())]. *)
Theorem adaptive_range_characterised (feature : ImageFeature.t)
    (samples : list ImageSample) :
  floating_limits L ->
  (samples = [] -> compute_adaptive_threshold_range samples feature = (0%Q, 0%Q))
  /\ forall lo hi,
       lo ∈ feature_values feature samples ->
       hi ∈ feature_values feature samples ->
       (forall v, v ∈ feature_values feature samples -> lo <= v <= hi) ->
       compute_adaptive_threshold_range samples feature
       = if 1 <=? hi
         then (if lo <? hi then (inject_Z lo, inject_Z hi) else (0%Q, 0%Q))
         else (inject_Z lo, numeric_limits_min).
Proof.
  intros HL. pose proof HL as (Hpos & Hone & Hmax). split.
  - intros ->. unfold compute_adaptive_threshold_range. simpl.
    assert (E : Qle_bool numeric_limits_min numeric_limits_max = true).
    { rewrite Qle_bool_iff. apply Qlt_le_weak.
      eapply Qlt_trans; [exact Hone |]. eapply Qle_lt_trans; [| exact Hmax].
      change 1%Q with (inject_Z 1). rewrite <- Zle_Qle. lia. }
    rewrite E. reflexivity.
  - intros lo hi Hlo Hhi Hall.
    destruct samples as [| s0 rest]; [inversion Hlo |].
    unfold compute_adaptive_threshold_range. cbv zeta.
    rewrite (adaptive_fold_nonempty feature s0 rest HL). cbv zeta.
    set (v0 := ImageFeature.compute_pixel_difference feature s0) in *.
    set (values := feature_values feature rest) in *.
    change (feature_values feature (s0 :: rest)) with (v0 :: values) in *.
    destruct (fold_min_spec values v0) as (Hmin_mem & Hmin_le & Hmin_all).
    destruct (fold_max_spec values v0) as (Hmax_mem & Hmax_ge & Hmax_all).
    assert (Em : fold_left Z.min values v0 = lo).
    { assert (fold_left Z.min values v0 ∈ v0 :: values) as Hm
          by (destruct Hmin_mem as [-> | Hm]; [left | right; exact Hm]).
      pose proof (Hall _ Hm) as [H1 _].
      apply elem_of_cons in Hlo as [-> | Hlo]; [lia |].
      pose proof (Hmin_all _ Hlo). lia. }
    assert (EM : fold_left Z.max values v0 = hi).
    { assert (fold_left Z.max values v0 ∈ v0 :: values) as Hm
          by (destruct Hmax_mem as [-> | Hm]; [left | right; exact Hm]).
      pose proof (Hall _ Hm) as [_ H1].
      apply elem_of_cons in Hhi as [-> | Hhi]; [lia |].
      pose proof (Hmax_all _ Hhi). lia. }
    rewrite Em, EM. cbn [fst snd].
    assert (Hlohi : lo <= hi) by (rewrite <- Em, <- EM; lia).
    destruct (Z.leb_spec 1 hi) as [Hp | Hn].
    + destruct (Z.ltb_spec lo hi) as [Hlt | Hge].
      * assert (E : Qle_bool (inject_Z hi) (inject_Z lo) = false).
        { apply not_true_is_false. rewrite Qle_bool_iff, <- Zle_Qle. lia. }
        rewrite E. reflexivity.
      * assert (E : Qle_bool (inject_Z hi) (inject_Z lo) = true).
        { rewrite Qle_bool_iff, <- Zle_Qle. exact Hge. }
        rewrite E. reflexivity.
    + assert (E : Qle_bool numeric_limits_min (inject_Z lo) = false).
      { apply not_true_is_false. rewrite Qle_bool_iff. intros Hle.
        assert (inject_Z lo <= inject_Z 0)%Q by (rewrite <- Zle_Qle; lia).
        assert (numeric_limits_min <= inject_Z 0)%Q by (eapply Qle_trans; eassumption).
        apply (Qlt_not_le _ _ Hpos). assumption. }
      rewrite E. reflexivity.
Qed.

End AdaptiveRangeExact.

(** ** The slot of a candidate *)

Local Open Scope nat_scope.

Section RoutingProofs.
Context {S : Type} {statistics : Statistics S}.

Lemma route_sample_lookup (sample : ImageSample) (value : Z)
    (thresholds : list ImageThreshold.t) (statistics_index j : nat)
    (th : ImageThreshold.t) (ss : SplitStatistics S) :
  thresholds !! j = Some th ->
  let ss' := route_sample sample value thresholds statistics_index ss in
  get_left_statistics (statistics_index + j) ss'
  = (fun s => if ImageThreshold.left_direction th value then lazy_accumulate sample s else s)
      <$> get_left_statistics (statistics_index + j) ss
  /\ get_right_statistics (statistics_index + j) ss'
     = (fun s => if ImageThreshold.left_direction th value then s else lazy_accumulate sample s)
         <$> get_right_statistics (statistics_index + j) ss.
Proof.
  revert statistics_index j ss.
  induction thresholds as [| th0 rest IH]; intros idx j ss Hj; [inversion Hj |].
  destruct j as [| j'].
  - simpl in Hj. injection Hj as ->. cbn [route_sample]. cbv zeta.
    rewrite Nat.add_0_r.
    destruct (local_to_frame (Datatypes.S idx) (Datatypes.S idx + length rest) idx
                (route_sample sample value rest (Datatypes.S idx))
                (if ImageThreshold.left_direction th value
                 then update_left_statistics idx (lazy_accumulate sample) ss
                 else update_right_statistics idx (lazy_accumulate sample) ss)
                (route_sample_local _ _ _ _) ltac:(lia)) as [-> ->].
    unfold get_left_statistics, get_right_statistics.
    destruct (ImageThreshold.left_direction th value); simpl.
    + rewrite list_lookup_alter_eq. split; [reflexivity |].
      destruct (right_statistics_collection_ ss !! idx); reflexivity.
    + rewrite list_lookup_alter_eq. split; [| reflexivity].
      destruct (left_statistics_collection_ ss !! idx); reflexivity.
  - simpl in Hj. cbn [route_sample]. cbv zeta.
    replace (idx + Datatypes.S j') with (Datatypes.S idx + j') by lia.
    destruct (IH (Datatypes.S idx) j'
                (if ImageThreshold.left_direction th0 value
                 then update_left_statistics idx (lazy_accumulate sample) ss
                 else update_right_statistics idx (lazy_accumulate sample) ss) Hj)
      as [-> ->].
    unfold get_left_statistics, get_right_statistics.
    destruct (ImageThreshold.left_direction th0 value); simpl;
      rewrite list_lookup_alter_ne by lia; split; reflexivity.
Qed.

Lemma fold_left_conditional {A B : Type} (c : B -> bool) (f : B -> A -> A) (l : list B)
    (a : A) :
  fold_left (fun x b => if c b then f b x else x) l a
  = fold_left (fun x b => f b x) (List.filter c l) a.
Proof.
  revert a. induction l as [| b l IH]; intros a; simpl; [reflexivity |].
  destruct (c b); simpl; apply IH.
Qed.

Lemma routed_samples_lookup (samples : list ImageSample) (feature : ImageFeature.t)
    (thresholds : list ImageThreshold.t) (offset j : nat) (th : ImageThreshold.t)
    (ss : SplitStatistics S) :
  thresholds !! j = Some th ->
  let goes_left := fun sample =>
    ImageThreshold.left_direction th
      (ImageFeature.compute_pixel_difference feature sample) in
  let routed := fold_left (fun ss sample =>
      route_sample sample (ImageFeature.compute_pixel_difference feature sample)
        thresholds offset ss) samples ss in
  get_left_statistics (offset + j) routed
  = (fun s => fold_left (fun s sample => lazy_accumulate sample s)
                (List.filter goes_left samples) s)
      <$> get_left_statistics (offset + j) ss
  /\ get_right_statistics (offset + j) routed
     = (fun s => fold_left (fun s sample => lazy_accumulate sample s)
                   (List.filter (fun sample => negb (goes_left sample)) samples) s)
         <$> get_right_statistics (offset + j) ss.
Proof.
  intros Hj goes_left. revert ss.
  induction samples as [| sample samples IH]; intros ss; cbv zeta.
  - simpl. split.
    + destruct (get_left_statistics (offset + j) ss); reflexivity.
    + destruct (get_right_statistics (offset + j) ss); reflexivity.
  - cbn [fold_left]. cbv zeta in IH.
    destruct (IH (route_sample sample
                    (ImageFeature.compute_pixel_difference feature sample)
                    thresholds offset ss)) as [-> ->].
    destruct (route_sample_lookup sample
                (ImageFeature.compute_pixel_difference feature sample)
                thresholds offset j th ss Hj) as [-> ->].
    cbn [List.filter].
    change (goes_left sample)
      with (ImageThreshold.left_direction th
              (ImageFeature.compute_pixel_difference feature sample)).
    destruct (ImageThreshold.left_direction th
                (ImageFeature.compute_pixel_difference feature sample)); simpl; split.
    + destruct (get_left_statistics (offset + j) ss); reflexivity.
    + destruct (get_right_statistics (offset + j) ss); reflexivity.
    + destruct (get_left_statistics (offset + j) ss); reflexivity.
    + destruct (get_right_statistics (offset + j) ss); reflexivity.
Qed.

Lemma finish_loop_lookup (thresholds : list ImageThreshold.t) (offset k : nat)
    (ss : SplitStatistics S) :
  let flushes := if k =? offset then length thresholds else 0 in
  get_left_statistics k (finish_loop thresholds offset ss)
  = Nat.iter flushes finish_lazy_accumulation <$> get_left_statistics k ss
  /\ get_right_statistics k (finish_loop thresholds offset ss)
     = Nat.iter flushes finish_lazy_accumulation <$> get_right_statistics k ss.
Proof.
  cbv zeta. unfold finish_loop. revert ss.
  induction thresholds as [| th rest IH]; intros ss.
  - simpl. destruct (k =? offset); simpl; split.
    + destruct (get_left_statistics k ss); reflexivity.
    + destruct (get_right_statistics k ss); reflexivity.
    + destruct (get_left_statistics k ss); reflexivity.
    + destruct (get_right_statistics k ss); reflexivity.
  - cbn [fold_left]. cbv zeta.
    destruct (IH (update_right_statistics offset finish_lazy_accumulation
                    (update_left_statistics offset finish_lazy_accumulation ss)))
      as [-> ->].
    unfold get_left_statistics, get_right_statistics. simpl.
    destruct (Nat.eqb_spec k offset) as [Heq | Hne].
    + rewrite Heq, !list_lookup_alter_eq. split.
      * destruct (left_statistics_collection_ ss !! offset); simpl; [| reflexivity].
        rewrite <- Nat.iter_succ_r. reflexivity.
      * destruct (right_statistics_collection_ ss !! offset); simpl; [| reflexivity].
        rewrite <- Nat.iter_succ_r. reflexivity.
    + rewrite !list_lookup_alter_ne by congruence. split; reflexivity.
Qed.

Lemma compute_split_statistics_slot (samples : list ImageSample) (feature : ImageFeature.t)
    (thresholds : list ImageThreshold.t) (offset j : nat) (th : ImageThreshold.t)
    (ss : SplitStatistics S) :
  thresholds !! j = Some th ->
  let goes_left := fun sample =>
    ImageThreshold.left_direction th
      (ImageFeature.compute_pixel_difference feature sample) in
  let flushes := if j =? 0 then length thresholds else 0 in
  let ss' := _compute_split_statistics samples ss offset feature thresholds in
  get_left_statistics (offset + j) ss'
  = (fun s => Nat.iter flushes finish_lazy_accumulation
                (fold_left (fun s sample => lazy_accumulate sample s)
                   (List.filter goes_left samples) s))
      <$> get_left_statistics (offset + j) ss
  /\ get_right_statistics (offset + j) ss'
     = (fun s => Nat.iter flushes finish_lazy_accumulation
                   (fold_left (fun s sample => lazy_accumulate sample s)
                      (List.filter (fun sample => negb (goes_left sample)) samples) s))
         <$> get_right_statistics (offset + j) ss.
Proof.
  intros Hj goes_left flushes ss'. unfold ss', _compute_split_statistics. cbv zeta.
  destruct (finish_loop_lookup thresholds offset (offset + j)
              (fold_left (fun ss sample =>
                 route_sample sample (ImageFeature.compute_pixel_difference feature sample)
                   thresholds offset ss) samples ss)) as [-> ->].
  destruct (routed_samples_lookup samples feature thresholds offset j th ss Hj) as [-> ->].
  replace (offset + j =? offset) with (j =? 0)
    by (destruct (Nat.eqb_spec j 0), (Nat.eqb_spec (offset + j) offset); lia || reflexivity).
  fold flushes. split.
  - destruct (get_left_statistics (offset + j) ss); reflexivity.
  - destruct (get_right_statistics (offset + j) ss); reflexivity.
Qed.

Lemma fold_process_frame (n : nat) (samples : list ImageSample)
    (split_points : ImageSplitPointCandidates.t) (indices : list nat) (i k : nat)
    (ss : SplitStatistics S) :
  uniform_thresholds n split_points ->
  i * n <= k < i * n + n ->
  i ∉ indices ->
  let ss' := fold_left (process_split_point samples split_points) indices ss in
  get_left_statistics k ss' = get_left_statistics k ss
  /\ get_right_statistics k ss' = get_right_statistics k ss.
Proof.
  intros Hun Hk. revert ss. induction indices as [| i' indices IH]; intros ss Hni; cbv zeta.
  - split; reflexivity.
  - cbn [fold_left].
    apply not_elem_of_cons in Hni as [Hne Hni].
    destruct (IH (process_split_point samples split_points ss i') Hni) as [-> ->].
    apply (local_to_frame (i' * n) (i' * n + n) k
             (fun ss => process_split_point samples split_points ss i') ss
             (process_split_point_local n samples split_points i' Hun)).
    nia.
Qed.

(** X9. For a candidate set with [n] thresholds per feature,
    [compute_split_statistics] leaves in slot [i * n + j] of the left array
    the statistics obtained from a fresh one by [lazy_accumulate] of the
    samples whose value of feature [i] is below threshold [j], in the order
    of the samples, and in the same slot of the right array the one obtained
    from the other samples; the slot of the first threshold of a feature
    then receives [n] calls of [finish_lazy_accumulation], the other slots
    none. *)
Theorem compute_split_statistics_routes (n : nat) (samples : list ImageSample)
    (split_points : ImageSplitPointCandidates.t) (i j : nat) (feature : ImageFeature.t)
    (thresholds : list ImageThreshold.t) (th : ImageThreshold.t) :
  uniform_thresholds n split_points ->
  total_size_consistent split_points ->
  ImageSplitPointCandidates.candidates_ split_points !! i = Some (feature, thresholds) ->
  thresholds !! j = Some th ->
  let goes_left := fun sample =>
    ImageThreshold.left_direction th
      (ImageFeature.compute_pixel_difference feature sample) in
  let flushes := if j =? 0 then n else 0 in
  let split_statistics := compute_split_statistics samples split_points in
  get_left_statistics (i * n + j) split_statistics
  = Some (lazily_accumulated goes_left samples flushes)
  /\ get_right_statistics (i * n + j) split_statistics
     = Some (lazily_accumulated (fun sample => negb (goes_left sample)) samples flushes).
Proof.
  intros Hun Hc Hi Hj goes_left flushes split_statistics.
  assert (Hlen : length thresholds = n).
  { unfold uniform_thresholds in Hun. rewrite Forall_forall in Hun.
    exact (Hun _ (list_elem_of_lookup_2 _ _ _ Hi)). }
  pose proof (lookup_lt_Some _ _ _ Hi) as Hi_lt.
  pose proof (lookup_lt_Some _ _ _ Hj) as Hj_lt. rewrite Hlen in Hj_lt.
  set (size := length (ImageSplitPointCandidates.candidates_ split_points)) in *.
  assert (Htotal : ImageSplitPointCandidates.total_size split_points = size * n).
  { rewrite Hc. apply sum_lengths_uniform. exact Hun. }
  unfold split_statistics, compute_split_statistics.
  rewrite (serial_loop_as_fold samples split_points _ 0) by reflexivity. fold size.
  replace (seq 0 size) with (seq 0 i ++ i :: seq (Datatypes.S i) (size - i - 1)).
  2: { transitivity (seq 0 (i + Datatypes.S (size - i - 1))); [| f_equal; lia].
       rewrite seq_app. reflexivity. }
  rewrite fold_left_app. cbn [fold_left].
  set (before := fold_left (process_split_point samples split_points) (seq 0 i)
                   (make_split_statistics (ImageSplitPointCandidates.total_size split_points))).
  destruct (fold_process_frame n samples split_points (seq (Datatypes.S i) (size - i - 1))
              i (i * n + j) (process_split_point samples split_points before i) Hun
              ltac:(lia)) as [-> ->].
  { rewrite elem_of_seq. lia. }
  unfold process_split_point. rewrite Hi. cbv zeta. rewrite Hlen.
  destruct (compute_split_statistics_slot samples feature thresholds (i * n) j th before Hj)
    as [-> ->].
  rewrite Hlen. fold flushes. fold goes_left.
  destruct (fold_process_frame n samples split_points (seq 0 i) i (i * n + j)
              (make_split_statistics (ImageSplitPointCandidates.total_size split_points))
              Hun ltac:(lia)) as [Hl Hr].
  { rewrite elem_of_seq. lia. }
  fold before in Hl, Hr. rewrite Hl, Hr.
  unfold get_left_statistics, get_right_statistics, make_split_statistics. simpl.
  rewrite Htotal.
  assert (Hslot : i * n + j < size * n) by nia.
  rewrite !lookup_replicate_2 by exact Hslot.
  split; reflexivity.
Qed.

End RoutingProofs.

(** ** Thread counts, shards and batches *)

Local Open Scope nat_scope.

(** Cutting [size] items at [i * size / parts] gives every part the
    quotient or one more. *)
Lemma even_cut (i size parts : nat) :
  0 < parts ->
  size / parts <= (i + 1) * size / parts - i * size / parts <= size / parts + 1.
Proof.
  intros Hp.
  pose proof (Nat.div_mod_eq (i * size) parts) as Ha.
  pose proof (Nat.div_mod_eq ((i + 1) * size) parts) as Hb.
  pose proof (Nat.div_mod_eq size parts) as Hs.
  pose proof (Nat.mod_upper_bound (i * size) parts ltac:(lia)) as Hma.
  pose proof (Nat.mod_upper_bound ((i + 1) * size) parts ltac:(lia)) as Hmb.
  pose proof (Nat.mod_upper_bound size parts ltac:(lia)) as Hms.
  set (qa := i * size / parts) in *. set (qb := (i + 1) * size / parts) in *.
  set (q := size / parts) in *.
  set (ra := (i * size) mod parts) in *. set (rb := ((i + 1) * size) mod parts) in *.
  set (r := size mod parts) in *.
  assert (Hrel : parts * qb + rb = parts * qa + ra + parts * q + r) by lia.
  split.
  - assert (~ qb < qa + q) by nia. lia.
  - assert (~ qa + q + 1 < qb) by nia. lia.
Qed.

Section Fallback.
Context {S : Type} {statistics : Statistics S}.

(** X10. With [num_of_threads <= 0] the parallel accumulation starts as
    many threads as [std::thread::hardware_concurrency()] reports. For
    candidates with equally many thresholds per feature the result is that
    of [compute_split_statistics] in whatever order the threads run; when
    the hardware reports [0] no thread is started and the result is the
    array of fresh statistics, whatever the samples. *)
Theorem parallel_thread_count_fallback (hardware_concurrency n : nat)
    (samples : list ImageSample) (split_points : ImageSplitPointCandidates.t)
    (num_of_threads : Z) (schedule : list nat) :
  (num_of_threads <= 0)%Z ->
  uniform_thresholds n split_points ->
  schedule ≡ₚ seq 0 hardware_concurrency ->
  compute_split_statistics_parallel_scheduled hardware_concurrency samples split_points
    num_of_threads schedule
  = if hardware_concurrency =? 0
    then make_split_statistics (ImageSplitPointCandidates.total_size split_points)
    else compute_split_statistics samples split_points.
Proof.
  intros Hnt Hun Hperm.
  unfold compute_split_statistics_parallel_scheduled.
  apply Z.leb_le in Hnt. rewrite Hnt.
  destruct (Nat.eqb_spec hardware_concurrency 0) as [-> | Hpos].
  - simpl in Hperm. apply Permutation_nil_r in Hperm. rewrite Hperm. reflexivity.
  - unfold run_threads.
    rewrite (fold_left_commuting_permutation _ schedule (seq 0 hardware_concurrency) Hperm).
    + apply (run_threads_in_order samples split_points hardware_concurrency). lia.
    + intros x y a _ _. apply (thread_lambda_commute n). exact Hun.
Qed.

(** X11. The numbers of features that two threads of
    [compute_split_statistics_parallel] work on differ by at most one:
    every shard holds [size / num_of_threads] features or one more. *)
Theorem shards_are_balanced (split_points : ImageSplitPointCandidates.t)
    (num_of_threads thread_index : nat) :
  0 < num_of_threads ->
  let size := ImageSplitPointCandidates.size split_points in
  let split_point_index_begin := shard_bound thread_index size num_of_threads in
  let split_point_index_end := shard_bound (thread_index + 1) size num_of_threads in
  size / num_of_threads <= split_point_index_end - split_point_index_begin
                        <= size / num_of_threads + 1.
Proof.
  intros HT size b e. unfold b, e, shard_bound. apply even_cut. exact HT.
Qed.

End Fallback.

Section BalancedBatches.
Context {G : Type} {engine : RandomEngine G}.

Lemma draw_image_indices_length (count N : nat) (g : G) :
  length (fst (ImageSampleProvider.draw_image_indices count N g)) = count.
Proof.
  revert g. induction count as [| count IH]; intros g; simpl; [reflexivity |].
  destruct (uniform_int_distribution 0 (Z.of_nat N - 1) g) as [i g1].
  specialize (IH g1). destruct (ImageSampleProvider.draw_image_indices count N g1).
  simpl in *. rewrite IH. reflexivity.
Qed.

Lemma sorted_bag_length (p : ImageSampleProvider.t) (g : G) :
  length (ImageSampleProvider.sorted_bag p g)
  = Z.to_nat (ImageSampleProvider.num_of_images_per_bag p).
Proof.
  unfold ImageSampleProvider.sorted_bag.
  rewrite (Permutation_length (merge_sort_Permutation Nat.le _)).
  apply draw_image_indices_length.
Qed.

(** X12. The sizes of the batches of [compute_sample_bag_batches] differ by
    at most one: with [M] indices in the bag, every batch holds
    [M / num_of_batches] indices or one more. *)
Theorem sample_bag_batches_are_balanced (p : ImageSampleProvider.t)
    (num_of_batches : nat) (g : G) (batch : list nat) :
  0 < num_of_batches ->
  batch ∈ fst (ImageSampleProvider.compute_sample_bag_batches p num_of_batches g) ->
  let M := Z.to_nat (ImageSampleProvider.num_of_images_per_bag p) in
  M / num_of_batches <= length batch <= M / num_of_batches + 1.
Proof.
  intros HB Hin M. unfold ImageSampleProvider.compute_sample_bag_batches in Hin.
  cbv zeta in Hin. cbn [fst] in Hin.
  apply list_elem_of_In, in_map_iff in Hin as (i & <- & Hi).
  apply in_seq in Hi. fold M.
  set (s := ImageSampleProvider.compute_batch_start_index i num_of_batches M).
  set (e := ImageSampleProvider.compute_batch_start_index (i + 1) num_of_batches M).
  assert (He : e <= M).
  { pose proof (batch_start_index_mono (i + 1) num_of_batches num_of_batches M
                  ltac:(lia)) as Hle.
    rewrite (batch_start_index_last num_of_batches M HB) in Hle. exact Hle. }
  assert (Hs : s <= e) by (apply batch_start_index_mono; lia).
  rewrite length_take, length_drop, sorted_bag_length. fold M.
  replace ((e - s) `min` (M - s)) with (e - s) by lia.
  unfold e, s, ImageSampleProvider.compute_batch_start_index.
  apply even_cut. exact HB.
Qed.

End BalancedBatches.

(** ** Samples, cache and bag of the provider *)

Local Open Scope nat_scope.

Lemma flat_map_bind {A B : Type} (f : A -> list B) (l : list A) : flat_map f l = l ≫= f.
Proof. induction l as [| x l IH]; simpl; [reflexivity | rewrite IH; reflexivity]. Qed.

Lemma fmap_of_bind {A B C : Type} (f : B -> C) (g : A -> list B) (l : list A) :
  f <$> (l ≫= g) = l ≫= (fun x => f <$> g x).
Proof.
  induction l as [| x l IH]; [reflexivity |].
  change ((x :: l) ≫= g) with (g x ++ (l ≫= g)).
  rewrite fmap_app, IH. reflexivity.
Qed.

Lemma make_sample_coordinates (image : Image) (x y : nat) :
  (Z.of_nat x < 32768)%Z -> (Z.of_nat y < 32768)%Z ->
  coordinates (make_sample image (Z.of_nat x) (Z.of_nat y)) = (Z.of_nat x, Z.of_nat y).
Proof.
  intros Hx Hy. unfold coordinates, make_sample, get_x, get_y. simpl.
  rewrite !to_int16_in_range; [reflexivity | |];
    unfold in_int16, int16_min, int16_max; lia.
Qed.

Lemma non_background_elem (image : Image) (background : Z) (s : ImageSample) :
  s ∈ ImageSampleProvider.non_background image background
  <-> exists x y, x < width image /\ y < height image
                  /\ s = make_sample image (Z.of_nat x) (Z.of_nat y)
                  /\ get_label s <> background.
Proof.
  unfold ImageSampleProvider.non_background. rewrite list_elem_of_In, in_flat_map. split.
  - intros (x & Hx & Hin). apply in_flat_map in Hin as (y & Hy & Hin).
    apply in_seq in Hx, Hy. cbv zeta in Hin.
    destruct (bool_decide (get_label (make_sample image (Z.of_nat x) (Z.of_nat y))
                           = background)) eqn:E; [inversion Hin |].
    destruct Hin as [<- | []]. exists x, y. repeat split; try lia.
    apply bool_decide_eq_false in E. exact E.
  - intros (x & y & Hx & Hy & -> & Hl). exists x. split; [apply in_seq; lia |].
    apply in_flat_map. exists y. split; [apply in_seq; lia |]. cbv zeta.
    rewrite bool_decide_eq_false_2 by exact Hl. left. reflexivity.
Qed.

Lemma non_background_foreground (image : Image) (background : Z) (s : ImageSample) :
  image_fits_offsets image ->
  s ∈ ImageSampleProvider.non_background image background ->
  foreground_sample image background s.
Proof.
  intros [HW HH] Hin. apply non_background_elem in Hin as (x & y & Hx & Hy & -> & Hl).
  pose proof (make_sample_coordinates image x y ltac:(lia) ltac:(lia)) as Hc.
  unfold coordinates in Hc. injection Hc as Hcx Hcy.
  unfold foreground_sample, get_x, get_y, get_image. cbn [make_sample x_ y_ image_ptr_].
  split; [reflexivity |]. split; [rewrite Hcx; lia |]. split; [rewrite Hcy; lia | exact Hl].
Qed.

Lemma non_background_distinct (image : Image) (background : Z) :
  image_fits_offsets image ->
  NoDup (map coordinates (ImageSampleProvider.non_background image background)).
Proof.
  intros [HW HH]. unfold ImageSampleProvider.non_background.
  rewrite !flat_map_bind.
  change (map coordinates ?l) with (coordinates <$> l).
  rewrite fmap_of_bind.
  assert (Hinner : forall x c,
             x < width image ->
             c ∈ coordinates <$>
                   (seq 0 (height image) ≫= fun y =>
                      let sample := make_sample image (Z.of_nat x) (Z.of_nat y) in
                      if bool_decide (get_label sample = background) then [] else [sample]) ->
             exists y, y < height image /\ c = (Z.of_nat x, Z.of_nat y)).
  { intros x c Hx Hc. apply list_elem_of_fmap in Hc as (s & -> & Hs).
    apply list_elem_of_bind in Hs as (y & Hs & Hy). apply elem_of_seq in Hy.
    cbv zeta in Hs. destruct (bool_decide _); [inversion Hs |].
    apply list_elem_of_singleton in Hs as ->. exists y. split; [lia |].
    apply make_sample_coordinates; lia. }
  apply NoDup_bind.
  - intros x1 x2 c Hx1 Hx2 Hc1 Hc2. apply elem_of_seq in Hx1, Hx2.
    destruct (Hinner x1 c ltac:(lia) Hc1) as (y1 & _ & ->).
    destruct (Hinner x2 _ ltac:(lia) Hc2) as (y2 & _ & Heq).
    injection Heq as Heq _. lia.
  - intros x Hx. apply elem_of_seq in Hx. rewrite fmap_of_bind.
    apply NoDup_bind.
    + intros y1 y2 c Hy1 Hy2 Hc1 Hc2. apply elem_of_seq in Hy1, Hy2.
      cbv zeta in Hc1, Hc2.
      destruct (bool_decide _) in Hc1; [inversion Hc1 |].
      destruct (bool_decide _) in Hc2; [inversion Hc2 |].
      simpl in Hc1, Hc2. apply list_elem_of_singleton in Hc1, Hc2. subst c.
      rewrite !make_sample_coordinates in Hc2 by lia. injection Hc2 as Heq. lia.
    + intros y Hy. cbv zeta. destruct (bool_decide _); simpl; [constructor |].
      apply NoDup_singleton.
    + apply NoDup_seq.
  - apply NoDup_seq.
Qed.

Section ProviderProofs.
Context {G : Type} {engine : RandomEngine G}.

Import ImageSampleProvider.

Lemma load_samples_from_image_spec (ndebug : bool) (index : nat) (p : t) (g : G)
    (image : Image) :
  images p !! index = Some image ->
  cache_coherent p ->
  exists p1,
    load_samples_from_image ndebug index p g
    = Returns (with_samples p1 (samples_ p ++ fst (samples_from_image (parameters_ p) image g)),
               snd (samples_from_image (parameters_ p) image g))
    /\ images p1 = images p /\ parameters_ p1 = parameters_ p
    /\ image_map_ p1 = <[index := image]> (image_map_ p)
    /\ cache_coherent p1.
Proof.
  intros Himg Hco. unfold load_samples_from_image, ensure_image_is_loaded.
  destruct (image_map_ p !! index) as [cached |] eqn:Emap.
  - pose proof (Hco _ _ Emap) as Hc. rewrite Himg in Hc. injection Hc as <-.
    simpl. rewrite Emap.
    destruct (samples_from_image (parameters_ p) image g) as [new g'].
    exists p. split; [reflexivity |]. split; [reflexivity |]. split; [reflexivity |].
    split; [symmetry; apply insert_id; exact Emap | exact Hco].
  - unfold get_image, MemoryImageProvider.get_image, assert.
    pose proof (lookup_lt_Some _ _ _ Himg) as Hlt.
    assert (Hb : (index <? length (images p)) = true) by (apply Nat.ltb_lt; exact Hlt).
    rewrite Hb, orb_true_r. simpl. rewrite Himg. simpl. rewrite lookup_insert_eq.
    destruct (samples_from_image (parameters_ p) image g) as [new g'].
    eexists. split; [reflexivity |]. simpl.
    split; [reflexivity |]. split; [reflexivity |]. split; [reflexivity |].
    intros i img Hi. simpl in Hi. destruct (decide (index = i)) as [-> | Hne].
    + rewrite lookup_insert_eq in Hi. injection Hi as <-. exact Himg.
    + rewrite lookup_insert_ne in Hi by exact Hne. apply Hco. exact Hi.
Qed.

(** X13. [load_samples_from_image], for a fraction that is not negative,
    an index the provider has and an image whose coordinates are
    [offset_type] values, returns and appends to the samples at most as
    many samples as the image has non-background pixels (with a fraction
    below one: the smaller of that number and [round(f*W*H)], the two
    products being those of [double]); each appended sample is a sample of
    that image, at a position inside it, whose label is not the background
    label. *)
Theorem load_samples_from_image_foreground (ndebug : bool) (index : nat) (p : t) (g : G)
    (image : Image) :
  (0 <= samples_per_image_fraction (parameters_ p))%Q ->
  images p !! index = Some image ->
  cache_coherent p ->
  image_fits_offsets image ->
  exists p' g' new,
    load_samples_from_image ndebug index p g = Returns (p', g')
    /\ samples_ p' = samples_ p ++ new
    /\ length new <= length (non_background image (background_label (parameters_ p)))
    /\ ((samples_per_image_fraction (parameters_ p) < 1)%Q ->
        length new
        = Nat.min (Z.to_nat
                     (round (double_product
                               (double_product (samples_per_image_fraction (parameters_ p))
                                  (double_of_integer (Z.of_nat (width image))))
                               (double_of_integer (Z.of_nat (height image))))))
                  (length (non_background image (background_label (parameters_ p)))))
    /\ Forall (foreground_sample image (background_label (parameters_ p))) new.
Proof.
  intros _ Himg Hco Hfit.
  destruct (load_samples_from_image_spec ndebug index p g image Himg Hco)
    as (p1 & Hload & _).
  eexists _, _, _. split; [exact Hload |]. split; [reflexivity |].
  destruct (Qlt_le_dec (samples_per_image_fraction (parameters_ p)) 1) as [Hlt | Hge].
  - destruct (samples_from_image_count (parameters_ p) image g Hlt) as [Hlen Hsub].
    split; [rewrite Hlen; lia |]. split; [intros _; exact Hlen |].
    apply Forall_forall. intros s Hs.
    apply non_background_foreground; [exact Hfit | exact (Hsub _ Hs)].
  - unfold samples_from_image.
    assert (E : scalar_ltb (samples_per_image_fraction (parameters_ p)) 1%Q = false)
      by (apply scalar_ltb_ge; exact Hge).
    rewrite E. cbn [fst].
    split; [lia |]. split.
    + intros Hlt. exfalso. exact (Qlt_not_le _ _ Hlt Hge).
    + apply Forall_forall. intros s Hs. apply non_background_foreground; assumption.
Qed.

(** X14. With a fraction of one or more, [load_samples_from_image] leaves
    the engine as it was and appends the non-background pixels of the
    image, each position once: the coordinates of the appended samples are
    pairwise different and every position of the image whose label is not
    the background label is among them. *)
Theorem load_samples_from_image_without_subsampling (ndebug : bool) (index : nat) (p : t)
    (g : G) (image : Image) :
  images p !! index = Some image ->
  cache_coherent p ->
  image_fits_offsets image ->
  (1 <= samples_per_image_fraction (parameters_ p))%Q ->
  exists p',
    load_samples_from_image ndebug index p g = Returns (p', g)
    /\ samples_ p'
       = samples_ p ++ non_background image (background_label (parameters_ p))
    /\ NoDup (map coordinates (non_background image (background_label (parameters_ p))))
    /\ forall x y,
         x < width image -> y < height image ->
         coeff (label_matrix_ image) (Z.of_nat x) (Z.of_nat y)
           <> background_label (parameters_ p) ->
         (Z.of_nat x, Z.of_nat y)
           ∈ map coordinates (non_background image (background_label (parameters_ p))).
Proof.
  intros Himg Hco Hfit Hge.
  destruct (load_samples_from_image_spec ndebug index p g image Himg Hco)
    as (p1 & Hload & _).
  assert (E : scalar_ltb (samples_per_image_fraction (parameters_ p)) 1%Q = false)
    by (apply scalar_ltb_ge; exact Hge).
  unfold samples_from_image in Hload. rewrite E in Hload. cbn [fst snd] in Hload.
  eexists. split; [exact Hload |]. split; [reflexivity |].
  split; [apply non_background_distinct; exact Hfit |].
  intros x y Hx Hy Hl. destruct Hfit as [HW HH].
  rewrite <- (make_sample_coordinates image x y) by lia.
  apply list_elem_of_In, in_map, list_elem_of_In, non_background_elem.
  exists x, y. split; [exact Hx |]. split; [exact Hy |]. split; [reflexivity |].
  unfold get_label, make_sample. simpl.
  rewrite !to_int16_in_range; [exact Hl | |];
    unfold in_int16, int16_min, int16_max; lia.
Qed.

Lemma resolve_coherent (p : t) (i : nat) :
  cache_coherent p -> resolve (image_map_ p) (images p) i = images p !! i.
Proof.
  intros Hco. unfold resolve. destruct (image_map_ p !! i) as [image |] eqn:E;
    [symmetry; exact (Hco _ _ E) | reflexivity].
Qed.

Lemma ensure_image_is_loaded_from_keeps (ndebug : bool) (index : nat)
    (old_image_map : gmap nat Image) (p p1 : t) :
  ensure_image_is_loaded_from ndebug index old_image_map p = Returns p1 ->
  images p1 = images p /\ parameters_ p1 = parameters_ p.
Proof.
  unfold ensure_image_is_loaded_from.
  destruct (image_map_ p !! index); [intros [= <-]; split; reflexivity |].
  destruct (old_image_map !! index); [intros [= <-]; split; reflexivity |].
  unfold get_image. destruct (MemoryImageProvider.get_image ndebug (images p) index);
    simpl; try discriminate.
  intros [= <-]. split; reflexivity.
Qed.

Lemma load_samples_from_image_keeps (ndebug : bool) (index : nat) (p p2 : t) (g g2 : G) :
  load_samples_from_image ndebug index p g = Returns (p2, g2) ->
  images p2 = images p /\ parameters_ p2 = parameters_ p.
Proof.
  unfold load_samples_from_image, ensure_image_is_loaded.
  destruct (image_map_ p !! index) eqn:E.
  - simpl. rewrite E. destruct (samples_from_image _ _ g). intros [= <- _].
    split; reflexivity.
  - unfold get_image. destruct (MemoryImageProvider.get_image ndebug (images p) index);
      simpl; try discriminate.
    rewrite lookup_insert_eq. destruct (samples_from_image _ _ g). intros [= <- _].
    split; reflexivity.
Qed.

Lemma load_sample_batch_loop_keeps (ndebug : bool) (batch : list nat)
    (old_image_map : gmap nat Image) (p p' : t) (g g' : G) :
  load_sample_batch_loop ndebug batch old_image_map p g = Returns (p', g') ->
  images p' = images p /\ parameters_ p' = parameters_ p.
Proof.
  revert p g. induction batch as [| index rest IH]; intros p g; simpl.
  - intros [= <- _]. split; reflexivity.
  - destruct (ensure_image_is_loaded_from ndebug index old_image_map p) as [p1 | | |] eqn:E1;
      simpl; try discriminate.
    destruct (load_samples_from_image ndebug index p1 g) as [[p2 g2] | | |] eqn:E2;
      simpl; try discriminate.
    intros Hloop. destruct (IH _ _ Hloop) as [Hi Hp].
    destruct (ensure_image_is_loaded_from_keeps _ _ _ _ _ E1) as [Hi1 Hp1].
    destruct (load_samples_from_image_keeps _ _ _ _ _ _ E2) as [Hi2 Hp2].
    split; congruence.
Qed.

Lemma load_sample_batch_spec (ndebug : bool) (batch : list nat) (p : t) (g : G) :
  Forall (fun i => i < length (images p)) batch ->
  cache_coherent p ->
  exists p' loaded,
    load_sample_batch ndebug batch p g
    = Returns (p', snd (batch_samples (parameters_ p) (fun i => images p !! i) batch g))
    /\ samples_ p' = fst (batch_samples (parameters_ p) (fun i => images p !! i) batch g)
    /\ images p' = images p /\ parameters_ p' = parameters_ p
    /\ provider_calls p' = provider_calls p ++ loaded
    /\ (forall i, i ∈ loaded <-> i ∈ batch /\ image_map_ p !! i = None)
    /\ (forall i, image_map_ p' !! i = if decide (i ∈ batch) then images p !! i else None).
Proof.
  intros Hall Hco. unfold load_sample_batch.
  set (p0 := with_image_map (clear_samples p) ∅).
  assert (Hcache : cache_within (image_map_ p) p0).
  { intros i image Hi. unfold p0 in Hi. simpl in Hi. rewrite lookup_empty in Hi.
    discriminate. }
  destruct (load_sample_batch_loop_spec ndebug batch (image_map_ p) p0 g Hall Hcache)
    as (p' & loaded & Hloop & Hsamples & Hcalls & Hnodup & Hmem & Hmap).
  simpl in Hloop, Hsamples, Hcalls, Hmem, Hmap.
  assert (Hlookup : forall l g0,
             batch_samples (parameters_ p) (resolve (image_map_ p) (images p)) l g0
             = batch_samples (parameters_ p) (fun i => images p !! i) l g0).
  { induction l as [| i l IH]; intros g0; simpl; [reflexivity |].
    rewrite (resolve_coherent p i Hco). destruct (images p !! i); [| reflexivity].
    destruct (samples_from_image (parameters_ p) i0 g0) as [s g1]. rewrite IH.
    reflexivity. }
  rewrite Hlookup in Hloop, Hsamples.
  destruct (load_sample_batch_loop_keeps _ _ _ _ _ _ _ Hloop) as [Hi Hp].
  exists p', loaded.
  split; [exact Hloop |]. split; [exact Hsamples |]. split; [exact Hi |].
  split; [exact Hp |]. split; [exact Hcalls |]. split.
  - intros i. rewrite Hmem, lookup_empty. tauto.
  - intros i. rewrite Hmap, lookup_empty, (resolve_coherent p i Hco). reflexivity.
Qed.

(** X15. After [load_sample_batch] the image map holds the provider's
    image for each index of the batch and nothing else, whatever it held
    before; and a batch loaded next whose indices all occurred in this one
    is served from the map, without any call of the provider. *)
Theorem load_sample_batch_cache (ndebug : bool) (batch : list nat) (p : t) (g : G) :
  Forall (fun i => i < length (images p)) batch ->
  cache_coherent p ->
  exists p' g',
    load_sample_batch ndebug batch p g = Returns (p', g')
    /\ (forall i, image_map_ p' !! i = if decide (i ∈ batch) then images p !! i else None)
    /\ cache_coherent p'
    /\ forall next g2,
         (forall i, i ∈ next -> i ∈ batch) ->
         exists p'' g'',
           load_sample_batch ndebug next p' g2 = Returns (p'', g'')
           /\ provider_calls p'' = provider_calls p'.
Proof.
  intros Hall Hco.
  destruct (load_sample_batch_spec ndebug batch p g Hall Hco)
    as (p' & loaded & Hload & _ & Hi & _ & _ & _ & Hmap).
  assert (Hco' : cache_coherent p').
  { intros i image Him. rewrite Hmap in Him. rewrite Hi.
    destruct (decide (i ∈ batch)); [exact Him | discriminate]. }
  eexists p', _. split; [exact Hload |]. split; [exact Hmap |]. split; [exact Hco' |].
  intros next g2 Hsub.
  assert (Hall' : Forall (fun i => i < length (images p')) next).
  { apply Forall_forall. intros i Hin. rewrite Hi.
    rewrite Forall_forall in Hall. exact (Hall _ (Hsub _ Hin)). }
  destruct (load_sample_batch_spec ndebug next p' g2 Hall' Hco')
    as (p'' & loaded' & Hload' & _ & _ & _ & Hcalls' & Hmem' & _).
  eexists p'', _. split; [exact Hload' |].
  assert (Hnil : loaded' = []).
  { destruct loaded' as [| i rest]; [reflexivity |]. exfalso.
    destruct (proj1 (Hmem' i) ltac:(left)) as [Hin Hnone].
    rewrite Hmap, decide_True in Hnone by exact (Hsub _ Hin).
    rewrite Forall_forall in Hall.
    pose proof (lookup_lt_is_Some_2 _ _ (Hall _ (Hsub _ Hin))) as [img Himg].
    rewrite Himg in Hnone. discriminate. }
  rewrite Hcalls', Hnil, app_nil_r. reflexivity.
Qed.

(** X16. With a fraction of one or more, [load_sample_batch] leaves the
    engine as it was, and the samples are the non-background pixels of the
    images of the batch, image after image in the order of the batch. *)
Theorem load_sample_batch_without_subsampling (ndebug : bool) (batch : list nat) (p : t)
    (g : G) :
  Forall (fun i => i < length (images p)) batch ->
  cache_coherent p ->
  (1 <= samples_per_image_fraction (parameters_ p))%Q ->
  exists p',
    load_sample_batch ndebug batch p g = Returns (p', g)
    /\ samples_ p'
       = concat (map (fun i => match images p !! i with
                               | Some image =>
                                   non_background image (background_label (parameters_ p))
                               | None => []
                               end) batch).
Proof.
  intros Hall Hco Hge.
  destruct (load_sample_batch_spec ndebug batch p g Hall Hco)
    as (p' & loaded & Hload & Hsamples & _).
  assert (E : scalar_ltb (samples_per_image_fraction (parameters_ p)) 1%Q = false)
    by (apply scalar_ltb_ge; exact Hge).
  assert (Hsome : Forall (fun i => is_Some (images p !! i)) batch).
  { eapply Forall_impl; [exact Hall |]. intros i Hi. apply lookup_lt_is_Some_2. exact Hi. }
  rewrite (batch_samples_without_subsampling (parameters_ p) (fun i => images p !! i)
             batch g E Hsome) in Hload, Hsamples.
  exists p'. split; [exact Hload | exact Hsamples].
Qed.

(** X22. After [clear_image_cache], [load_sample_batch] of a batch of
    indices the provider has calls the provider exactly once for every
    index that occurs in the batch, however often it occurs. *)
Theorem load_sample_batch_after_clear_image_cache (ndebug : bool) (batch : list nat)
    (p : t) (g : G) :
  Forall (fun i => i < length (images p)) batch ->
  exists p' g' loaded,
    load_sample_batch ndebug batch (clear_image_cache p) g = Returns (p', g')
    /\ provider_calls p' = provider_calls p ++ loaded
    /\ NoDup loaded
    /\ forall i, i ∈ loaded <-> i ∈ batch.
Proof.
  intros Hall. unfold load_sample_batch.
  set (p0 := with_image_map (clear_samples (clear_image_cache p)) ∅).
  assert (Hcache : cache_within (image_map_ (clear_samples (clear_image_cache p))) p0).
  { intros i image Hi. unfold p0 in Hi. simpl in Hi. rewrite lookup_empty in Hi.
    discriminate. }
  destruct (load_sample_batch_loop_spec ndebug batch
              (image_map_ (clear_samples (clear_image_cache p))) p0 g Hall Hcache)
    as (p' & loaded & Hloop & _ & Hcalls & Hnodup & Hmem & _).
  simpl in Hloop, Hcalls, Hmem.
  eexists p', _, loaded. split; [exact Hloop |]. split; [exact Hcalls |].
  split; [exact Hnodup |].
  intros i. rewrite Hmem, lookup_empty. tauto.
Qed.


End ProviderProofs.

(** ** The parts of a level *)

Local Open Scope nat_scope.

Lemma at_node_app_l {T : Type} (m1 m2 : list (nat * T)) (k : nat) :
  k ∈ map fst m1 ->
  LevelForestTrainer.at_node (m1 ++ m2) k = LevelForestTrainer.at_node m1 k.
Proof.
  unfold LevelForestTrainer.at_node.
  induction m1 as [| [k' v] m1 IH]; intros Hin; [inversion Hin |].
  simpl. destruct (decide (k' = k)) as [-> | Hne]; [reflexivity |].
  simpl in Hin. apply elem_of_cons in Hin as [-> | Hin]; [contradiction |].
  specialize (IH Hin).
  destruct (list_find (fun e => fst e = k) (m1 ++ m2)) as [[i [a b]] |];
    destruct (list_find (fun e => fst e = k) m1) as [[i' [a' b']] |]; simpl in *;
    congruence.
Qed.

Lemma at_node_app_r {T : Type} (m1 m2 : list (nat * T)) (k : nat) :
  k ∉ map fst m1 ->
  LevelForestTrainer.at_node (m1 ++ m2) k = LevelForestTrainer.at_node m2 k.
Proof.
  unfold LevelForestTrainer.at_node.
  induction m1 as [| [k' v] m1 IH]; intros Hnin; [reflexivity |].
  simpl in Hnin. apply not_elem_of_cons in Hnin as [Hne Hnin].
  simpl. rewrite decide_False by congruence.
  specialize (IH Hnin).
  destruct (list_find (fun e => fst e = k) (m1 ++ m2)) as [[i [a b]] |];
    destruct (list_find (fun e => fst e = k) m2) as [[i' [a' b']] |]; simpl in *;
    congruence.
Qed.

Section TreeSetters.
Context {S : Type}.

Lemma alter_alter_commute {A : Type} (f g : A -> A) (i j : nat) (l : list A) :
  (forall x, f (g x) = g (f x)) ->
  alter f i (alter g j l) = alter g j (alter f i l).
Proof.
  intros Hfg. apply list_eq. intros k.
  destruct (decide (i = k)) as [-> | Hi], (decide (j = k)) as [-> | Hj].
  - rewrite !list_lookup_alter_eq. destruct (l !! k); simpl; [rewrite Hfg |]; reflexivity.
  - rewrite list_lookup_alter_eq, !list_lookup_alter_ne, list_lookup_alter_eq by exact Hj.
    reflexivity.
  - rewrite list_lookup_alter_ne, !list_lookup_alter_eq, list_lookup_alter_ne by exact Hi.
    reflexivity.
  - rewrite !list_lookup_alter_ne by assumption. reflexivity.
Qed.

Lemma set_statistics_set_leaf (i j : nat) (s : S) (b : bool) (tree : list (Node S)) :
  set_statistics i s (set_leaf j b tree) = set_leaf j b (set_statistics i s tree).
Proof. apply alter_alter_commute. reflexivity. Qed.

Lemma set_statistics_set_split_point (i j : nat) (s : S) (sp : ImageSplitPoint.t)
    (tree : list (Node S)) :
  set_statistics i s (set_split_point j sp tree)
  = set_split_point j sp (set_statistics i s tree).
Proof. apply alter_alter_commute. reflexivity. Qed.

End TreeSetters.

Section LevelParts.
Context {L : ScalarLimits} {S : Type} {statistics : Statistics S}
        {G : Type} {engine : RandomEngine G}.
Variable ndebug : bool.
Variable multi_threading : bool.
Variable hardware_concurrency : nat.
Variable find_best_split_point_tuple : S -> SplitStatistics S -> nat * scalar_type.
Variable weak_learner_parameters : ImageWeakLearnerParameters.
Variable training_parameters_ : LevelTrainingParameters.

Import LevelForestTrainer.

Lemma set_statistics_apply_best_split_point (i : nat) (s : S) (tree : list (Node S))
    (entry : nat * (ImageSplitPoint.t * SplitInformation)) :
  set_statistics i s (apply_best_split_point training_parameters_ tree entry)
  = apply_best_split_point training_parameters_ (set_statistics i s tree) entry.
Proof.
  unfold apply_best_split_point.
  destruct (below_minimum _ _);
    rewrite !set_statistics_set_leaf, set_statistics_set_split_point; reflexivity.
Qed.

Lemma update_node_statistics_apply (statistics_batch : list (nat * S))
    (batch : list (nat * (ImageSplitPoint.t * SplitInformation))) (tree : list (Node S)) :
  update_node_statistics_batch statistics_batch
    (apply_best_split_point_batch training_parameters_ batch tree)
  = apply_best_split_point_batch training_parameters_ batch
      (update_node_statistics_batch statistics_batch tree).
Proof.
  unfold update_node_statistics_batch, apply_best_split_point_batch.
  revert tree. induction statistics_batch as [| [i s] rest IH]; intros tree;
    [reflexivity |].
  cbn [fold_left fst snd]. rewrite <- IH. f_equal.
  clear IH. revert tree. induction batch as [| e batch IHb]; intros tree; [reflexivity |].
  cbn [fold_left]. rewrite IHb. f_equal.
  apply set_statistics_apply_best_split_point.
Qed.

Lemma sample_split_points_batch_app (m1 m2 : list (nat * list ImageSample)) (g : G) :
  sample_split_points_batch weak_learner_parameters (m1 ++ m2) g
  = let (b1, g1) := sample_split_points_batch weak_learner_parameters m1 g in
    let (b2, g2) := sample_split_points_batch weak_learner_parameters m2 g1 in
    (b1 ++ b2, g2).
Proof.
  revert g. induction m1 as [| [k samples] m1 IH]; intros g.
  - simpl. destruct (sample_split_points_batch weak_learner_parameters m2 g). reflexivity.
  - cbn [app sample_split_points_batch].
    destruct (sample_split_points weak_learner_parameters samples g) as [c g0].
    rewrite IH.
    destruct (sample_split_points_batch weak_learner_parameters m1 g0) as [b1 g1].
    destruct (sample_split_points_batch weak_learner_parameters m2 g1) as [b2 g2].
    reflexivity.
Qed.

Lemma compute_split_statistics_batch_ext (m : list (nat * list ImageSample))
    (b b' : list (nat * ImageSplitPointCandidates.t)) :
  (forall k, k ∈ map fst m -> at_node b k = at_node b' k) ->
  compute_split_statistics_batch multi_threading hardware_concurrency training_parameters_
    m b
  = compute_split_statistics_batch multi_threading hardware_concurrency training_parameters_
      m b'.
Proof.
  induction m as [| [k samples] m IH]; intros Hext; [reflexivity |].
  cbn [compute_split_statistics_batch].
  rewrite (Hext k) by (simpl; left).
  rewrite IH by (intros k' Hk'; apply Hext; simpl; right; exact Hk').
  reflexivity.
Qed.

Lemma compute_split_statistics_batch_app (m1 m2 : list (nat * list ImageSample))
    (b : list (nat * ImageSplitPointCandidates.t)) :
  compute_split_statistics_batch multi_threading hardware_concurrency training_parameters_
    (m1 ++ m2) b
  = r1 ← compute_split_statistics_batch multi_threading hardware_concurrency
           training_parameters_ m1 b;
    r2 ← compute_split_statistics_batch multi_threading hardware_concurrency
           training_parameters_ m2 b;
    Returns (r1 ++ r2).
Proof.
  induction m1 as [| [k samples] m1 IH].
  - simpl.
    destruct (compute_split_statistics_batch multi_threading hardware_concurrency
                training_parameters_ m2 b); reflexivity.
  - cbn [app compute_split_statistics_batch]. rewrite IH.
    destruct (at_node b k); simpl; try reflexivity.
    destruct (compute_split_statistics_batch multi_threading hardware_concurrency
                training_parameters_ m1 b); simpl; try reflexivity.
    destruct (compute_split_statistics_batch multi_threading hardware_concurrency
                training_parameters_ m2 b); reflexivity.
Qed.

Lemma find_best_split_point_batch_ext
    (b b' : list (nat * ImageSplitPointCandidates.t)) (cs cs' : list (nat * S))
    (r : list (nat * SplitStatistics S)) :
  (forall k, k ∈ map fst r -> at_node b k = at_node b' k /\ at_node cs k = at_node cs' k) ->
  find_best_split_point_batch ndebug find_best_split_point_tuple b cs r
  = find_best_split_point_batch ndebug find_best_split_point_tuple b' cs' r.
Proof.
  induction r as [| [k ss] r IH]; intros Hext; [reflexivity |].
  cbn [find_best_split_point_batch].
  destruct (Hext k) as [-> ->]; [simpl; left |].
  rewrite IH by (intros k' Hk'; apply Hext; simpl; right; exact Hk').
  reflexivity.
Qed.

Lemma find_best_split_point_batch_app
    (b : list (nat * ImageSplitPointCandidates.t)) (cs : list (nat * S))
    (r1 r2 : list (nat * SplitStatistics S)) :
  find_best_split_point_batch ndebug find_best_split_point_tuple b cs (r1 ++ r2)
  = x1 ← find_best_split_point_batch ndebug find_best_split_point_tuple b cs r1;
    x2 ← find_best_split_point_batch ndebug find_best_split_point_tuple b cs r2;
    Returns (x1 ++ x2).
Proof.
  induction r1 as [| [k ss] r1 IH].
  - simpl.
    destruct (find_best_split_point_batch ndebug find_best_split_point_tuple b cs r2);
      reflexivity.
  - cbn [app find_best_split_point_batch]. rewrite IH.
    destruct (at_node b k) as [c | | |]; simpl; try reflexivity.
    destruct (at_node cs k) as [s | | |]; simpl; try reflexivity.
    destruct (ImageSplitPointCandidates.get_split_point ndebug c _); simpl; try reflexivity.
    destruct (num_of_samples_at (left_statistics_collection_ ss) _); simpl; try reflexivity.
    destruct (num_of_samples_at (right_statistics_collection_ ss) _); simpl;
      try reflexivity.
    destruct (find_best_split_point_batch ndebug find_best_split_point_tuple b cs r1);
      simpl; try reflexivity.
    destruct (find_best_split_point_batch ndebug find_best_split_point_tuple b cs r2);
      reflexivity.
Qed.

Lemma compute_statistics_batch_keys (m : list (nat * list ImageSample)) :
  map fst (compute_statistics_batch (statistics := statistics) m) = map fst m.
Proof.
  unfold compute_statistics_batch. rewrite map_map. reflexivity.
Qed.

Lemma compute_statistics_batch_app (m1 m2 : list (nat * list ImageSample)) :
  compute_statistics_batch (statistics := statistics) (m1 ++ m2)
  = compute_statistics_batch m1 ++ compute_statistics_batch m2.
Proof. unfold compute_statistics_batch. apply map_app. Qed.

Lemma update_node_statistics_batch_app (cs1 cs2 : list (nat * S)) (tree : list (Node S)) :
  update_node_statistics_batch (cs1 ++ cs2) tree
  = update_node_statistics_batch cs2 (update_node_statistics_batch cs1 tree).
Proof. unfold update_node_statistics_batch. apply fold_left_app. Qed.

(** A part that is trained after another one of the same level sees the
    tree the first one left, and nothing else of it. *)
Lemma train_tree_level_part_app (m1 m2 : list (nat * list ImageSample))
    (tree : list (Node S)) (current_level : nat) (g : G) :
  NoDup (map fst (m1 ++ m2)) ->
  train_tree_level_part ndebug multi_threading hardware_concurrency
    find_best_split_point_tuple weak_learner_parameters training_parameters_
    (m1 ++ m2) tree current_level g
  = p ← train_tree_level_part ndebug multi_threading hardware_concurrency
          find_best_split_point_tuple weak_learner_parameters training_parameters_
          m1 tree current_level g;
    train_tree_level_part ndebug multi_threading hardware_concurrency
      find_best_split_point_tuple weak_learner_parameters training_parameters_
      m2 (fst p) current_level (snd p).
Proof.
  intros Hnodup. rewrite map_app in Hnodup.
  apply NoDup_app in Hnodup as (Hnd1 & Hdisj & Hnd2).
  unfold train_tree_level_part. cbv zeta.
  rewrite compute_statistics_batch_app.
  set (cs1 := compute_statistics_batch m1). set (cs2 := compute_statistics_batch m2).
  assert (Hcs1 : map fst cs1 = map fst m1) by apply compute_statistics_batch_keys.
  assert (Hcs2 : map fst cs2 = map fst m2) by apply compute_statistics_batch_keys.
  rewrite update_node_statistics_batch_app.
  destruct (Z.of_nat current_level
            <? int_to_size_type (tree_depth training_parameters_))%Z eqn:Elevel.
  2: { reflexivity. }
  rewrite sample_split_points_batch_app.
  destruct (sample_split_points_batch_shape weak_learner_parameters m1 g) as [Hk1 _].
  destruct (sample_split_points_batch weak_learner_parameters m1 g) as [b1 g1].
  destruct (sample_split_points_batch_shape weak_learner_parameters m2 g1) as [Hk2 _].
  destruct (sample_split_points_batch weak_learner_parameters m2 g1) as [b2 g2] eqn:E2.
  cbn [fst] in Hk1, Hk2.
  rewrite compute_split_statistics_batch_app.
  rewrite (compute_split_statistics_batch_ext m1 (b1 ++ b2) b1)
    by (intros k Hk; apply at_node_app_l; rewrite Hk1; exact Hk).
  rewrite (compute_split_statistics_batch_ext m2 (b1 ++ b2) b2)
    by (intros k Hk; apply at_node_app_r; rewrite Hk1; intros Hin;
        exact (Hdisj _ Hin Hk)).
  destruct (compute_split_statistics_batch_returns multi_threading hardware_concurrency
              training_parameters_ m1 b1) as (r1 & Hr1 & Hrk1).
  { intros k Hk. rewrite Hk1. exact Hk. }
  destruct (compute_split_statistics_batch_returns multi_threading hardware_concurrency
              training_parameters_ m2 b2) as (r2 & Hr2 & Hrk2).
  { intros k Hk. rewrite Hk2. exact Hk. }
  rewrite Hr1, Hr2. simpl.
  rewrite find_best_split_point_batch_app.
  rewrite (find_best_split_point_batch_ext (b1 ++ b2) b1 (cs1 ++ cs2) cs1 r1).
  2: { intros k Hk. rewrite Hrk1 in Hk. split; apply at_node_app_l; congruence. }
  rewrite (find_best_split_point_batch_ext (b1 ++ b2) b2 (cs1 ++ cs2) cs2 r2).
  2: { intros k Hk. rewrite Hrk2 in Hk.
       split; apply at_node_app_r; [rewrite Hk1 | rewrite Hcs1];
         intros Hin; exact (Hdisj _ Hin Hk). }
  destruct (find_best_split_point_batch ndebug find_best_split_point_tuple b1 cs1 r1)
    as [x1 | | |]; simpl; try reflexivity.
  rewrite E2, Hr2. simpl.
  destruct (find_best_split_point_batch ndebug find_best_split_point_tuple b2 cs2 r2)
    as [x2 | | |]; simpl; try reflexivity.
  f_equal. f_equal.
  unfold apply_best_split_point_batch at 1. rewrite fold_left_app.
  fold (apply_best_split_point_batch training_parameters_ x1
          (update_node_statistics_batch cs2 (update_node_statistics_batch cs1 tree))).
  rewrite <- update_node_statistics_apply. reflexivity.
Qed.

Lemma train_tree_level_part_nil (tree : list (Node S)) (current_level : nat) (g : G) :
  train_tree_level_part ndebug multi_threading hardware_concurrency
    find_best_split_point_tuple weak_learner_parameters training_parameters_
    [] tree current_level g
  = Returns (tree, g).
Proof.
  unfold train_tree_level_part. simpl. destruct (_ <? _)%Z; reflexivity.
Qed.

Lemma get_sample_node_map_part_keys (m : list (nat * list ImageSample)) (a b : nat) :
  map fst (get_sample_node_map_part m a b) = seq a (b - a).
Proof.
  unfold get_sample_node_map_part. rewrite map_map. simpl. apply map_id.
Qed.

Lemma get_sample_node_map_part_split (m : list (nat * list ImageSample)) (a b c : nat) :
  a <= b <= c ->
  get_sample_node_map_part m a c
  = get_sample_node_map_part m a b ++ get_sample_node_map_part m b c.
Proof.
  intros Habc. unfold get_sample_node_map_part.
  replace (c - a) with ((b - a) + (c - b)) by lia.
  rewrite seq_app, map_app. replace (a + (b - a)) with b by lia. reflexivity.
Qed.

Lemma node_it_next_bounds (size : Z) (node_it level_end : nat) :
  node_it < level_end ->
  node_it < node_it_next (with_level_part_size training_parameters_ size) node_it level_end
  <= level_end.
Proof.
  intros Hlt. unfold node_it_next. cbn [with_level_part_size level_part_size].
  destruct (Z.ltb_spec 0 size) as [Hpos | Hneg]; [| lia].
  cbv zeta. destruct (Nat.ltb_spec level_end (node_it + Z.to_nat size)); lia.
Qed.

Lemma train_tree_level_part_any_size (size : Z) (m : list (nat * list ImageSample))
    (tree : list (Node S)) (current_level : nat) (g : G) :
  train_tree_level_part ndebug multi_threading hardware_concurrency
    find_best_split_point_tuple weak_learner_parameters
    (with_level_part_size training_parameters_ size) m tree current_level g
  = train_tree_level_part ndebug multi_threading hardware_concurrency
      find_best_split_point_tuple weak_learner_parameters training_parameters_
      m tree current_level g.
Proof. reflexivity. Qed.

Lemma train_tree_level_loop_whole (size : Z) (fuel : nat)
    (m : list (nat * list ImageSample)) (tree : list (Node S))
    (current_level node_it level_end : nat) (g : G) :
  level_end - node_it <= fuel ->
  train_tree_level_loop ndebug multi_threading hardware_concurrency
    find_best_split_point_tuple weak_learner_parameters
    (with_level_part_size training_parameters_ size)
    fuel m tree current_level node_it level_end g
  = Some (train_tree_level_part ndebug multi_threading hardware_concurrency
            find_best_split_point_tuple weak_learner_parameters training_parameters_
            (get_sample_node_map_part m node_it level_end) tree current_level g).
Proof.
  revert tree node_it g. induction fuel as [| fuel IH]; intros tree node_it g Hfuel.
  - simpl. destruct (Nat.ltb_spec node_it level_end) as [Hlt | Hge]; [lia |].
    unfold get_sample_node_map_part. replace (level_end - node_it) with 0 by lia.
    simpl. rewrite train_tree_level_part_nil. reflexivity.
  - cbn [train_tree_level_loop].
    destruct (Nat.ltb_spec node_it level_end) as [Hlt | Hge].
    + pose proof (node_it_next_bounds size node_it level_end Hlt) as Hnext.
      set (next := node_it_next (with_level_part_size training_parameters_ size)
                     node_it level_end) in *.
      cbv zeta.
      rewrite (get_sample_node_map_part_split m node_it next level_end) by lia.
      rewrite train_tree_level_part_app.
      2: { rewrite <- get_sample_node_map_part_split by lia.
           rewrite get_sample_node_map_part_keys. apply NoDup_seq. }
      rewrite train_tree_level_part_any_size.
      destruct (train_tree_level_part ndebug multi_threading hardware_concurrency
                  find_best_split_point_tuple weak_learner_parameters training_parameters_
                  (get_sample_node_map_part m node_it next) tree current_level g)
        as [[tree' g'] | | |]; simpl; try reflexivity.
      apply IH. lia.
    + unfold get_sample_node_map_part. replace (level_end - node_it) with 0 by lia.
      simpl. rewrite train_tree_level_part_nil. reflexivity.
Qed.

(** X18. [train_tree_level] ends, and [level_part_size] has no effect on
    what it does to the tree and to the engine, or on the error it stops
    with: for every part size the outcome is that of one call of
    [train_tree_level_part] on the whole level. *)
Theorem train_tree_level_any_part_size (size : Z) (m : list (nat * list ImageSample))
    (tree : list (Node S)) (current_level level_begin level_end : nat) (g : G) :
  train_tree_level ndebug multi_threading hardware_concurrency
    find_best_split_point_tuple weak_learner_parameters
    (with_level_part_size training_parameters_ size)
    m tree current_level level_begin level_end g
  = Some (train_tree_level_part ndebug multi_threading hardware_concurrency
            find_best_split_point_tuple weak_learner_parameters training_parameters_
            (get_sample_node_map_part m level_begin level_end) tree current_level g).
Proof.
  unfold train_tree_level. apply train_tree_level_loop_whole. lia.
Qed.

End LevelParts.

(** ** One part of a level *)

Local Open Scope nat_scope.


Section SplitStatisticsLengths.
Context {S : Type} {statistics : Statistics S}.







End SplitStatisticsLengths.

Section PartProofs.
Context {L : ScalarLimits} {S : Type} {statistics : Statistics S}
        {G : Type} {engine : RandomEngine G}.
Variable ndebug : bool.
Variable multi_threading : bool.
Variable hardware_concurrency : nat.
Variable find_best_split_point_tuple : S -> SplitStatistics S -> nat * scalar_type.
Variable weak_learner_parameters : ImageWeakLearnerParameters.
Variable training_parameters_ : LevelTrainingParameters.

Import LevelForestTrainer.

Lemma set_statistics_lookup (i k : nat) (s : S) (tree : list (Node S)) :
  set_statistics i s tree !! k
  = if decide (i = k)
    then (fun n => {| leaf_ := leaf_ n; split_point_ := split_point_ n;
                      statistics_ := s |}) <$> tree !! k
    else tree !! k.
Proof.
  unfold set_statistics. destruct (decide (i = k)) as [-> | Hne].
  - apply list_lookup_alter_eq.
  - apply list_lookup_alter_ne. exact Hne.
Qed.

Lemma update_node_statistics_batch_length (cs : list (nat * S)) (tree : list (Node S)) :
  length (update_node_statistics_batch cs tree) = length tree.
Proof.
  unfold update_node_statistics_batch. revert tree.
  induction cs as [| [i s] cs IH]; intros tree; [reflexivity |].
  simpl. rewrite IH. unfold set_statistics. apply length_alter.
Qed.

Lemma update_node_statistics_batch_flags (cs : list (nat * S)) (tree : list (Node S))
    (k : nat) :
  leaf_ <$> update_node_statistics_batch cs tree !! k = leaf_ <$> tree !! k
  /\ split_point_ <$> update_node_statistics_batch cs tree !! k
     = split_point_ <$> tree !! k.
Proof.
  unfold update_node_statistics_batch. revert tree.
  induction cs as [| [i s] cs IH]; intros tree; [split; reflexivity |].
  cbn [fold_left fst snd]. destruct (IH (set_statistics i s tree)) as [-> ->].
  rewrite set_statistics_lookup.
  destruct (decide (i = k)); [| split; reflexivity].
  destruct (tree !! k); split; reflexivity.
Qed.

Lemma update_node_statistics_batch_frame (cs : list (nat * S)) (tree : list (Node S))
    (k : nat) :
  k ∉ map fst cs -> update_node_statistics_batch cs tree !! k = tree !! k.
Proof.
  unfold update_node_statistics_batch. revert tree.
  induction cs as [| [i s] cs IH]; intros tree Hk; [reflexivity |].
  simpl in Hk. apply not_elem_of_cons in Hk as [Hne Hk].
  cbn [fold_left fst snd]. rewrite (IH _ Hk), set_statistics_lookup.
  rewrite decide_False by congruence. reflexivity.
Qed.

Lemma update_node_statistics_batch_lookup (cs : list (nat * S)) (tree : list (Node S))
    (i : nat) (s : S) :
  NoDup (map fst cs) -> (i, s) ∈ cs -> i < length tree ->
  statistics_ <$> update_node_statistics_batch cs tree !! i = Some s.
Proof.
  unfold update_node_statistics_batch. revert tree.
  induction cs as [| [i' s'] cs IH]; intros tree Hnd Hin Hlt; [inversion Hin |].
  simpl in Hnd. apply NoDup_cons in Hnd as [Hfresh Hnd].
  cbn [fold_left fst snd].
  apply elem_of_cons in Hin as [[= -> ->] | Hin].
  - fold (update_node_statistics_batch cs (set_statistics i' s' tree)).
    rewrite (update_node_statistics_batch_frame cs _ i' Hfresh), set_statistics_lookup.
    rewrite decide_True by reflexivity.
    destruct (lookup_lt_is_Some_2 tree i' Hlt) as [n ->]. reflexivity.
  - apply IH; [exact Hnd | exact Hin |].
    unfold set_statistics. rewrite length_alter. exact Hlt.
Qed.

Lemma apply_best_split_point_statistics (tree : list (Node S))
    (entry : nat * (ImageSplitPoint.t * SplitInformation)) (k : nat) :
  statistics_ <$> apply_best_split_point training_parameters_ tree entry !! k
  = statistics_ <$> tree !! k.
Proof.
  unfold apply_best_split_point.
  destruct (below_minimum _ _);
    rewrite !set_leaf_lookup, set_split_point_lookup;
    repeat (destruct (decide _)); destruct (tree !! k); reflexivity.
Qed.

Lemma apply_best_split_point_batch_statistics
    (batch : list (nat * (ImageSplitPoint.t * SplitInformation))) (tree : list (Node S))
    (k : nat) :
  statistics_ <$> apply_best_split_point_batch training_parameters_ batch tree !! k
  = statistics_ <$> tree !! k.
Proof.
  unfold apply_best_split_point_batch. revert tree.
  induction batch as [| e batch IH]; intros tree; [reflexivity |].
  simpl. rewrite IH. apply apply_best_split_point_statistics.
Qed.

Lemma find_best_split_point_batch_keys
    (b : list (nat * ImageSplitPointCandidates.t)) (cs : list (nat * S))
    (r : list (nat * SplitStatistics S))
    (best : list (nat * (ImageSplitPoint.t * SplitInformation))) :
  find_best_split_point_batch ndebug find_best_split_point_tuple b cs r = Returns best ->
  map fst best = map fst r.
Proof.
  revert best. induction r as [| [k ss] r IH]; intros best.
  - simpl. intros [= <-]. reflexivity.
  - cbn [find_best_split_point_batch].
    destruct (at_node b k) as [c | | |]; simpl; try discriminate.
    destruct (at_node cs k) as [s | | |]; simpl; try discriminate.
    destruct (ImageSplitPointCandidates.get_split_point ndebug c _); simpl;
      try discriminate.
    destruct (num_of_samples_at (left_statistics_collection_ ss) _); simpl;
      try discriminate.
    destruct (num_of_samples_at (right_statistics_collection_ ss) _); simpl;
      try discriminate.
    destruct (find_best_split_point_batch ndebug find_best_split_point_tuple b cs r)
      as [rest | | |]; simpl; try discriminate.
    intros [= <-]. simpl. rewrite (IH rest eq_refl). reflexivity.
Qed.


(** The entries of the batch of split statistics, node by node. *)
Lemma compute_split_statistics_batch_entries (m : list (nat * list ImageSample))
    (b : list (nat * ImageSplitPointCandidates.t)) (r : list (nat * SplitStatistics S)) :
  compute_split_statistics_batch multi_threading hardware_concurrency training_parameters_
    m b = Returns r ->
  Forall2 (fun em er =>
             fst er = fst em
             /\ exists c, at_node b (fst em) = Returns c
                          /\ snd er = node_split_statistics multi_threading
                                        hardware_concurrency training_parameters_
                                        (snd em) c)
    m r.
Proof.
  revert r. induction m as [| [k samples] m IH]; intros r.
  - simpl. intros [= <-]. constructor.
  - cbn [compute_split_statistics_batch].
    destruct (at_node b k) as [c | | |] eqn:Ec; simpl; try discriminate.
    destruct (compute_split_statistics_batch multi_threading hardware_concurrency
                training_parameters_ m b) as [rest | | |]; simpl; try discriminate.
    intros [= <-]. constructor; [| exact (IH rest eq_refl)].
    split; [reflexivity |]. exists c. split; [exact Ec | reflexivity].
Qed.

Lemma Forall2_keys {A B : Type} (R : nat * A -> nat * B -> Prop)
    (l : list (nat * A)) (k : list (nat * B)) :
  Forall2 R l k -> (forall x y, R x y -> fst y = fst x) -> map fst k = map fst l.
Proof.
  intros Hall Hkey. induction Hall as [| x y l k Hxy _ IH]; [reflexivity |].
  simpl. rewrite (Hkey _ _ Hxy), IH. reflexivity.
Qed.




(** What [train_tree_level_part] returns is the tree with the statistics
    updated and, above the last level, the best splits applied to it. *)
Lemma train_tree_level_part_returned (m : list (nat * list ImageSample))
    (tree tree' : list (Node S)) (current_level : nat) (g g' : G) :
  train_tree_level_part ndebug multi_threading hardware_concurrency
    find_best_split_point_tuple weak_learner_parameters training_parameters_
    m tree current_level g = Returns (tree', g') ->
  exists best,
    tree' = apply_best_split_point_batch training_parameters_ best
              (update_node_statistics_batch (compute_statistics_batch m) tree)
    /\ (forall k, k ∈ map fst best -> k ∈ map fst m)
    /\ ((0 <= tree_depth training_parameters_)%Z ->
        (tree_depth training_parameters_ <= Z.of_nat current_level)%Z ->
        best = [] /\ g' = g).
Proof.
  unfold train_tree_level_part. cbv zeta.
  destruct (Z.ltb_spec (Z.of_nat current_level)
              (int_to_size_type (tree_depth training_parameters_)))
    as [Hlt | Hge].
  - destruct (sample_split_points_batch weak_learner_parameters m g) as [b g1].
    destruct (compute_split_statistics_batch multi_threading hardware_concurrency
                training_parameters_ m b) as [r | | |] eqn:Er; simpl; try discriminate.
    assert (Hrk : map fst r = map fst m).
    { apply (Forall2_keys _ _ _ (compute_split_statistics_batch_entries m b r Er)).
      intros x y [Hxy _]. exact Hxy. }
    destruct (find_best_split_point_batch ndebug find_best_split_point_tuple b
                (compute_statistics_batch m) r) as [best | | |] eqn:Eb;
      simpl; try discriminate.
    intros [= <- <-]. exists best. split; [reflexivity |]. split.
    + intros k Hk. rewrite (find_best_split_point_batch_keys _ _ _ _ Eb), Hrk in Hk.
      exact Hk.
    + intros Hnn Hge. rewrite int_to_size_type_nonneg in Hlt by exact Hnn. lia.
  - intros [= <- <-]. exists []. split; [reflexivity |]. split.
    + intros k Hk. inversion Hk.
    + intros _ _. split; reflexivity.
Qed.

(** X19. When [train_tree_level_part] returns, the tree has as many nodes
    as before, every node of the frontier map that is in the tree holds
    the statistics accumulated from its own samples, and the statistics of
    every other node are as before. *)
Theorem train_tree_level_part_statistics (m : list (nat * list ImageSample))
    (tree tree' : list (Node S)) (current_level : nat) (g g' : G) :
  NoDup (map fst m) ->
  train_tree_level_part ndebug multi_threading hardware_concurrency
    find_best_split_point_tuple weak_learner_parameters training_parameters_
    m tree current_level g = Returns (tree', g') ->
  length tree' = length tree
  /\ (forall i samples, (i, samples) ∈ m -> i < length tree ->
        statistics_ <$> tree' !! i = Some (accumulated samples))
  /\ (forall k, k ∉ map fst m -> statistics_ <$> tree' !! k = statistics_ <$> tree !! k).
Proof.
  intros Hnd Hret.
  destruct (train_tree_level_part_returned m tree tree' current_level g g' Hret)
    as (best & -> & _ & _).
  split; [| split].
  - rewrite apply_best_split_point_batch_length. apply update_node_statistics_batch_length.
  - intros i samples Hin Hlt. rewrite apply_best_split_point_batch_statistics.
    apply update_node_statistics_batch_lookup; [| | exact Hlt].
    + rewrite compute_statistics_batch_keys. exact Hnd.
    + unfold compute_statistics_batch. apply list_elem_of_fmap.
      exists (i, samples). split; [reflexivity | exact Hin].
  - intros k Hk. rewrite apply_best_split_point_batch_statistics.
    rewrite update_node_statistics_batch_frame; [reflexivity |].
    rewrite compute_statistics_batch_keys. exact Hk.
Qed.

(** X20. When [train_tree_level_part] returns, a node that is neither in
    the frontier map nor a child of one of its nodes is as it was; and,
    for a [tree_depth] that is not negative, at a level that is not below
    [tree_depth] the engine is as it was and no leaf flag and no split
    point has changed. *)
Theorem train_tree_level_part_frame (m : list (nat * list ImageSample))
    (tree tree' : list (Node S)) (current_level : nat) (g g' : G) :
  train_tree_level_part ndebug multi_threading hardware_concurrency
    find_best_split_point_tuple weak_learner_parameters training_parameters_
    m tree current_level g = Returns (tree', g') ->
  (forall k, away_from (map fst m) k -> tree' !! k = tree !! k)
  /\ ((0 <= tree_depth training_parameters_)%Z ->
      (tree_depth training_parameters_ <= Z.of_nat current_level)%Z ->
      g' = g
      /\ forall k, leaf_ <$> tree' !! k = leaf_ <$> tree !! k
                   /\ split_point_ <$> tree' !! k = split_point_ <$> tree !! k).
Proof.
  intros Hret.
  destruct (train_tree_level_part_returned m tree tree' current_level g g' Hret)
    as (best & -> & Hkeys & Hlast).
  split.
  - intros k Haway.
    rewrite (apply_best_split_point_batch_frame training_parameters_)
      by (intros j Hj; apply Haway, Hkeys; exact Hj).
    apply update_node_statistics_batch_frame.
    rewrite compute_statistics_batch_keys. intros Hin.
    destruct (Haway k Hin) as [Hne _]. congruence.
  - intros Hnn Hge. destruct (Hlast Hnn Hge) as [-> ->]. split; [reflexivity |].
    intros k. apply update_node_statistics_batch_flags.
Qed.


End PartProofs.

(** ** The samples of a level *)

Local Open Scope nat_scope.

Section LevelSamples.

Context {S : Type}.
Variable evaluate : list (Node S) -> ImageSample -> nat.

Lemma push_back_at_buckets (node_index : nat) (sample : ImageSample) (keys : list nat)
    (bucket : nat -> list ImageSample) :
  LevelForestTrainer.push_back_at node_index sample (map (fun k => (k, bucket k)) keys)
  = map (fun k => (k, bucket k ++ (if k =? node_index then [sample] else []))) keys.
Proof.
  unfold LevelForestTrainer.push_back_at. rewrite map_map. apply map_ext. intros k.
  cbn [fst snd].
  destruct (Nat.eqb_spec k node_index) as [Heq | Hne].
  - rewrite decide_True by exact Heq. reflexivity.
  - rewrite decide_False by exact Hne. rewrite app_nil_r. reflexivity.
Qed.

Lemma get_sample_node_map_loop (tree : list (Node S)) (keys : list nat)
    (samples : list ImageSample) (bucket : nat -> list ImageSample) :
  fold_left (fun node_to_sample_map sample =>
      let node_it := evaluate tree sample in
      if bool_decide (node_it ∈ map fst node_to_sample_map)
      then LevelForestTrainer.push_back_at node_it sample node_to_sample_map
      else node_to_sample_map)
    samples (map (fun k => (k, bucket k)) keys)
  = map (fun k => (k, bucket k ++ routed_to evaluate tree k samples)) keys.
Proof.
  revert bucket. induction samples as [| sample samples IH]; intros bucket.
  - simpl. apply map_ext. intros k. rewrite app_nil_r. reflexivity.
  - cbn [fold_left]. cbv zeta.
    assert (Hkeys : map fst (map (fun k => (k, bucket k)) keys) = keys).
    { rewrite map_map. apply map_id. }
    rewrite Hkeys.
    assert (Hstep : (if bool_decide (evaluate tree sample ∈ keys)
                     then LevelForestTrainer.push_back_at (evaluate tree sample) sample
                            (map (fun k => (k, bucket k)) keys)
                     else map (fun k => (k, bucket k)) keys)
                    = map (fun k => (k, bucket k
                                        ++ (if k =? evaluate tree sample
                                            then [sample] else []))) keys).
    { destruct (bool_decide (evaluate tree sample ∈ keys)) eqn:E.
      - apply push_back_at_buckets.
      - apply bool_decide_eq_false in E. apply map_ext_in. intros k Hk.
        apply list_elem_of_In in Hk.
        destruct (Nat.eqb_spec k (evaluate tree sample)) as [Heq | Hne];
          [rewrite Heq in Hk; contradiction | rewrite app_nil_r; reflexivity]. }
    rewrite Hstep, IH. apply map_ext. intros k. unfold routed_to. cbn [List.filter].
    rewrite (Nat.eqb_sym (evaluate tree sample) k), <- app_assoc.
    destruct (k =? evaluate tree sample); reflexivity.
Qed.

Lemma get_sample_node_map_spec (tree : list (Node S)) (a b : nat)
    (samples : list ImageSample) :
  LevelForestTrainer.get_sample_node_map evaluate tree a b samples
  = map (fun k => (k, routed_to evaluate tree k samples)) (seq a (b - a)).
Proof.
  unfold LevelForestTrainer.get_sample_node_map.
  exact (get_sample_node_map_loop tree _ samples (fun _ => [])).
Qed.

Lemma list_find_bucket {T : Type} (bucket : nat -> T) (keys : list nat) (k : nat) :
  k ∈ keys ->
  exists i, list_find (fun e : nat * T => fst e = k) (map (fun j => (j, bucket j)) keys)
            = Some (i, (k, bucket k)).
Proof.
  intros Hk. apply list_elem_of_lookup in Hk. revert Hk.
  induction keys as [| j keys IH]; intros [n Hn].
  - rewrite lookup_nil in Hn. discriminate.
  - destruct (decide (j = k)) as [Heq | Hne].
    + exists 0. apply list_find_Some. rewrite Heq. cbn.
      split; [reflexivity | split; [reflexivity | intros ? ? ?; lia]].
    + destruct n as [| n]; [simpl in Hn; congruence |].
      destruct IH as [i Hi]; [exists n; exact Hn |].
      exists (Datatypes.S i). apply list_find_Some. apply list_find_Some in Hi.
      destruct Hi as (Hlook & Hfst & Hbefore). cbn [map].
      split; [exact Hlook | split; [exact Hfst |]].
      intros i' e Hi' Hlt. destruct i' as [| i'].
      * simpl in Hi'. injection Hi' as <-. exact Hne.
      * simpl in Hi'. apply (Hbefore i' e Hi'). lia.
Qed.

(** X23. [get_sample_node_map] sorts the samples by the node the tree
    routes them to: over a range of nodes it returns one entry per node of
    the range, in order, and the entry of a node holds exactly the samples
    routed to it, in the order of the samples. A node no sample reaches has
    an empty entry, and a sample routed outside the range is in no entry. *)
Theorem get_sample_node_map_buckets (tree : list (Node S))
    (node_iter_start node_iter_end : nat) (samples : list ImageSample) :
  node_iter_start <= node_iter_end ->
  LevelForestTrainer.get_sample_node_map evaluate tree node_iter_start node_iter_end samples
  = map (fun k => (k, routed_to evaluate tree k samples))
      (seq node_iter_start (node_iter_end - node_iter_start)).
Proof.
  intros _. apply get_sample_node_map_spec.
Qed.

(** X24. The part [get_sample_node_map_part] cuts out of the map of a
    level is the map [get_sample_node_map] builds for the nodes of the part
    alone: a part of a level is trained on all the samples routed to its
    nodes, and on no others. *)
Theorem get_sample_node_map_part_of_level (tree : list (Node S))
    (level_begin level_end node_iter_start node_iter_end : nat)
    (samples : list ImageSample) :
  level_begin <= node_iter_start -> node_iter_start <= node_iter_end ->
  node_iter_end <= level_end ->
  LevelForestTrainer.get_sample_node_map_part
    (LevelForestTrainer.get_sample_node_map evaluate tree level_begin level_end samples)
    node_iter_start node_iter_end
  = LevelForestTrainer.get_sample_node_map evaluate tree node_iter_start node_iter_end
      samples.
Proof.
  intros Hbegin Hle Hend. rewrite !get_sample_node_map_spec.
  unfold LevelForestTrainer.get_sample_node_map_part.
  apply map_ext_in. intros k Hk. apply in_seq in Hk.
  destruct (list_find_bucket (fun j => routed_to evaluate tree j samples)
              (seq level_begin (level_end - level_begin)) k) as [i Hi].
  { apply list_elem_of_In, in_seq. lia. }
  rewrite Hi. reflexivity.
Qed.

End LevelSamples.

(** ** A candidate index out of range during training *)

Local Open Scope nat_scope.

Section OutOfRange.
Context {L : ScalarLimits} {S : Type} {statistics : Statistics S}
        {G : Type} {engine : RandomEngine G}.
Variable ndebug : bool.
Variable multi_threading : bool.
Variable hardware_concurrency : nat.
Variable find_best_split_point_tuple : S -> SplitStatistics S -> nat * scalar_type.
Variable weak_learner_parameters : ImageWeakLearnerParameters.
Variable training_parameters_ : LevelTrainingParameters.
Variable evaluate : list (Node S) -> ImageSample -> nat.
Variable tree_level : list (Node S) -> nat -> nat * nat.
Variable make_tree : Z -> list (Node S).

Import LevelForestTrainer.








End OutOfRange.

(** ** The further properties at concrete inputs *)

Local Open Scope nat_scope.

Lemma evaluate_agrees_with_accumulation_witness :
  in_int16 (ImageFeature.compute_pixel_difference zero_feature dot_sample)
  /\ ImageSplitPoint.evaluate
       (ImageSplitPoint.make zero_feature {| ImageThreshold.threshold := (1 # 2)%Q |})
       dot_sample
     = LEFT.
Proof.
  assert (H : in_int16 (ImageFeature.compute_pixel_difference zero_feature dot_sample)).
  { vm_compute. split; discriminate. }
  split; [exact H |].
  rewrite (evaluate_agrees_with_accumulation zero_feature
             {| ImageThreshold.threshold := (1 # 2)%Q |} dot_sample H).
  reflexivity.
Defined.

Lemma binary_images_thresholds_witness :
  binary_images binary_parameters = true
  /\ (zero_feature, binary_thresholds)
       ∈ ImageSplitPointCandidates.candidates_
           (fst (sample_split_points (L := double_limits) (engine := tape_engine)
                   binary_parameters [] []))
  /\ ImageThreshold.left_direction {| ImageThreshold.threshold := (1 # 2)%Q |} 0
     = left_direction_non_strict {| ImageThreshold.threshold := (1 # 2)%Q |} 0.
Proof.
  assert (Hb : binary_images binary_parameters = true) by reflexivity.
  assert (Hin : (zero_feature, binary_thresholds)
                  ∈ ImageSplitPointCandidates.candidates_
                      (fst (sample_split_points (L := double_limits)
                              (engine := tape_engine) binary_parameters [] [])))
    by (vm_compute; left).
  assert (Hth : {| ImageThreshold.threshold := (1 # 2)%Q |} ∈ binary_thresholds)
    by (right; left).
  split; [exact Hb |]. split; [exact Hin |].
  exact (proj2 (binary_images_thresholds (L := double_limits) (engine := tape_engine)
                  binary_parameters [] [] Hb zero_feature binary_thresholds Hin)
           {| ImageThreshold.threshold := (1 # 2)%Q |} 0%Z Hth).
Defined.

Lemma get_split_point_in_range_witness :
  total_size_consistent binary_candidates
  /\ 1 < ImageSplitPointCandidates.total_size binary_candidates
  /\ exists i feature thresholds j th,
       ImageSplitPointCandidates.candidates_ binary_candidates !! i
       = Some (feature, thresholds)
       /\ thresholds !! j = Some th
       /\ 1 = flattened_offset (ImageSplitPointCandidates.candidates_ binary_candidates) i + j
       /\ ImageSplitPointCandidates.get_split_point true binary_candidates 1
          = Returns (ImageSplitPoint.make feature th).
Proof.
  assert (Hc : total_size_consistent binary_candidates) by reflexivity.
  assert (Hlt : 1 < ImageSplitPointCandidates.total_size binary_candidates)
    by (simpl; lia).
  split; [exact Hc |]. split; [exact Hlt |].
  exact (get_split_point_in_range true binary_candidates 1 Hc Hlt).
Defined.

Lemma get_split_point_after_add_witness :
  total_size_consistent binary_candidates
  /\ ImageSplitPointCandidates.get_split_point true
       (ImageSplitPointCandidates.add_feature_and_thresholds binary_candidates down_feature
          [ {| ImageThreshold.threshold := (3 # 2)%Q |} ])
       (ImageSplitPointCandidates.total_size binary_candidates + 0)
     = Returns (ImageSplitPoint.make down_feature
                  {| ImageThreshold.threshold := (3 # 2)%Q |}).
Proof.
  assert (Hc : total_size_consistent binary_candidates) by reflexivity.
  split; [exact Hc |].
  destruct (get_split_point_after_add true binary_candidates down_feature
              [ {| ImageThreshold.threshold := (3 # 2)%Q |} ] Hc)
    as (_ & _ & _ & Hnew).
  exact (Hnew 0 {| ImageThreshold.threshold := (3 # 2)%Q |} eq_refl).
Defined.

Lemma offset_range_fits_0_1 : offset_range_fits 0 1.
Proof. unfold offset_range_fits, int16_min, int16_max. lia. Qed.

Lemma sampled_offsets_within_ranges_witness :
  draws_within_bounds (engine := tape_engine) (list Z)
  /\ offset_range_fits (feature_offset_x_range_low plain_parameters)
       (feature_offset_x_range_high plain_parameters)
  /\ offset_range_fits (feature_offset_y_range_low plain_parameters)
       (feature_offset_y_range_high plain_parameters)
  /\ exists feature thresholds,
       (feature, thresholds)
         ∈ ImageSplitPointCandidates.candidates_
             (fst (sample_split_points (L := double_limits) (engine := tape_engine)
                     plain_parameters [] [1; 2; 3]%Z))
       /\ feature_within_ranges plain_parameters feature.
Proof.
  pose proof tape_engine_draws_within_bounds as Hd.
  pose proof offset_range_fits_0_1 as Hx.
  split; [exact Hd |]. split; [exact Hx |]. split; [exact Hx |].
  assert (Hin : exists feature thresholds,
             ImageSplitPointCandidates.candidates_
               (fst (sample_split_points (L := double_limits) (engine := tape_engine)
                       plain_parameters [] [1; 2; 3]%Z)) !! 0
             = Some (feature, thresholds))
    by (vm_compute; eexists _, _; reflexivity).
  destruct Hin as (feature & thresholds & Hlook).
  exists feature, thresholds.
  pose proof (list_elem_of_lookup_2 _ _ _ Hlook) as Hmem.
  split; [exact Hmem |].
  exact (sampled_offsets_within_ranges (L := double_limits) (engine := tape_engine)
           plain_parameters [] [1; 2; 3]%Z Hd Hx Hx feature thresholds Hmem).
Defined.

Lemma sampled_thresholds_within_fixed_range_witness :
  draws_within_bounds (engine := tape_engine) (list Z)
  /\ binary_images plain_parameters = false
  /\ adaptive_threshold_range plain_parameters = false
  /\ (threshold_range_low plain_parameters <= threshold_range_high plain_parameters)%Q
  /\ exists feature thresholds th,
       (feature, thresholds)
         ∈ ImageSplitPointCandidates.candidates_
             (fst (sample_split_points (L := double_limits) (engine := tape_engine)
                     plain_parameters [] [1; 2; 3]%Z))
       /\ th ∈ thresholds
       /\ (threshold_range_low plain_parameters <= ImageThreshold.threshold th
           <= threshold_range_high plain_parameters)%Q.
Proof.
  pose proof tape_engine_draws_within_bounds as Hd.
  assert (Hb : binary_images plain_parameters = false) by reflexivity.
  assert (Ha : adaptive_threshold_range plain_parameters = false) by reflexivity.
  assert (Hle : (threshold_range_low plain_parameters
                 <= threshold_range_high plain_parameters)%Q)
    by (vm_compute; discriminate).
  split; [exact Hd |]. split; [exact Hb |]. split; [exact Ha |]. split; [exact Hle |].
  assert (Hin : exists feature thresholds th,
             ImageSplitPointCandidates.candidates_
               (fst (sample_split_points (L := double_limits) (engine := tape_engine)
                       plain_parameters [] [1; 2; 3]%Z)) !! 0
             = Some (feature, thresholds)
             /\ thresholds !! 0 = Some th)
    by (vm_compute; eexists _, _, _; split; reflexivity).
  destruct Hin as (feature & thresholds & th & Hlook & Hth).
  exists feature, thresholds, th.
  pose proof (list_elem_of_lookup_2 _ _ _ Hlook) as Hmem.
  pose proof (list_elem_of_lookup_2 _ _ _ Hth) as Hmem'.
  split; [exact Hmem |]. split; [exact Hmem' |].
  exact (sampled_thresholds_within_fixed_range (L := double_limits) (engine := tape_engine)
           plain_parameters [] [1; 2; 3]%Z Hd Hb Ha Hle feature thresholds th Hmem Hmem').
Defined.

Lemma adaptive_range_characterised_witness :
  floating_limits double_limits
  /\ compute_adaptive_threshold_range (L := double_limits) [] zero_feature = (0%Q, 0%Q).
Proof.
  pose proof double_limits_floating as HL.
  split; [exact HL |].
  exact (proj1 (adaptive_range_characterised (L := double_limits) zero_feature [] HL)
           eq_refl).
Defined.

Lemma compute_split_statistics_routes_witness :
  uniform_thresholds 2 binary_candidates
  /\ total_size_consistent binary_candidates
  /\ ImageSplitPointCandidates.candidates_ binary_candidates !! 0
     = Some (zero_feature, binary_thresholds)
  /\ binary_thresholds !! 1 = Some {| ImageThreshold.threshold := (1 # 2)%Q |}
  /\ get_left_statistics 1
       (compute_split_statistics (statistics := histogram_statistics 1) [dot_sample]
          binary_candidates)
     = Some (lazily_accumulated (statistics := histogram_statistics 1)
               (fun sample =>
                  ImageThreshold.left_direction {| ImageThreshold.threshold := (1 # 2)%Q |}
                    (ImageFeature.compute_pixel_difference zero_feature sample))
               [dot_sample] 0).
Proof.
  assert (Hun : uniform_thresholds 2 binary_candidates) by (repeat constructor).
  assert (Hc : total_size_consistent binary_candidates) by reflexivity.
  assert (Hi : ImageSplitPointCandidates.candidates_ binary_candidates !! 0
               = Some (zero_feature, binary_thresholds)) by reflexivity.
  assert (Hj : binary_thresholds !! 1 = Some {| ImageThreshold.threshold := (1 # 2)%Q |})
    by reflexivity.
  split; [exact Hun |]. split; [exact Hc |]. split; [exact Hi |]. split; [exact Hj |].
  exact (proj1 (compute_split_statistics_routes (statistics := histogram_statistics 1)
                  2 [dot_sample] binary_candidates 0 1 zero_feature binary_thresholds
                  {| ImageThreshold.threshold := (1 # 2)%Q |} Hun Hc Hi Hj)).
Defined.

Lemma parallel_thread_count_fallback_witness :
  (0 <= 0)%Z
  /\ uniform_thresholds 2 binary_candidates
  /\ [1; 0] ≡ₚ seq 0 2
  /\ compute_split_statistics_parallel_scheduled (statistics := histogram_statistics 1)
       2 [dot_sample] binary_candidates 0 [1; 0]
     = compute_split_statistics (statistics := histogram_statistics 1) [dot_sample]
         binary_candidates.
Proof.
  assert (Hnt : (0 <= 0)%Z) by lia.
  assert (Hun : uniform_thresholds 2 binary_candidates) by (repeat constructor).
  assert (Hperm : [1; 0] ≡ₚ seq 0 2) by (simpl; apply perm_swap).
  split; [exact Hnt |]. split; [exact Hun |]. split; [exact Hperm |].
  exact (parallel_thread_count_fallback (statistics := histogram_statistics 1)
           2 2 [dot_sample] binary_candidates 0 [1; 0] Hnt Hun Hperm).
Defined.

Lemma shards_are_balanced_witness :
  0 < 2
  /\ ImageSplitPointCandidates.size ragged_candidates / 2
     <= shard_bound (0 + 1) (ImageSplitPointCandidates.size ragged_candidates) 2
        - shard_bound 0 (ImageSplitPointCandidates.size ragged_candidates) 2
     <= ImageSplitPointCandidates.size ragged_candidates / 2 + 1.
Proof.
  assert (HT : 0 < 2) by lia.
  split; [exact HT |].
  exact (shards_are_balanced ragged_candidates 2 0 HT).
Defined.

Lemma sample_bag_batches_are_balanced_witness :
  0 < 2
  /\ [] ∈ fst (ImageSampleProvider.compute_sample_bag_batches (engine := tape_engine)
                 strip_provider 2 [0%Z])
  /\ Z.to_nat (ImageSampleProvider.num_of_images_per_bag strip_provider) / 2
     <= length (@nil nat)
     <= Z.to_nat (ImageSampleProvider.num_of_images_per_bag strip_provider) / 2 + 1.
Proof.
  assert (HB : 0 < 2) by lia.
  assert (Hin : [] ∈ fst (ImageSampleProvider.compute_sample_bag_batches
                            (engine := tape_engine) strip_provider 2 [0%Z]))
    by (vm_compute; left).
  split; [exact HB |]. split; [exact Hin |].
  exact (sample_bag_batches_are_balanced (engine := tape_engine) strip_provider 2 [0%Z]
           [] HB Hin).
Defined.

Lemma strip_provider_coherent : cache_coherent strip_provider.
Proof. intros i image Hi. simpl in Hi. rewrite lookup_empty in Hi. discriminate. Qed.

Lemma whole_provider_coherent : cache_coherent whole_provider.
Proof. intros i image Hi. simpl in Hi. rewrite lookup_empty in Hi. discriminate. Qed.

Lemma strip_image_fits : image_fits_offsets strip_image.
Proof. split; vm_compute; discriminate. Qed.

Lemma load_samples_from_image_foreground_witness :
  (0 <= samples_per_image_fraction (ImageSampleProvider.parameters_ sparse_provider))%Q
  /\ ImageSampleProvider.images sparse_provider !! 0 = Some grid_image
  /\ cache_coherent sparse_provider
  /\ image_fits_offsets grid_image
  /\ exists p' g' new,
       ImageSampleProvider.load_samples_from_image (engine := tape_engine) true 0
         sparse_provider [0; 0; 0]%Z = Returns (p', g')
       /\ ImageSampleProvider.samples_ p'
          = ImageSampleProvider.samples_ sparse_provider ++ new
       /\ length new = 2
       /\ Forall (foreground_sample grid_image
                    (background_label (ImageSampleProvider.parameters_ sparse_provider)))
            new.
Proof.
  assert (Hf : (0 <= samples_per_image_fraction
                      (ImageSampleProvider.parameters_ sparse_provider))%Q)
    by (simpl; discriminate).
  assert (Hi : ImageSampleProvider.images sparse_provider !! 0 = Some grid_image)
    by reflexivity.
  assert (Hco : cache_coherent sparse_provider).
  { intros i image Hl. simpl in Hl. rewrite lookup_empty in Hl. discriminate. }
  assert (Hfit : image_fits_offsets grid_image) by (split; vm_compute; discriminate).
  split; [exact Hf |]. split; [exact Hi |]. split; [exact Hco |]. split; [exact Hfit |].
  destruct (load_samples_from_image_foreground (engine := tape_engine) true 0
              sparse_provider [0; 0; 0]%Z grid_image Hf Hi Hco Hfit)
    as (p' & g' & new & Hload & Hsamples & _ & Hcount & Hall).
  exists p', g', new. split; [exact Hload |]. split; [exact Hsamples |].
  split; [| exact Hall].
  rewrite Hcount by reflexivity. vm_compute. reflexivity.
Defined.

Lemma load_samples_from_image_without_subsampling_witness :
  ImageSampleProvider.images whole_provider !! 0 = Some strip_image
  /\ cache_coherent whole_provider
  /\ image_fits_offsets strip_image
  /\ (1 <= samples_per_image_fraction (ImageSampleProvider.parameters_ whole_provider))%Q
  /\ NoDup (map coordinates
              (ImageSampleProvider.non_background strip_image
                 (background_label (ImageSampleProvider.parameters_ whole_provider)))).
Proof.
  assert (Hi : ImageSampleProvider.images whole_provider !! 0 = Some strip_image)
    by reflexivity.
  pose proof whole_provider_coherent as Hco.
  pose proof strip_image_fits as Hfit.
  assert (Hge : (1 <= samples_per_image_fraction
                        (ImageSampleProvider.parameters_ whole_provider))%Q)
    by (vm_compute; discriminate).
  split; [exact Hi |]. split; [exact Hco |]. split; [exact Hfit |]. split; [exact Hge |].
  destruct (load_samples_from_image_without_subsampling (engine := tape_engine) true 0
              whole_provider [] strip_image Hi Hco Hfit Hge)
    as (p' & _ & _ & Hnodup & _).
  exact Hnodup.
Defined.

Lemma load_sample_batch_cache_witness :
  Forall (fun i => i < length (ImageSampleProvider.images strip_provider)) [0; 0]
  /\ cache_coherent strip_provider
  /\ exists p' g',
       ImageSampleProvider.load_sample_batch (engine := tape_engine) true [0; 0]
         strip_provider [0; 1; 0; 2; 0; 0]%Z = Returns (p', g')
       /\ ImageSampleProvider.image_map_ p' !! 0 = Some strip_image
       /\ ImageSampleProvider.image_map_ p' !! 1 = None.
Proof.
  assert (Hall : Forall (fun i => i < length (ImageSampleProvider.images strip_provider))
                   [0; 0]) by (repeat constructor).
  pose proof strip_provider_coherent as Hco.
  split; [exact Hall |]. split; [exact Hco |].
  destruct (load_sample_batch_cache (engine := tape_engine) true [0; 0] strip_provider
              [0; 1; 0; 2; 0; 0]%Z Hall Hco)
    as (p' & g' & Hload & Hmap & _).
  exists p', g'. split; [exact Hload |]. split.
  - rewrite Hmap. reflexivity.
  - rewrite Hmap. reflexivity.
Defined.

Lemma load_sample_batch_without_subsampling_witness :
  Forall (fun i => i < length (ImageSampleProvider.images whole_provider)) [0]
  /\ cache_coherent whole_provider
  /\ (1 <= samples_per_image_fraction (ImageSampleProvider.parameters_ whole_provider))%Q
  /\ exists p',
       ImageSampleProvider.load_sample_batch (engine := tape_engine) true [0]
         whole_provider [5%Z] = Returns (p', [5%Z])
       /\ map coordinates (ImageSampleProvider.samples_ p')
          = [(0, 0); (0, 1); (0, 2)]%Z.
Proof.
  assert (Hall : Forall (fun i => i < length (ImageSampleProvider.images whole_provider))
                   [0]) by (repeat constructor).
  pose proof whole_provider_coherent as Hco.
  assert (Hge : (1 <= samples_per_image_fraction
                        (ImageSampleProvider.parameters_ whole_provider))%Q)
    by (vm_compute; discriminate).
  split; [exact Hall |]. split; [exact Hco |]. split; [exact Hge |].
  destruct (load_sample_batch_without_subsampling (engine := tape_engine) true [0]
              whole_provider [5%Z] Hall Hco Hge)
    as (p' & Hload & Hsamples).
  exists p'. split; [exact Hload |]. rewrite Hsamples. vm_compute. reflexivity.
Defined.

Lemma load_sample_batch_after_clear_image_cache_witness :
  Forall (fun i => i < length (ImageSampleProvider.images strip_provider)) [0; 0]
  /\ exists p' g' loaded,
       ImageSampleProvider.load_sample_batch (engine := tape_engine) true [0; 0]
         (ImageSampleProvider.clear_image_cache strip_provider) [] = Returns (p', g')
       /\ ImageSampleProvider.provider_calls p'
          = ImageSampleProvider.provider_calls strip_provider ++ loaded
       /\ NoDup loaded
       /\ forall i, i ∈ loaded <-> i ∈ [0; 0].
Proof.
  assert (Hall : Forall (fun i => i < length (ImageSampleProvider.images strip_provider))
                   [0; 0]) by (repeat constructor).
  split; [exact Hall |].
  exact (load_sample_batch_after_clear_image_cache (engine := tape_engine) true [0; 0]
           strip_provider [] Hall).
Defined.

Lemma root_samples_distinct : NoDup (map fst root_samples).
Proof. simpl. apply NoDup_singleton. Qed.

Lemma train_tree_level_part_statistics_witness :
  exists tree' g',
    NoDup (map fst root_samples)
    /\ LevelForestTrainer.train_tree_level_part (L := double_limits)
         (statistics := histogram_statistics 1) (engine := tape_engine)
         true false 1 first_candidate binary_parameters two_level_parameters
         root_samples histogram_tree 1 [] = Returns (tree', g')
    /\ length tree' = length histogram_tree.
Proof.
  pose proof root_samples_distinct as Hnd.
  eexists _, _. split; [exact Hnd |].
  assert (Hret : LevelForestTrainer.train_tree_level_part (L := double_limits)
                   (statistics := histogram_statistics 1) (engine := tape_engine)
                   true false 1 first_candidate binary_parameters two_level_parameters
                   root_samples histogram_tree 1 [] = Returns (_, _))
    by (vm_compute; reflexivity).
  split; [exact Hret |].
  exact (proj1 (train_tree_level_part_statistics (L := double_limits)
                  (statistics := histogram_statistics 1) (engine := tape_engine)
                  true false 1 first_candidate binary_parameters two_level_parameters
                  root_samples histogram_tree _ 1 [] _ Hnd Hret)).
Defined.

Lemma train_tree_level_part_frame_witness :
  exists tree' g',
    LevelForestTrainer.train_tree_level_part (L := double_limits)
      (statistics := histogram_statistics 1) (engine := tape_engine)
      true false 1 first_candidate binary_parameters two_level_parameters
      root_samples histogram_tree 2 [7%Z] = Returns (tree', g')
    /\ (0 <= tree_depth two_level_parameters)%Z
    /\ (tree_depth two_level_parameters <= Z.of_nat 2)%Z
    /\ g' = [7%Z].
Proof.
  eexists _, _.
  assert (Hret : LevelForestTrainer.train_tree_level_part (L := double_limits)
                   (statistics := histogram_statistics 1) (engine := tape_engine)
                   true false 1 first_candidate binary_parameters two_level_parameters
                   root_samples histogram_tree 2 [7%Z] = Returns (_, _))
    by (vm_compute; reflexivity).
  assert (Hnn : (0 <= tree_depth two_level_parameters)%Z) by (simpl; lia).
  assert (Hge : (tree_depth two_level_parameters <= Z.of_nat 2)%Z) by (simpl; lia).
  split; [exact Hret |]. split; [exact Hnn |]. split; [exact Hge |].
  exact (proj1 (proj2 (train_tree_level_part_frame (L := double_limits)
                         (statistics := histogram_statistics 1) (engine := tape_engine)
                         true false 1 first_candidate binary_parameters
                         two_level_parameters root_samples histogram_tree _ 2 [7%Z] _
                         Hret) Hnn Hge)).
Defined.


Lemma get_sample_node_map_buckets_witness :
  0 <= 3
  /\ LevelForestTrainer.get_sample_node_map column_routing histogram_tree 0 3
       [dot_sample; dot_sample]
     = map (fun k => (k, routed_to column_routing histogram_tree k [dot_sample; dot_sample]))
         (seq 0 (3 - 0)).
Proof.
  split; [lia |].
  apply (get_sample_node_map_buckets column_routing histogram_tree 0 3). lia.
Defined.

Lemma get_sample_node_map_part_of_level_witness :
  (0 <= 0 /\ 0 <= 2 /\ 2 <= 3)
  /\ LevelForestTrainer.get_sample_node_map_part
       (LevelForestTrainer.get_sample_node_map column_routing histogram_tree 0 3
          [dot_sample; dot_sample]) 0 2
     = LevelForestTrainer.get_sample_node_map column_routing histogram_tree 0 2
         [dot_sample; dot_sample].
Proof.
  split; [lia |].
  apply (get_sample_node_map_part_of_level column_routing histogram_tree 0 3 0 2); lia.
Defined.


